(** * SustainLabs heart-rate monitor: the PPG signal pipeline of [App.tsx]

    A shallow embedding of the signal-processing functions of
    [src/App.tsx] (liveness check, signal conditioning, peak detection,
    Kalman smoothing, oxygen estimation, signal quality, session end)
    together with the properties stated about them.

    Numbers.  A JavaScript [number] is modelled by [number] below: an exact
    rational, or one of the three special values [Infinity], [-Infinity]
    and [NaN].  Arithmetic on the special values follows IEEE-754 as
    JavaScript has it.  Two things are idealised: finite results are exact
    (no rounding, no overflow, no underflow), and the sign of zero is not
    tracked (a zero is taken to be [+0]).  Reading an array outside its
    bounds or at a fractional index gives [undefined] in JavaScript; every
    use of such a read in this program is arithmetic or a comparison, where
    [undefined] behaves as [NaN], so the read is modelled as [NaN].

    Double precision.  The program computes with IEEE 754 doubles.  Where a
    property of the exact model would not survive the rounding or the
    overflow of a double, the theorem is stated in the form that does: with
    a bound on the magnitude of its inputs, on integers, or with a
    non-strict inequality; the comment of the theorem says so.  The module
    [F64] holds the functions for which a rounding or an overflow decides a
    result, on the primitive binary64 numbers, and is used to evaluate them
    at the inputs concerned. *)

From Stdlib Require Import String QArith Qround Qabs ZArith List Sorted Bool Lia Lqa.
From Stdlib Require PrimFloat.
Import ListNotations.

(* ================================================================= *)
(** ** JavaScript numbers *)

Module JS.

Inductive number : Type :=
| Fin (q : Q)
| PInf
| NInf
| NaN.

Definition Qltb (x y : Q) : bool := negb (Qle_bool y x).
Definition Qis0 (x : Q) : bool := (Qnum x =? 0)%Z.
Definition Qpos (x : Q) : bool := (0 <? Qnum x)%Z.

Definition ofZ (z : Z) : number := Fin (inject_Z z).
Definition ofNat (n : nat) : number := ofZ (Z.of_nat n).

Definition neg (x : number) : number :=
  match x with
  | Fin a => Fin (- a)
  | PInf => NInf
  | NInf => PInf
  | NaN => NaN
  end.

Definition add (x y : number) : number :=
  match x, y with
  | NaN, _ | _, NaN => NaN
  | Fin a, Fin b => Fin (a + b)
  | PInf, NInf | NInf, PInf => NaN
  | PInf, _ | _, PInf => PInf
  | NInf, _ | _, NInf => NInf
  end.

Definition sub (x y : number) : number := add x (neg y).

(** The sign of an infinite product or quotient. *)
Definition signed (positive : bool) : number := if positive then PInf else NInf.

Definition mul (x y : number) : number :=
  match x, y with
  | NaN, _ | _, NaN => NaN
  | Fin a, Fin b => Fin (a * b)
  | Fin a, PInf | PInf, Fin a => if Qis0 a then NaN else signed (Qpos a)
  | Fin a, NInf | NInf, Fin a => if Qis0 a then NaN else signed (negb (Qpos a))
  | PInf, PInf | NInf, NInf => PInf
  | PInf, NInf | NInf, PInf => NInf
  end.

Definition div (x y : number) : number :=
  match x, y with
  | NaN, _ | _, NaN => NaN
  | Fin a, Fin b =>
      if Qis0 b then (if Qis0 a then NaN else signed (Qpos a))
      else Fin (a / b)
  | Fin _, _ => Fin 0
  | PInf, Fin b => signed (Qpos b || Qis0 b)
  | NInf, Fin b => signed (negb (Qpos b || Qis0 b))
  | _, _ => NaN
  end.

(** [x < y]; every comparison with [NaN] is false. *)
Definition lt (x y : number) : bool :=
  match x, y with
  | NaN, _ | _, NaN => false
  | Fin a, Fin b => Qltb a b
  | _, NInf => false
  | PInf, _ => false
  | NInf, _ => true
  | Fin _, PInf => true
  end.

Definition le (x y : number) : bool :=
  match x, y with
  | NaN, _ | _, NaN => false
  | Fin a, Fin b => Qle_bool a b
  | NInf, _ => true
  | _, PInf => true
  | _, _ => false
  end.

Definition gt (x y : number) : bool := lt y x.
Definition ge (x y : number) : bool := le y x.

(** [x === y] on numbers. *)
Definition seq (x y : number) : bool :=
  match x, y with
  | Fin a, Fin b => Qeq_bool a b
  | PInf, PInf | NInf, NInf => true
  | _, _ => false
  end.

(** Truthiness of a number: [0] and [NaN] are falsy. *)
Definition truthy (x : number) : bool :=
  match x with
  | Fin a => negb (Qis0 a)
  | NaN => false
  | _ => true
  end.

(** [x || d] on numbers. *)
Definition or_else (x d : number) : number := if truthy x then x else d.

Definition abs (x : number) : number :=
  match x with
  | Fin a => Fin (Qabs a)
  | NaN => NaN
  | _ => PInf
  end.

(** [Math.min(x, y)] and [Math.max(x, y)]: [NaN] if either argument is. *)
Definition min (x y : number) : number :=
  match x, y with
  | NaN, _ | _, NaN => NaN
  | _, _ => if lt y x then y else x
  end.

Definition max (x y : number) : number :=
  match x, y with
  | NaN, _ | _, NaN => NaN
  | _, _ => if lt x y then y else x
  end.

(** [Math.min(...data)] and [Math.max(...data)]. *)
Definition min_of (data : list number) : number := fold_left min data PInf.
Definition max_of (data : list number) : number := fold_left max data NInf.

(** [Math.floor] and [Math.round] (halves go up). *)
Definition floor (x : number) : number :=
  match x with
  | Fin a => ofZ (Qfloor a)
  | _ => x
  end.

Definition round (x : number) : number :=
  match x with
  | Fin a => ofZ (Qfloor (a + (1 # 2)))
  | _ => x
  end.

(** [Math.pow(x, 2)]. *)
Definition sqr (x : number) : number := mul x x.

(** [data.reduce((sum, val) => sum + val, 0)]. *)
Definition sum (data : list number) : number := fold_left add data (Fin 0).

(** [data[i]] for an integer [i]. *)
Definition get (data : list number) (i : Z) : number :=
  if (i <? 0)%Z then NaN else nth (Z.to_nat i) data NaN.

(** [data[j]] for an arbitrary rational [j]: [undefined] unless [j] is an
    integer within bounds. *)
Definition getq (data : list number) (j : Q) : number :=
  if Qeq_bool j (inject_Z (Qfloor j)) then get data (Qfloor j) else NaN.

Definition len (data : list number) : Z := Z.of_nat (length data).

Definition is_fin (x : number) : Prop :=
  match x with Fin _ => True | _ => False end.

(** A number with its fraction in lowest terms. *)
Definition canon (x : number) : number :=
  match x with
  | Fin a => Fin (Qred a)
  | _ => x
  end.

(** Equality of numbers as values: rationals up to [Qeq]. *)
Definition same (x y : number) : Prop :=
  match x, y with
  | Fin a, Fin b => a == b
  | PInf, PInf | NInf, NInf | NaN, NaN => True
  | _, _ => False
  end.

End JS.

Declare Scope js_scope.
Delimit Scope js_scope with js.
Bind Scope js_scope with JS.number.
Infix "+" := JS.add : js_scope.
Infix "-" := JS.sub : js_scope.
Infix "*" := JS.mul : js_scope.
Infix "/" := JS.div : js_scope.
Infix ">" := JS.gt : js_scope.
Infix "<" := JS.lt : js_scope.
Infix ">=" := JS.ge : js_scope.
Infix "<=" := JS.le : js_scope.
Infix "===" := JS.seq (at level 70) : js_scope.
Infix "||" := JS.or_else : js_scope.
Infix "≈" := JS.same (at level 70).

Import JS.

(** Numeric literals of the source. *)
Definition num (z : Z) : number := ofZ z.
Definition dec (n : Z) (d : positive) : number := Fin (n # d).

(* ================================================================= *)
(** ** Liveness classifier: [verifyHumanFingerprint] *)

Definition verifyHumanFingerprint (redVal greenVal blueVal : number) : bool :=
  let isRedDominant := (redVal > greenVal)%js && (redVal > blueVal)%js in
  let isGreenSecondary := (greenVal > blueVal)%js in
  let redToBlueRatio := (redVal / (blueVal || num 1))%js in
  let hasExpectedColorProfile := (redToBlueRatio > dec 13 10)%js in
  isRedDominant && isGreenSecondary && hasExpectedColorProfile.

(** The rule as the specification words it: [b'] is [1] when [b = 0] and
    [b] otherwise. *)
Definition blue_or_one (b : number) : number :=
  if (b === num 0)%js then num 1 else b.

Definition liveness_rule (r g b : number) : bool :=
  (r > g)%js && (r > b)%js && (g > b)%js && (r / blue_or_one b > dec 13 10)%js.

(* ================================================================= *)
(** ** Loops and arrays *)

(** The integers [lo, lo+1, ..., hi-1]: the index values of
    [for (let i = lo; i < hi; i++)]. *)
Definition zrange (lo hi : Z) : list Z :=
  map (fun k => (lo + Z.of_nat k)%Z) (List.seq 0 (Z.to_nat (hi - lo))).

(** The values [start, start+1, ...] below [stop]: the index values of
    [for (let j = start; j < stop; j++)] when the bounds need not be
    integers. *)
Definition qrange (start stop : Q) : list Q :=
  map (fun k => start + inject_Z (Z.of_nat k))
      (List.seq 0 (Z.to_nat (Qceiling (stop - start)))).

(** [result[i] = v] for an index inside the array (the only use made of
    it: the loop of [removeBaselineWander] stays below [data.length]). *)
Fixpoint update (l : list number) (i : nat) (v : number) : list number :=
  match l, i with
  | [], _ => []
  | _ :: t, O => v :: t
  | h :: t, S k => h :: update t k v
  end.

(** [data.slice(-n)]: the last [n] elements. *)
Definition slice_last (n : nat) (data : list number) : list number :=
  skipn (length data - n) data.

(* ================================================================= *)
(** ** Signal conditioner *)

(** [applySavitzkyGolayFilter]: a distance-weighted moving average. *)
Definition applySavitzkyGolayFilter
    (data : list number) (windowSize polynomialOrder : Z) : list number :=
  let halfWindow := (windowSize / 2)%Z in
  map (fun i =>
         let '(sum, weightSum) :=
           fold_left
             (fun '(sum, weightSum) j =>
                let distance := Z.abs (i - j) in
                let weight := (num 1 / (num 1 + num distance * num distance))%js in
                ((sum + get data j * weight)%js, (weightSum + weight)%js))
             (zrange (Z.max 0 (i - halfWindow))
                     (Z.min (len data - 1) (i + halfWindow) + 1))
             (num 0, num 0) in
         (sum / weightSum)%js)
      (zrange 0 (len data)).

(** The baseline at position [i] of [removeBaselineWander]: the two flanking
    sums.  The second loop starts at [i + windowSize/3], which is not an
    integer unless 3 divides [windowSize]. *)
Definition baselineAt (data : list number) (windowSize i : Z) : number :=
  let w := inject_Z windowSize in
  let qi := inject_Z i in
  let baselineSum :=
    fold_left (fun acc j => (acc + getq data j)%js)
              (qrange (qi - w) (qi - w / 3)) (num 0) in
  let baselineSum :=
    fold_left (fun acc j => (acc + getq data j)%js)
              (qrange (qi + w / 3) (qi + w)) baselineSum in
  (baselineSum / (num windowSize * num 2 - num windowSize / dec 15 10))%js.

Definition removeBaselineWander (data : list number) : list number :=
  let windowSize := Z.min 50 (len data / 4) in
  if (windowSize <? 3)%Z then data
  else
    fold_left
      (fun result i =>
         update result (Z.to_nat i)
                (get data i - baselineAt data windowSize i + num 50)%js)
      (zrange windowSize (len data - windowSize))
      data.

Definition normalizeSignal (data : list number) : list number :=
  match data with
  | [] => data
  | _ =>
      let min := min_of data in
      let max := max_of data in
      if (max === min)%js then map (fun _ => num 50) data
      else map (fun val => ((val - min) / (max - min) * num 80 + num 10)%js) data
  end.

Definition applyAdvancedSignalProcessing (data : list number) : list number :=
  if (len data <? 20)%Z then data
  else
    let smoothedData := applySavitzkyGolayFilter data 5 3 in
    let baselineCorrected := removeBaselineWander smoothedData in
    normalizeSignal baselineCorrected.

Definition processPPG (data : list number) : list number :=
  if (len data <=? 10)%Z then data else applyAdvancedSignalProcessing data.

(* ================================================================= *)
(** ** Peak detector *)

Definition refinePeakLocation (data : list number) (peakIndex : Z) : number :=
  if ((peakIndex <=? 0) || (peakIndex >=? len data - 1))%Z then num peakIndex
  else
    let y1 := get data (peakIndex - 1) in
    let y2 := get data peakIndex in
    let y3 := get data (peakIndex + 1) in
    let offset := ((y1 - y3) / (num 2 * (y1 - num 2 * y2 + y3)))%js in
    if (abs offset < num 1)%js then (num peakIndex + offset)%js
    else num peakIndex.

(** The denominator of the parabolic fit at [peakIndex], before the factor
    2. *)
Definition curvature (data : list number) (peakIndex : Z) : number :=
  (get data (peakIndex - 1) - num 2 * get data peakIndex
   + get data (peakIndex + 1))%js.

Section WithSqrt.

(** [Math.sqrt] on non-negative rationals.  A rational model has no exact
    square root; the pipeline is defined for any function standing for it,
    and the properties below say which of its properties they rely on. *)
Variable sqrtQ : Q -> Q.

Definition Math_sqrt (x : number) : number :=
  match x with
  | Fin a => if Qltb a 0 then NaN else Fin (sqrtQ a)
  | PInf => PInf
  | _ => NaN
  end.

(** [mean] and [stdDev] as [enhancedPeakDetection] computes them. *)
Definition mean_of (data : list number) : number :=
  (sum data / num (len data))%js.

Definition variance_of (data : list number) (mean : number) : number :=
  (fold_left (fun sum val => (sum + sqr (val - mean))%js) data (num 0)
   / num (len data))%js.

Definition adaptiveThreshold (data : list number) : number :=
  let mean := mean_of data in
  let variance := variance_of data mean in
  let stdDev := Math_sqrt variance in
  let noiseFactor := min (num 1) (stdDev / num 20)%js in
  (mean + (dec 15 10 + noiseFactor) * stdDev)%js.

Definition minPeakDistance : number := num 8.

(** The test of the loop body: above the threshold and a strict maximum
    among its two neighbours on each side. *)
Definition isCandidate (data : list number) (threshold : number) (i : Z) : bool :=
  (get data i > threshold)%js &&
  (get data i > get data (i - 1))%js &&
  (get data i > get data (i - 2))%js &&
  (get data i > get data (i + 1))%js &&
  (get data i > get data (i + 2))%js.

(** [peaks.some(peakIndex => Math.abs(i - peakIndex) < minPeakDistance)]. *)
Definition tooClose (peaks : list number) (i : Z) : bool :=
  existsb (fun peakIndex => (abs (num i - peakIndex) < minPeakDistance)%js) peaks.

(** One iteration of the scanning loop. *)
Definition peakStep (data : list number) (threshold : number)
    (peaks : list number) (i : Z) : list number :=
  if isCandidate data threshold i then
    if negb (tooClose peaks i) then peaks ++ [refinePeakLocation data i]
    else peaks
  else peaks.

Definition enhancedPeakDetection (data : list number) : list number :=
  if (len data <? 10)%Z then []
  else
    fold_left (peakStep data (adaptiveThreshold data))
              (zrange 2 (len data - 2)) [].

(** [intervals.push(peaks[i] - peaks[i-1])] for [i = 1 .. peaks.length-1]. *)
Fixpoint intervals_of (peaks : list number) : list number :=
  match peaks with
  | p :: (p' :: _) as rest => (p' - p)%js :: intervals_of rest
  | _ => []
  end.

(* ================================================================= *)
(** ** Signal quality and oxygen estimation *)

Definition calculateSignalQuality (data : list number) : number :=
  if (len data <? 20)%Z then num 0
  else
    let peaks := enhancedPeakDetection data in
    if (len peaks <? 2)%Z then dec 2 10
    else
      let intervals := intervals_of peaks in
      let meanInterval := mean_of intervals in
      let intervalVariance := variance_of intervals meanInterval in
      let cv := (Math_sqrt intervalVariance / meanInterval)%js in
      let regularityScore := max (num 0) (min (num 1) (num 1 - cv)%js) in
      let signalStrength := ((max_of data - min_of data) / num 50)%js in
      let amplitudeScore := min (num 1) signalStrength in
      (dec 7 10 * regularityScore + dec 3 10 * amplitudeScore)%js.

Definition calculatePulsatilityIndex (data : list number) : number :=
  if (len data <? 5)%Z then num 0
  else
    let max := max_of data in
    let min := min_of data in
    let mean := mean_of data in
    if (mean === num 0)%js then num 0
    else ((max - min) / mean)%js.

(** [enhancedOxygenEstimation]; [None] is [null]. *)
Definition enhancedOxygenEstimation
    (redData greenData blueData : list number) : option number :=
  if ((len redData <? 30) || (len greenData <? 30) || (len blueData <? 30))%Z
  then None
  else
    let processedRed := applyAdvancedSignalProcessing (slice_last 100 redData) in
    let processedGreen := applyAdvancedSignalProcessing (slice_last 100 greenData) in
    let processedBlue := applyAdvancedSignalProcessing (slice_last 100 blueData) in
    let redPI := calculatePulsatilityIndex processedRed in
    let greenPI := calculatePulsatilityIndex processedGreen in
    let bluePI := calculatePulsatilityIndex processedBlue in
    let r1 := (redPI / greenPI)%js in
    let r2 := (redPI / bluePI)%js in
    let spO2Estimate1 := (num 110 - num 25 * r1)%js in
    let spO2Estimate2 := (num 104 - num 17 * r2)%js in
    let redQuality := calculateSignalQuality processedRed in
    let greenQuality := calculateSignalQuality processedGreen in
    let blueQuality := calculateSignalQuality processedBlue in
    let w1 := (redQuality * greenQuality)%js in
    let w2 := (redQuality * blueQuality)%js in
    let totalWeight := (w1 + w2)%js in
    if (totalWeight > num 0)%js then
      let spO2 := round ((spO2Estimate1 * w1 + spO2Estimate2 * w2) / totalWeight)%js in
      Some (min (num 100) (max (num 85) spO2))
    else Some (num 97).

End WithSqrt.

(** A concrete stand-in for [Math.sqrt]: the square root truncated to 40
    binary digits after the point. *)
Definition Qsqrt (q : Q) : Q :=
  (Z.sqrt (Qfloor (q * inject_Z (2 ^ 80))) # 2 ^ 40).

(* ================================================================= *)
(** ** Rate estimator: the Kalman filter *)

Definition MAX_HEARTRATE : number := num 220.
Definition MIN_HEARTRATE : number := num 40.
Definition CALIBRATION_TIME : number := num 5.
Definition MEASUREMENT_TIME : number := num 15.

Record FilterState : Type := mkFilterState
  { estimate : number;
    errorCovariance : number }.

(** [x || d] for a [number | null]. *)
Definition or_default (x : option number) (d : number) : number :=
  match x with
  | Some v => (v || d)%js
  | None => d
  end.

(** The [state] object that [kalmanFilterHeartRate] builds when it is
    called; [heartRate] is the component state the function reads. *)
Definition kalmanState (heartRate : option number) : FilterState :=
  {| estimate := or_default heartRate (num 75);
     errorCovariance := num 100 |}.

Definition processNoise : number := num 1.

(** Prediction and update steps, up to the two assignments to [state]. *)
Definition kalmanUpdate (state : FilterState)
    (newMeasurement uncertainty : number) : FilterState :=
  let measurementNoise := (num 100 - uncertainty)%js in
  let predictedEstimate := estimate state in
  let predictedErrorCovariance := (errorCovariance state + processNoise)%js in
  let kalmanGain :=
    (predictedErrorCovariance / (predictedErrorCovariance + measurementNoise))%js in
  let updatedEstimate :=
    (predictedEstimate + kalmanGain * (newMeasurement - predictedEstimate))%js in
  let updatedErrorCovariance := ((num 1 - kalmanGain) * predictedErrorCovariance)%js in
  {| estimate := updatedEstimate;
     errorCovariance := updatedErrorCovariance |}.

Definition kalmanFilterHeartRate (heartRate : option number)
    (newMeasurement uncertainty : number) : number :=
  round (estimate (kalmanUpdate (kalmanState heartRate) newMeasurement uncertainty)).

(** The filter with a state that lives across calls, as the specification
    describes it: the state left by one call is the state the next one
    starts from. *)
Definition persistentFilterStep (state : FilterState)
    (newMeasurement uncertainty : number) : FilterState * number :=
  let state' := kalmanUpdate state newMeasurement uncertainty in
  (state', round (estimate state')).

(** Feeding the same measurement again and again, each output becoming the
    [heartRate] the next call reads. *)
Fixpoint feedSame (n : nat) (heartRate : option number)
    (m uncertainty : number) : option number :=
  match n with
  | O => heartRate
  | S k => Some (kalmanFilterHeartRate (feedSame k heartRate m uncertainty) m uncertainty)
  end.

(* ================================================================= *)
(** ** Session controller *)

(** The component state the measurement functions read and write.  The
    reading history, the view and the clock display are left out. *)
Record AppState : Type := mkAppState
  { heartRate : option number;
    oxygenLevel : option number;
    confidence : number;
    measurements : list number;
    signal : list number;
    processedSignal : list number;
    redData : list number;
    greenData : list number;
    blueData : list number;
    isHumanDetected : bool;
    fingerprintDetected : bool;
    isMeasuring : bool;
    calibrating : bool;
    showingResults : bool }.

Definition initialState : AppState :=
  {| heartRate := None; oxygenLevel := None; confidence := num 0;
     measurements := []; signal := []; processedSignal := [];
     redData := []; greenData := []; blueData := [];
     isHumanDetected := false; fingerprintDetected := false;
     isMeasuring := false; calibrating := false; showingResults := false |}.

Definition setHeartRate (v : option number) (s : AppState) : AppState :=
  mkAppState v (oxygenLevel s) (confidence s) (measurements s) (signal s)
    (processedSignal s) (redData s) (greenData s) (blueData s)
    (isHumanDetected s) (fingerprintDetected s) (isMeasuring s)
    (calibrating s) (showingResults s).

Definition setOxygenLevel (v : option number) (s : AppState) : AppState :=
  mkAppState (heartRate s) v (confidence s) (measurements s) (signal s)
    (processedSignal s) (redData s) (greenData s) (blueData s)
    (isHumanDetected s) (fingerprintDetected s) (isMeasuring s)
    (calibrating s) (showingResults s).

Definition setConfidence (v : number) (s : AppState) : AppState :=
  mkAppState (heartRate s) (oxygenLevel s) v (measurements s) (signal s)
    (processedSignal s) (redData s) (greenData s) (blueData s)
    (isHumanDetected s) (fingerprintDetected s) (isMeasuring s)
    (calibrating s) (showingResults s).

(** [setMeasurements(f)]; a constant [f] is a plain [setMeasurements(v)]. *)
Definition setMeasurements (f : list number -> list number) (s : AppState) : AppState :=
  mkAppState (heartRate s) (oxygenLevel s) (confidence s) (f (measurements s))
    (signal s) (processedSignal s) (redData s) (greenData s) (blueData s)
    (isHumanDetected s) (fingerprintDetected s) (isMeasuring s)
    (calibrating s) (showingResults s).

Definition setSignal (f : list number -> list number) (s : AppState) : AppState :=
  mkAppState (heartRate s) (oxygenLevel s) (confidence s) (measurements s)
    (f (signal s)) (processedSignal s) (redData s) (greenData s) (blueData s)
    (isHumanDetected s) (fingerprintDetected s) (isMeasuring s)
    (calibrating s) (showingResults s).

Definition setProcessedSignal (v : list number) (s : AppState) : AppState :=
  mkAppState (heartRate s) (oxygenLevel s) (confidence s) (measurements s)
    (signal s) v (redData s) (greenData s) (blueData s)
    (isHumanDetected s) (fingerprintDetected s) (isMeasuring s)
    (calibrating s) (showingResults s).

(** The three colour histories are always written together. *)
Definition setColorData (fr fg fb : list number -> list number) (s : AppState) : AppState :=
  mkAppState (heartRate s) (oxygenLevel s) (confidence s) (measurements s)
    (signal s) (processedSignal s) (fr (redData s)) (fg (greenData s))
    (fb (blueData s)) (isHumanDetected s) (fingerprintDetected s)
    (isMeasuring s) (calibrating s) (showingResults s).

Definition setIsHumanDetected (v : bool) (s : AppState) : AppState :=
  mkAppState (heartRate s) (oxygenLevel s) (confidence s) (measurements s)
    (signal s) (processedSignal s) (redData s) (greenData s) (blueData s)
    v (fingerprintDetected s) (isMeasuring s) (calibrating s) (showingResults s).

Definition setFingerprintDetected (v : bool) (s : AppState) : AppState :=
  mkAppState (heartRate s) (oxygenLevel s) (confidence s) (measurements s)
    (signal s) (processedSignal s) (redData s) (greenData s) (blueData s)
    (isHumanDetected s) v (isMeasuring s) (calibrating s) (showingResults s).

(** [setIsMeasuring(m); setCalibrating(c)]. *)
Definition setPhase (m c : bool) (s : AppState) : AppState :=
  mkAppState (heartRate s) (oxygenLevel s) (confidence s) (measurements s)
    (signal s) (processedSignal s) (redData s) (greenData s) (blueData s)
    (isHumanDetected s) (fingerprintDetected s) m c (showingResults s).

Definition setShowingResults (v : bool) (s : AppState) : AppState :=
  mkAppState (heartRate s) (oxygenLevel s) (confidence s) (measurements s)
    (signal s) (processedSignal s) (redData s) (greenData s) (blueData s)
    (isHumanDetected s) (fingerprintDetected s) (isMeasuring s)
    (calibrating s) v.

(** [!x] for a [number | null]. *)
Definition falsy (x : option number) : bool :=
  match x with
  | Some v => negb (truthy v)
  | None => true
  end.

(** [generateSimulatedResult]; [u1] and [u2] are the two values
    [Math.random()] returns, in call order. *)
Definition simulatedHR (u : Q) : number := (num 65 + floor (Fin u * num 20))%js.
Definition simulatedO2 (u : Q) : number := (num 96 + floor (Fin u * num 3))%js.

Definition generateSimulatedResult (u1 u2 : Q) (s : AppState) : AppState :=
  let s := setHeartRate (Some (simulatedHR u1)) s in
  let s := setOxygenLevel (Some (simulatedO2 u2)) s in
  let s := setMeasurements (fun _ => [simulatedHR u1]) s in
  setShowingResults true s.

(** [averageHR] of [finishMeasurement]. *)
Definition averageHR (measurements : list number) : number :=
  let recentMeasurements := slice_last 5 measurements in
  round (sum recentMeasurements / num (len recentMeasurements))%js.

(** [finishMeasurement].  [cl] holds the component state as the function
    reads it (the values of [measurements] and [oxygenLevel] in scope);
    the setters act on the current state [s]. *)
Definition finishMeasurement (cl : AppState) (u1 u2 : Q) (s : AppState) : AppState :=
  let s := setPhase false false s in
  if (2 <=? len (measurements cl))%Z then
    let s := setHeartRate (Some (averageHR (measurements cl))) s in
    let s :=
      if falsy (oxygenLevel cl)
      then setOxygenLevel (Some (floor (Fin u1 * num 3) + num 96)%js) s
      else s in
    setShowingResults true s
  else generateSimulatedResult u1 u2 s.

Definition stopMeasurement (s : AppState) : AppState := setPhase false false s.

(** [startMeasurement] up to the start of the timer; [camera] says whether
    the video and canvas elements exist. *)
Definition startMeasurement (camera : bool) (u1 u2 : Q) (s : AppState) : AppState :=
  if negb camera then generateSimulatedResult u1 u2 s
  else
    let s := setPhase true true s in
    let s := setShowingResults false s in
    let s := setMeasurements (fun _ => []) s in
    let s := setSignal (fun _ => []) s in
    let s := setProcessedSignal [] s in
    setColorData (fun _ => []) (fun _ => []) (fun _ => []) s.

Section Tick.

Variable sqrtQ : Q -> Q.

(** [calculatedHR]: the mean inter-peak interval turned into beats per
    minute at 30 frames per second. *)
Definition calculatedHR (peaks : list number) : number :=
  let intervals := intervals_of peaks in
  let avgInterval := (sum intervals / num (len intervals))%js in
  let samplingRate := num 30 in
  round (num 60 * samplingRate / avgInterval)%js.

(** The body of [if (peaks.length >= 2)] in the timer callback. *)
Definition rateUpdate (cl : AppState) (processed peaks : list number)
    (s : AppState) : AppState :=
  let calculatedHR := calculatedHR peaks in
  if (calculatedHR >= MIN_HEARTRATE)%js && (calculatedHR <= MAX_HEARTRATE)%js then
    let filteredHR := kalmanFilterHeartRate (heartRate cl) calculatedHR (confidence cl) in
    let s := setMeasurements (fun prev => prev ++ [filteredHR]) s in
    let s := setHeartRate (Some filteredHR) s in
    let s :=
      match enhancedOxygenEstimation sqrtQ (redData cl) (greenData cl) (blueData cl) with
      | Some oxygenEstimate => setOxygenLevel (Some oxygenEstimate) s
      | None => s
      end in
    let signalQuality := calculateSignalQuality sqrtQ processed in
    let s := setConfidence (signalQuality * num 100)%js s in
    setFingerprintDetected (signalQuality > dec 5 10)%js s
  else s.

(** One run of the timer callback of [startMeasurement], from the averaged
    colours [r g b] of the frame on.  [cl] is the component state the
    callback reads; updates go to the current state [s].  [elapsed] is the
    time since the start in seconds. *)
Definition tick (cl : AppState) (r g b elapsed : number) (u1 u2 : Q)
    (s : AppState) : AppState :=
  let isProbablyHuman := verifyHumanFingerprint r g b in
  let s := setIsHumanDetected isProbablyHuman s in
  let s :=
    if isProbablyHuman then
      let s := setColorData (fun prev => prev ++ [r]) (fun prev => prev ++ [g])
                            (fun prev => prev ++ [b]) s in
      let s := setSignal (fun prev => prev ++ [g]) s in
      if (10 <? len (signal cl))%Z then
        let processed := processPPG (signal cl) in
        let s := setProcessedSignal processed s in
        let peaks := enhancedPeakDetection sqrtQ processed in
        if (2 <=? len peaks)%Z then rateUpdate cl processed peaks s else s
      else s
    else s in
  let s :=
    if calibrating cl && (elapsed >= CALIBRATION_TIME)%js
    then setPhase (isMeasuring s) false s else s in
  if (elapsed >= MEASUREMENT_TIME)%js then finishMeasurement cl u1 u2 s else s.

(** The states a component can be in: the operations above applied in any
    order, each reading any state reached before. *)
Definition unit_interval (u : Q) : Prop := 0 <= u < 1.

Inductive reachable : AppState -> Prop :=
| reach_initial : reachable initialState
| reach_start camera u1 u2 s :
    unit_interval u1 -> unit_interval u2 -> reachable s ->
    reachable (startMeasurement camera u1 u2 s)
| reach_tick cl r g b elapsed u1 u2 s :
    unit_interval u1 -> unit_interval u2 -> reachable cl -> reachable s ->
    reachable (tick cl r g b elapsed u1 u2 s)
| reach_stop s : reachable s -> reachable (stopMeasurement s)
| reach_finish cl u1 u2 s :
    unit_interval u1 -> unit_interval u2 -> reachable cl -> reachable s ->
    reachable (finishMeasurement cl u1 u2 s).

End Tick.

(* ================================================================= *)
(** ** Spacing of peak positions *)

(** [later gap p p']: both positions are finite and [p'] lies more than
    [gap] samples after [p]. *)
Definition later (gap : Q) (p p' : number) : Prop :=
  match p, p' with
  | Fin a, Fin b => a + gap < b
  | _, _ => False
  end.

(** [later_eq gap p p']: [p'] lies at least [gap] samples after [p]. *)
Definition later_eq (gap : Q) (p p' : number) : Prop :=
  match p, p' with
  | Fin a, Fin b => a + gap <= b
  | _, _ => False
  end.

(** What the scanning loop knows after the indices below [k]: accepted
    positions are finite, lie below [k], and each lies more than 7 samples
    after all earlier ones. *)
Definition scanned (k : Z) (peaks : list number) : Prop :=
  StronglySorted (later 7) peaks /\
  Forall (fun p => exists q, p = Fin q /\ q < inject_Z k) peaks.

(** The signal of the spacing counterexample: peaks at 3 and 11, the
    second one leaning to the left. *)
Definition leaningSignal : list number :=
  map num [0; 0; 0; 4; 0; 0; 0; 0; 0; 0; 3; 4; 0; 0; 0; 0; 0]%Z.

(* ================================================================= *)
(** ** Words of the normalization property *)

(** The values of a signal are all equal. *)
Definition constant (data : list number) : Prop :=
  forall x y, In x data -> In y data -> x ≈ y.

(* ================================================================= *)
(** ** The Kalman filter on rationals *)

(** The gain of a call made with confidence [c]: the covariance is 100 at
    every call, so the gain depends on [c] alone. *)
Definition gainQ (c : Q) : Q :=
  (inject_Z 100 + inject_Z 1) / (inject_Z 100 + inject_Z 1 + (inject_Z 100 + - c)).

(** The output for a finite prior estimate [p] and measurement [m]. *)
Definition smooth (c m p : Q) : Z :=
  Qfloor (p + gainQ c * (m + - p) + (1 # 2)).

(** The prior estimate read from an integer [heartRate]. *)
Definition priorZ (z : Z) : Z := if (z =? 0)%Z then 75%Z else z.

Definition stepZ (c : Q) (m z : Z) : Z :=
  smooth c (inject_Z m) (inject_Z (priorZ z)).

(* ================================================================= *)
(** ** Words of the session-end property *)

(** The last five entries of a list, or all of them if there are fewer. *)
Definition lastFive (l : list number) : list number :=
  if (length l <=? 5)%nat then l else skipn (length l - 5) l.

(** The average of a list, rounded to the nearest integer. *)
Definition roundedAverage (l : list number) : number :=
  round (sum l / num (len l))%js.

(* ================================================================= *)
(** ** Words of the signal-quality property *)

(** [clamp x lo hi]: [x] limited to the range from [lo] to [hi]. *)
Definition clamp (x lo hi : number) : number := max lo (min hi x).

Section QualityFormula.

Variable sqrtQ : Q -> Q.

(** Coefficient of variation: standard deviation over mean. *)
Definition coefficientOfVariation (l : list number) : number :=
  (Math_sqrt sqrtQ (variance_of l (mean_of l)) / mean_of l)%js.

(** The score for a signal with at least two peaks. *)
Definition qualityFormula (data : list number) : number :=
  let cv := coefficientOfVariation (intervals_of (enhancedPeakDetection sqrtQ data)) in
  (dec 7 10 * clamp (num 1 - cv) (num 0) (num 1)
   + dec 3 10 * clamp ((max_of data - min_of data) / num 50) (num 0) (num 1))%js.

End QualityFormula.

(* ================================================================= *)
(** ** Words of the rate-range property *)

(** A heart rate within the physiological range. *)
Definition plausible (x : number) : Prop :=
  exists q, x = Fin q /\ 40 <= q <= 220.

Definition plausibleRate (h : option number) : Prop :=
  match h with
  | Some x => plausible x
  | None => True
  end.

(** A confidence percentage. *)
Definition percent (x : number) : Prop :=
  exists q, x = Fin q /\ 0 <= q <= 100.

(** What holds of the stored rates in every state of the component. *)
Definition sound (s : AppState) : Prop :=
  plausibleRate (heartRate s) /\ percent (confidence s) /\
  Forall plausible (measurements s).

(** The range test of [rateUpdate]. *)
Definition inRange (x : number) : bool :=
  (x >= MIN_HEARTRATE)%js && (x <= MAX_HEARTRATE)%js.

(* ================================================================= *)
(** ** Words of the oxygen property *)

(** A colour history of [n] samples, all equal to [v]. *)
Definition steady (v : Z) (n : nat) : list number := map num (repeat v n).

(* ================================================================= *)
(** ** Words of the further properties *)

(** A finite value between [lo] and [hi]. *)
Definition within (lo hi : Q) (x : number) : Prop :=
  exists q, x = Fin q /\ lo <= q <= hi.

(** The window [removeBaselineWander] uses on a signal of [n] samples. *)
Definition baselineWindow (n : Z) : Z := Z.min 50 (n / 4).

(** The four sample buffers of a state hold the same number of samples. *)
Definition aligned (s : AppState) : Prop :=
  length (redData s) = length (signal s) /\
  length (greenData s) = length (signal s) /\
  length (blueData s) = length (signal s).

(** The stored results of a state: what the rate stage may change. *)
Definition results (s : AppState) :
    option number * option number * number * list number :=
  (heartRate s, oxygenLevel s, confidence s, measurements s).

(** The sample buffers of a state. *)
Definition buffers (s : AppState) :
    list number * list number * list number * list number :=
  (redData s, greenData s, blueData s, signal s).

(* ================================================================= *)
(** ** Health score: [calculateHealthScore] *)

(** The two parts of the score; each is the value the chain of tests
    leaves in the variable of the same name, which starts at 0. *)
Definition hrScore (heartRate : number) : number :=
  if (heartRate >= num 60)%js && (heartRate <= num 80)%js then num 50
  else if (heartRate > num 80)%js && (heartRate <= num 100)%js then num 40
  else if (heartRate >= num 40)%js && (heartRate < num 60)%js then num 40
  else if (heartRate > num 100)%js && (heartRate <= num 120)%js then num 30
  else if (heartRate < num 40)%js || (heartRate > num 120)%js then num 20
  else num 0.

Definition o2Score (oxygenLevel : number) : number :=
  if (oxygenLevel >= num 97)%js then num 50
  else if (oxygenLevel >= num 95)%js && (oxygenLevel < num 97)%js then num 45
  else if (oxygenLevel >= num 92)%js && (oxygenLevel < num 95)%js then num 35
  else if (oxygenLevel >= num 90)%js && (oxygenLevel < num 92)%js then num 25
  else if (oxygenLevel < num 90)%js then num 15
  else num 0.

Definition calculateHealthScore (heartRate oxygenLevel : number) : number :=
  (hrScore heartRate + o2Score oxygenLevel)%js.

(** The readings that get the best score. *)
Definition optimalReadings (heartRate oxygenLevel : number) : bool :=
  (heartRate >= num 60)%js && (heartRate <= num 80)%js &&
  (oxygenLevel >= num 97)%js.

(* ================================================================= *)
(** ** Heart-rate zone: [getHeartRateZone] *)

Record Baselines : Type := mkBaselines
  { restingHR : option number;
    maxHR : option number;
    minO2 : option number }.

(** The fields of the health profile the zone depends on. *)
Record HealthProfile : Type := mkHealthProfile
  { age : option number;
    baselines : option Baselines }.

(** The profile the component starts with. *)
Definition initialProfile : HealthProfile :=
  {| age := Some (num 30);
     baselines := Some {| restingHR := Some (num 68);
                          maxHR := Some (num 190);
                          minO2 := Some (num 95) |} |}.

(** [healthProfile.baselines?.maxHR || (220 - (healthProfile.age || 30))]. *)
Definition profileMaxHR (healthProfile : HealthProfile) : number :=
  or_default (match baselines healthProfile with
              | Some b => maxHR b
              | None => None
              end)
             (num 220 - or_default (age healthProfile) (num 30))%js.

Definition getHeartRateZone (healthProfile : HealthProfile)
    (hr : option number) : string :=
  match hr with
  | None => "Unknown"
  | Some hr =>
      if negb (truthy hr) then "Unknown"
      else
        let maxHR := profileMaxHR healthProfile in
        let percentage := (hr / maxHR * num 100)%js in
        if (percentage < num 50)%js then "Rest"
        else if (percentage < num 60)%js then "Very Light"
        else if (percentage < num 70)%js then "Light"
        else if (percentage < num 80)%js then "Moderate"
        else if (percentage < num 90)%js then "Hard"
        else "Maximum"
  end.

(** The zones in rising order of effort. *)
Definition zoneRank (zone : string) : nat :=
  if String.eqb zone "Rest" then 1
  else if String.eqb zone "Very Light" then 2
  else if String.eqb zone "Light" then 3
  else if String.eqb zone "Moderate" then 4
  else if String.eqb zone "Hard" then 5
  else if String.eqb zone "Maximum" then 6
  else 0.

(** The zone of a percentage of the maximum heart rate. *)
Definition zoneOf (percentage : number) : string :=
  if (percentage < num 50)%js then "Rest"
  else if (percentage < num 60)%js then "Very Light"
  else if (percentage < num 70)%js then "Light"
  else if (percentage < num 80)%js then "Moderate"
  else if (percentage < num 90)%js then "Hard"
  else "Maximum".

(* ================================================================= *)
(** ** Heart-rate variability, variation and animation *)

(** A heart rate that is a number other than 0. *)
Definition beating (x : number) : Prop := exists q, x = Fin q /\ ~ q == 0.


Section Variability.

Variable sqrtQ : Q -> Q.

(** [calculateHRV]: the root mean square of successive differences of the
    RR intervals. *)
Definition calculateHRV (heartRates : list number) : number :=
  if (len heartRates <? 2)%Z then num 0
  else
    let rrIntervals := map (fun hr => (num 60000 / hr)%js) heartRates in
    let sumSquaredDiffs :=
      fold_left (fun sumSquaredDiffs diff => (sumSquaredDiffs + diff * diff)%js)
                (intervals_of rrIntervals) (num 0) in
    Math_sqrt sqrtQ (sumSquaredDiffs / (num (len rrIntervals) - num 1))%js.

End Variability.

(** [addNaturalVariation]; [u] is the value [Math.random()] returns. *)
Definition addNaturalVariation (u : Q) (baseHeartRate : number) : number :=
  let variation := (Fin u * num 4 - num 2)%js in
  round (baseHeartRate + variation)%js.

(** [enhancedPulseAnimation]: the key frames and the timing of one beat.
    The [repeat] and [ease] settings are constants and left out. *)
Record PulseAnimation : Type := mkPulseAnimation
  { scale : list number;
    opacity : list number;
    duration : number;
    times : list number }.

Definition enhancedPulseAnimation (bpm : number) : PulseAnimation :=
  let beatDuration := (num 60 / (bpm || num 75))%js in
  {| scale := [num 1; dec 13 10; dec 115 100; num 1];
     opacity := [dec 8 10; num 1; dec 9 10; dec 8 10];
     duration := beatDuration;
     times := [num 0; dec 2 10; dec 4 10; num 1] |}.

(* ================================================================= *)
(** ** Frame sampling: the start of the timer callback *)

(** The running sums [r], [g], [b] and [pixelCount]. *)
Record ChannelSums : Type := mkChannelSums
  { sumR : Z; sumG : Z; sumB : Z; pixelCount : Z }.

(** [frame.data[i]] for an index inside the array; the entries of the pixel
    array are the integers 0..255. *)
Definition byteAt (data : list Z) (i : Z) : Z := nth (Z.to_nat i) data 0%Z.

(** The body of the inner loop at row [y] and column [x]. *)
Definition addPixel (width : Z) (data : list Z) (y : Z) (acc : ChannelSums)
    (x : Z) : ChannelSums :=
  let idx := ((y * width + x) * 4)%Z in
  if (0 <=? idx)%Z && (idx <? Z.of_nat (length data) - 3)%Z then
    {| sumR := sumR acc + byteAt data idx;
       sumG := sumG acc + byteAt data (idx + 1);
       sumB := sumB acc + byteAt data (idx + 2);
       pixelCount := pixelCount acc + 1 |}
  else acc.

(** The two loops over the centre region of a frame of [width] by [height]
    pixels. *)
Definition sampleRegion (width height : Z) (data : list Z) : ChannelSums :=
  let centerX := (width / 2)%Z in
  let centerY := (height / 2)%Z in
  let regionSize := (Z.min width height / 4)%Z in
  fold_left
    (fun acc y =>
       fold_left (addPixel width data y)
                 (zrange (centerX - regionSize) (centerX + regionSize)) acc)
    (zrange (centerY - regionSize) (centerY + regionSize))
    {| sumR := 0; sumG := 0; sumB := 0; pixelCount := 0 |}.

(** The averages [r], [g], [b] the callback passes on. *)
Definition frameMeans (width height : Z) (data : list Z)
    : number * number * number :=
  let s := sampleRegion width height data in
  ((num (sumR s) / num (pixelCount s))%js,
   (num (sumG s) / num (pixelCount s))%js,
   (num (sumB s) / num (pixelCount s))%js).

(** A pixel array: 4 bytes for each pixel of the frame. *)
Definition pixels (width height : Z) (data : list Z) : Prop :=
  Z.of_nat (length data) = (width * height * 4)%Z /\
  Forall (fun v => (0 <= v <= 255)%Z) data.

(** Sums of [pixelCount] bytes each. *)
Definition byteSums (s : ChannelSums) : Prop :=
  (0 <= pixelCount s)%Z /\
  (0 <= sumR s <= 255 * pixelCount s)%Z /\
  (0 <= sumG s <= 255 * pixelCount s)%Z /\
  (0 <= sumB s <= 255 * pixelCount s)%Z.

(* ================================================================= *)
(** ** A measurement session *)

(** What one run of the timer callback is given: the averaged colours of
    the frame and the time since the start in seconds. *)
Record Frame : Type := mkFrame
  { frameR : number; frameG : number; frameB : number; frameAt : number }.

Section Session.

Variable sqrtQ : Q -> Q.

(** A session started in the state [s0].  [startMeasurement] creates the
    timer callback once, inside the render that holds [s0]; every run of
    the callback therefore reads the values of that render ([signal],
    [measurements], [heartRate], ...), while its updates act on the current
    state.  [u1] and [u2] are the random draws of the run that finishes the
    session. *)
Definition session (s0 : AppState) (frames : list Frame) (u1 u2 : Q) : AppState :=
  fold_left
    (fun s f => tick sqrtQ s0 (frameR f) (frameG f) (frameB f) (frameAt f) u1 u2 s)
    frames (startMeasurement true u1 u2 s0).

End Session.

(** Frames of a finger on the lens: red 200, blue 10 and the given green
    value, the k-th of them at k/30 seconds. *)
Definition fingerFrames (greens : list Z) : list Frame :=
  map (fun kg => mkFrame (num 200) (num (snd kg)) (num 10)
                         (Fin (inject_Z (Z.of_nat (fst kg)) / 30)))
      (combine (List.seq 1 (length greens)) greens).

(** Seventeen green values with two beats, at positions 3 and 13. *)
Definition twoBeats : list Z :=
  [100; 100; 100; 104; 100; 100; 100; 100; 100; 100; 100; 100; 100; 104;
   100; 100; 100]%Z.

(** The frame that ends a session: 15 seconds after the start. *)
Definition closingFrame : Frame := mkFrame (num 200) (num 100) (num 10) (num 15).

(* ================================================================= *)
(** ** Double precision *)

(** The largest finite double, [Number.MAX_VALUE]. *)
Definition MAX_VALUE : Q := inject_Z ((2 ^ 53 - 1) * 2 ^ 971).

(** No two finite values of the signal are further apart than
    [Number.MAX_VALUE]: the difference [max - min] is a finite double. *)
Definition spread (data : list number) : Prop :=
  forall a b, In (Fin a) data -> In (Fin b) data -> a - b <= MAX_VALUE.

(** Every value of the signal is a finite number of magnitude at most
    [bound]. *)
Definition bounded (bound : Q) (data : list number) : Prop :=
  Forall (fun x => exists q, x = Fin q /\ Qabs q <= bound) data.

(** The functions whose result depends on the rounding of a sum or on an
    overflow, on IEEE 754 binary64 numbers with the operations of the
    machine. *)
Module F64.

Import PrimFloat.

(** An integer as a double; exact below 2^53. *)
Fixpoint of_pos (p : positive) : float :=
  match p with
  | xH => 1%float
  | xO q => (2 * of_pos q)%float
  | xI q => (2 * of_pos q + 1)%float
  end.

Definition of_Z (z : Z) : float :=
  match z with
  | Z0 => 0%float
  | Zpos p => of_pos p
  | Zneg p => (- of_pos p)%float
  end.

(** [data[i]]; [undefined] is read as [NaN]. *)
Definition get (data : list float) (i : Z) : float :=
  if (i <? 0)%Z then nan else nth (Z.to_nat i) data nan.

Definition refinePeakLocation (data : list float) (peakIndex : Z) : float :=
  if ((peakIndex <=? 0)%Z || (peakIndex >=? Z.of_nat (length data) - 1)%Z)%bool
  then of_Z peakIndex
  else
    let y1 := get data (peakIndex - 1) in
    let y2 := get data peakIndex in
    let y3 := get data (peakIndex + 1) in
    let offset := ((y1 - y3) / (2 * (y1 - 2 * y2 + y3)))%float in
    if (abs offset <? 1)%float then (of_Z peakIndex + offset)%float
    else of_Z peakIndex.

(** [Math.min(...data)] and [Math.max(...data)]: [NaN] as soon as one
    value is [NaN]. *)
Definition min_of (data : list float) : float :=
  fold_left (fun acc x => if is_nan acc then acc else if is_nan x then x
                          else if (x <? acc)%float then x else acc)
            data infinity.

Definition max_of (data : list float) : float :=
  fold_left (fun acc x => if is_nan acc then acc else if is_nan x then x
                          else if (acc <? x)%float then x else acc)
            data neg_infinity.

Definition normalizeSignal (data : list float) : list float :=
  match data with
  | [] => data
  | _ =>
      let min := min_of data in
      let max := max_of data in
      if (max =? min)%float then map (fun _ => 50%float) data
      else map (fun val => ((val - min) / (max - min) * 80 + 10)%float) data
  end.

End F64.

(* ================================================================= *)
(** * Properties *)

(** Replace an integer test of the goal whose outcome [lia] can tell. *)
Ltac settle_test :=
  match goal with
  | |- context [(?a <? ?b)%Z] =>
      first [ replace (a <? b)%Z with false by (symmetry; apply Z.ltb_ge; lia)
            | replace (a <? b)%Z with true by (symmetry; apply Z.ltb_lt; lia) ]
  | |- context [(?a <=? ?b)%Z] =>
      first [ replace (a <=? b)%Z with true by (symmetry; apply Z.leb_le; lia)
            | replace (a <=? b)%Z with false by (symmetry; apply Z.leb_gt; lia) ]
  end.

(* ================================================================= *)
(** ** Comparisons on numbers *)

Lemma Qltb_lt (a b : Q) : Qltb a b = true <-> a < b.
Proof.
  unfold Qltb. rewrite negb_true_iff. split; intro H.
  - apply Qnot_le_lt. intro L. apply Qle_bool_iff in L. congruence.
  - destruct (Qle_bool b a) eqn:E; [| reflexivity].
    apply Qle_bool_iff in E. exfalso. apply (Qlt_not_le _ _ H E).
Qed.

Lemma Qltb_ge (a b : Q) : Qltb a b = false <-> b <= a.
Proof.
  unfold Qltb. rewrite negb_false_iff. apply Qle_bool_iff.
Qed.

Lemma Qeq_bool_0 (q : Q) : Qeq_bool q 0 = Qis0 q.
Proof.
  unfold Qeq_bool, Qis0. simpl. rewrite Z.mul_1_r. reflexivity.
Qed.

Lemma Qis0_eq (a : Q) : Qis0 a = true <-> a == 0.
Proof.
  rewrite <- Qeq_bool_0. apply Qeq_bool_iff.
Qed.

Lemma Qis0_neq (a : Q) : Qis0 a = false <-> ~ a == 0.
Proof.
  rewrite <- Qis0_eq. destruct (Qis0 a); split; congruence.
Qed.

Lemma Qpos_lt (a : Q) : Qpos a = true <-> 0 < a.
Proof.
  unfold Qpos, Qlt. simpl. rewrite Z.ltb_lt, Z.mul_1_r. reflexivity.
Qed.

Lemma abs_lt_fin (x : number) (b : Q) :
  (abs x < Fin b)%js = true -> exists a, x = Fin a /\ Qabs a < b.
Proof.
  destruct x as [a | | |]; simpl; try discriminate.
  intro H. exists a. split; [reflexivity | now apply Qltb_lt].
Qed.


Lemma gt_fin_fin (a b : Q) : (Fin a > Fin b)%js = true <-> b < a.
Proof. apply Qltb_lt. Qed.

(* ================================================================= *)
(** ** Peak refinement *)

Lemma div_by_zero_not_small (x y : number) :
  (y === num 0)%js = true -> (abs (x / (num 2 * y)) < num 1)%js = false.
Proof.
  destruct y as [d | | |]; simpl; try discriminate.
  rewrite Qeq_bool_0. intro Hd.
  assert (Qis0 (inject_Z 2 * d) = true) as H0.
  { apply Qis0_eq. apply Qis0_eq in Hd. rewrite Hd. reflexivity. }
  destruct x as [a | | |]; simpl; rewrite ?H0; try reflexivity.
  - destruct (Qis0 a); [reflexivity |]. destruct (Qpos a); reflexivity.
  - unfold Qpos, Qis0 in *. simpl in *.
    destruct (Qnum d); try discriminate. reflexivity.
  - unfold Qpos, Qis0 in *. simpl in *.
    destruct (Qnum d); try discriminate. reflexivity.
Qed.

Lemma refinePeakLocation_cases (data : list number) (i : Z) :
  refinePeakLocation data i = num i \/
  exists o, Qabs o < 1 /\ refinePeakLocation data i = Fin (inject_Z i + o).
Proof.
  unfold refinePeakLocation.
  destruct ((i <=? 0)%Z || (i >=? len data - 1)%Z); [now left |].
  match goal with |- context [abs ?off] => set (offset := off) end.
  destruct (abs offset < num 1)%js eqn:E; [| now left].
  apply abs_lt_fin in E. destruct E as [o [Ho Hlt]].
  right. exists o. rewrite Ho. split; [exact Hlt | reflexivity].
Qed.

Lemma refinePeakLocation_near (data : list number) (i : Z) :
  exists q, refinePeakLocation data i = Fin q /\ Qabs (q - inject_Z i) < 1.
Proof.
  destruct (refinePeakLocation_cases data i) as [H | [o [Ho H]]]; rewrite H.
  - exists (inject_Z i). split; [reflexivity |].
    setoid_replace (inject_Z i - inject_Z i) with 0 by ring. reflexivity.
  - exists (inject_Z i + o). split; [reflexivity |].
    setoid_replace (inject_Z i + o - inject_Z i) with o by ring. exact Ho.
Qed.

(** C10 (as amended): refinePeakLocation always returns a finite value at
    most 1 away from the integer index it is given; it returns the index
    itself at position 0, at the last position, and when the parabolic
    denominator y(-1) - 2 y(0) + y(+1) is zero.  (The offset that passes the
    guard is less than 1 in magnitude; "at most 1" is what remains true
    once the sum of index and offset is rounded to a double.) *)
Theorem refinePeakLocation_total_bounded (data : list number) (i : Z) :
  (exists q, refinePeakLocation data i = Fin q /\ Qabs (q - inject_Z i) <= 1) /\
  (i = 0%Z \/ i = (len data - 1)%Z -> refinePeakLocation data i = num i) /\
  ((curvature data i === num 0)%js = true -> refinePeakLocation data i = num i).
Proof.
  split.
  { destruct (refinePeakLocation_near data i) as [q [Hq Hlt]].
    exists q. split; [exact Hq | now apply Qlt_le_weak]. }
  split.
  - intros [H | H]; unfold refinePeakLocation.
    + subst i. reflexivity.
    + replace (i >=? len data - 1)%Z with true; [now rewrite orb_true_r |].
      symmetry. apply Z.geb_le. lia.
  - intro H. unfold refinePeakLocation.
    destruct ((i <=? 0)%Z || (i >=? len data - 1)%Z); [reflexivity |].
    fold (curvature data i). rewrite (div_by_zero_not_small _ _ H). reflexivity.
Qed.

Lemma refinePeakLocation_total_bounded_witness :
  let data := map num [1; 2; 3]%Z in
  refinePeakLocation data 0 = num 0 /\
  ((curvature data 1 === num 0)%js = true /\ refinePeakLocation data 1 = num 1).
Proof.
  intro data.
  destruct (refinePeakLocation_total_bounded data 0) as [_ [Hedge _]].
  destruct (refinePeakLocation_total_bounded data 1) as [_ [_ Hflat]].
  split; [apply Hedge; now left |].
  split; [reflexivity | apply Hflat; reflexivity].
Defined.

Section DoublePrecision.

Import PrimFloat.

(** C10 as stated fails in double precision.  On the three samples
    2 - 2^-52, 1/2 - 2^-53, 0 the offset at index 1 is 1 - 2^-53, which
    passes the guard [|offset| < 1]; the sum 1 + offset lies half way
    between two doubles and is rounded to 2, exactly 1 away from the
    index. *)
Lemma refinePeakLocation_one_away :
  let data := [0x1.fffffffffffffp+0; 0x1.ffffffffffffep-2; 0]%float in
  F64.refinePeakLocation data 1 = 2%float /\
  (abs (F64.refinePeakLocation data 1 - 1) <? 1)%float = false.
Proof. vm_compute. split; reflexivity. Qed.

(** Normalization in double precision when [max - min] overflows: the
    spread of -2^1023 and 2^1023 is [Infinity], so the smallest value maps
    to 10 and the largest to [NaN]. *)
Lemma normalizeSignal_overflow :
  F64.normalizeSignal [(-0x1p1023)%float; 0x1p1023%float] = [10%float; nan].
Proof. vm_compute. reflexivity. Qed.

End DoublePrecision.

(* ================================================================= *)
(** ** Liveness classifier *)

Lemma or_one_fin (q : Q) : (Fin q || num 1)%js = blue_or_one (Fin q).
Proof.
  unfold or_else, blue_or_one, truthy. simpl. rewrite Qeq_bool_0.
  destruct (Qis0 q); reflexivity.
Qed.

(** C3: the liveness classifier is true exactly when r > g, r > b, g > b and
    r/b' > 1.3 with b' = 1 for b = 0 and b' = b otherwise; it accepts
    (200,100,50) and rejects (100,100,100) and (200,50,180). *)
Theorem verifyHumanFingerprint_rule :
  (forall r g b, verifyHumanFingerprint r g b = liveness_rule r g b) /\
  verifyHumanFingerprint (num 200) (num 100) (num 50) = true /\
  verifyHumanFingerprint (num 100) (num 100) (num 100) = false /\
  verifyHumanFingerprint (num 200) (num 50) (num 180) = false.
Proof.
  split; [| repeat split; vm_compute; reflexivity].
  intros r g b. unfold verifyHumanFingerprint, liveness_rule.
  destruct b as [q | | |].
  - rewrite or_one_fin. reflexivity.
  - reflexivity.
  - reflexivity.
  - destruct r, g; simpl; rewrite ?andb_false_r; reflexivity.
Qed.

(* ================================================================= *)
(** ** Loops *)

Lemma zrange_nil (lo hi : Z) : (hi <= lo)%Z -> zrange lo hi = [].
Proof.
  intro H. unfold zrange. replace (Z.to_nat (hi - lo)) with O by lia. reflexivity.
Qed.

Lemma zrange_cons (lo hi : Z) :
  (lo < hi)%Z -> zrange lo hi = lo :: zrange (lo + 1) hi.
Proof.
  intro H. unfold zrange.
  replace (Z.to_nat (hi - lo)) with (S (Z.to_nat (hi - (lo + 1)))) by lia.
  simpl. f_equal; [lia |].
  rewrite <- seq_shift, map_map. apply map_ext. intro k. lia.
Qed.

Lemma zrange_length (lo hi : Z) : length (zrange lo hi) = Z.to_nat (hi - lo).
Proof.
  unfold zrange. now rewrite length_map, length_seq.
Qed.

(** Invariant rule for [for (let i = lo; i < hi; i++)]. *)
Lemma fold_zrange_inv {A : Type} (P : Z -> A -> Prop) (f : A -> Z -> A)
    (hi : Z) :
  (forall i x, (i < hi)%Z -> P i x -> P (i + 1)%Z (f x i)) ->
  forall n lo a, Z.to_nat (hi - lo) = n -> (lo <= hi)%Z -> P lo a ->
  P hi (fold_left f (zrange lo hi) a).
Proof.
  intros Hstep n. induction n as [| n IH]; intros lo a Hn Hle H0.
  - rewrite zrange_nil by lia. simpl. now replace hi with lo by lia.
  - rewrite zrange_cons by lia. simpl.
    apply IH; [lia | lia |]. apply Hstep; [lia | exact H0].
Qed.

(* ================================================================= *)
(** ** Peak detector: order and spacing *)

Lemma StronglySorted_snoc {A : Type} (R : A -> A -> Prop) (l : list A) (y : A) :
  StronglySorted R l -> Forall (fun x => R x y) l -> StronglySorted R (l ++ [y]).
Proof.
  induction 1 as [| x l Hs IH Hx]; intro Hall; simpl.
  - constructor; constructor.
  - inversion Hall; subst. constructor.
    + now apply IH.
    + apply Forall_app. split; [exact Hx | now constructor].
Qed.

Lemma tooClose_false (peaks : list number) (i : Z) (q : Q) :
  tooClose peaks i = false -> In (Fin q) peaks -> 8 <= Qabs (inject_Z i - q).
Proof.
  unfold tooClose. intros H Hin.
  destruct (existsb _ peaks) eqn:E; [discriminate |].
  assert (forall x, In x peaks ->
          (abs (num i - x) < minPeakDistance)%js = false) as Hall.
  { intros x Hx. destruct (abs (num i - x) < minPeakDistance)%js eqn:F;
      [| reflexivity].
    assert (existsb (fun peakIndex =>
              (abs (num i - peakIndex) < minPeakDistance)%js) peaks = true)
      by (apply existsb_exists; eauto).
    congruence. }
  specialize (Hall _ Hin). simpl in Hall. apply Qltb_ge in Hall. exact Hall.
Qed.

Lemma peakStep_scanned (data : list number) (thr : number)
    (i : Z) (peaks : list number) :
  scanned i peaks -> scanned (i + 1) (peakStep data thr peaks i).
Proof.
  intros [Hs Hb].
  assert (scanned (i + 1) peaks) as Hkeep.
  { split; [exact Hs |]. eapply Forall_impl; [| exact Hb].
    intros p [q [Hp Hq]]. exists q. split; [exact Hp |].
    rewrite inject_Z_plus. change (inject_Z 1) with 1. lra. }
  unfold peakStep. destruct (isCandidate data thr i); [| exact Hkeep].
  destruct (tooClose peaks i) eqn:Hclose; simpl; [exact Hkeep |].
  destruct (refinePeakLocation_near data i) as [q' [Hq' Hnear]].
  rewrite Hq'. apply Qabs_Qlt_condition in Hnear.
  split.
  - apply StronglySorted_snoc; [exact Hs |].
    rewrite Forall_forall in *. intros p Hp.
    destruct (Hb p Hp) as [q [-> Hq]]. simpl.
    pose proof (tooClose_false _ _ _ Hclose Hp) as Hfar.
    rewrite Qabs_pos in Hfar by lra. lra.
  - apply Forall_app. split.
    + destruct Hkeep as [_ Hk]. exact Hk.
    + constructor; [| constructor]. exists q'. split; [reflexivity |].
      rewrite inject_Z_plus. change (inject_Z 1) with 1. lra.
Qed.

Section PeakOrder.

Variable sqrtQ : Q -> Q.

Lemma enhancedPeakDetection_scanned (data : list number) :
  (10 <= len data)%Z ->
  scanned (len data - 2) (enhancedPeakDetection sqrtQ data).
Proof.
  intro Hlen. unfold enhancedPeakDetection.
  settle_test.
  apply (fold_zrange_inv scanned) with (n := Z.to_nat (len data - 2 - 2)).
  - intros i x _. apply peakStep_scanned.
  - reflexivity.
  - lia.
  - split; constructor.
Qed.

Lemma enhancedPeakDetection_sorted (data : list number) :
  StronglySorted (later 7) (enhancedPeakDetection sqrtQ data).
Proof.
  destruct (Z.lt_ge_cases (len data) 10) as [H | H].
  - unfold enhancedPeakDetection.
    settle_test.
    constructor.
  - apply (enhancedPeakDetection_scanned data H).
Qed.

Lemma enhancedPeakDetection_finite (data : list number) :
  Forall is_fin (enhancedPeakDetection sqrtQ data).
Proof.
  destruct (Z.lt_ge_cases (len data) 10) as [H | H].
  - unfold enhancedPeakDetection.
    settle_test.
    constructor.
  - destruct (enhancedPeakDetection_scanned data H) as [_ Hb].
    eapply Forall_impl; [| exact Hb]. intros p [q [-> _]]. exact I.
Qed.

End PeakOrder.

(** C2 (as amended): for every input signal the returned peak positions are
    finite and strictly increasing, and of any two of them the later one
    lies more than 7 samples after the earlier one. *)
Theorem enhancedPeakDetection_increasing_spaced (sqrtQ : Q -> Q) (data : list number) :
  Forall is_fin (enhancedPeakDetection sqrtQ data) /\
  StronglySorted (later 0) (enhancedPeakDetection sqrtQ data) /\
  StronglySorted (later 7) (enhancedPeakDetection sqrtQ data).
Proof.
  split; [apply enhancedPeakDetection_finite |].
  split; [| apply enhancedPeakDetection_sorted].
  pose proof (enhancedPeakDetection_sorted sqrtQ data) as H.
  induction H as [| p l Hs IH Hp]; constructor; [exact IH |].
  eapply Forall_impl; [| exact Hp].
  intros p'. destruct p, p'; simpl; try tauto. lra.
Qed.

(** C2 as stated fails: on [leaningSignal] the two returned positions are
    3 and 10.7, less than 8 samples apart. *)
Lemma enhancedPeakDetection_not_8_apart :
  map canon (enhancedPeakDetection Qsqrt leaningSignal) = [num 3; dec 107 10] /\
  ~ StronglySorted (later_eq 8) (enhancedPeakDetection Qsqrt leaningSignal).
Proof.
  split; [vm_compute; reflexivity |].
  remember (enhancedPeakDetection Qsqrt leaningSignal) as peaks eqn:E.
  vm_compute in E. subst peaks. intro H.
  inversion H as [| p l _ Hall]; subst.
  inversion Hall as [| ? ? Hp _]; subst.
  vm_compute in Hp. apply Hp. reflexivity.
Qed.

(* ================================================================= *)
(** ** Minimum and maximum of a finite signal *)

Lemma is_fin_inv (x : number) : is_fin x -> exists a, x = Fin a.
Proof.
  destruct x; simpl; try contradiction. eauto.
Qed.

Lemma fold_min_fin (data : list number) (a : Q) :
  Forall is_fin data ->
  exists lo, fold_left min data (Fin a) = Fin lo /\ lo <= a /\
             (lo = a \/ In (Fin lo) data) /\
             (forall v, In (Fin v) data -> lo <= v).
Proof.
  revert a. induction data as [| x data IH]; intros a Hfin.
  - exists a. simpl. repeat split; [lra | now left | contradiction].
  - inversion Hfin as [| ? ? Hx Hrest]; subst.
    destruct (is_fin_inv x Hx) as [b ->]. simpl.
    destruct (Qltb b a) eqn:E.
    + apply Qltb_lt in E.
      destruct (IH b Hrest) as [lo [Hlo [Hle [Hin Hall]]]].
      exists lo. rewrite Hlo. repeat split; [lra | |].
      * right. destruct Hin as [-> | Hin]; [now left | now right].
      * intros v [Hv | Hv]; [injection Hv as <-; exact Hle | now apply Hall].
    + apply Qltb_ge in E.
      destruct (IH a Hrest) as [lo [Hlo [Hle [Hin Hall]]]].
      exists lo. rewrite Hlo. repeat split; [exact Hle | |].
      * destruct Hin as [-> | Hin]; [now left | right; now right].
      * intros v [Hv | Hv]; [injection Hv as <-; lra | now apply Hall].
Qed.

Lemma fold_max_fin (data : list number) (a : Q) :
  Forall is_fin data ->
  exists hi, fold_left max data (Fin a) = Fin hi /\ a <= hi /\
             (hi = a \/ In (Fin hi) data) /\
             (forall v, In (Fin v) data -> v <= hi).
Proof.
  revert a. induction data as [| x data IH]; intros a Hfin.
  - exists a. simpl. repeat split; [lra | now left | contradiction].
  - inversion Hfin as [| ? ? Hx Hrest]; subst.
    destruct (is_fin_inv x Hx) as [b ->]. simpl.
    destruct (Qltb a b) eqn:E.
    + apply Qltb_lt in E.
      destruct (IH b Hrest) as [hi [Hhi [Hle [Hin Hall]]]].
      exists hi. rewrite Hhi. repeat split; [lra | |].
      * right. destruct Hin as [-> | Hin]; [now left | now right].
      * intros v [Hv | Hv]; [injection Hv as <-; exact Hle | now apply Hall].
    + apply Qltb_ge in E.
      destruct (IH a Hrest) as [hi [Hhi [Hle [Hin Hall]]]].
      exists hi. rewrite Hhi. repeat split; [exact Hle | |].
      * destruct Hin as [-> | Hin]; [now left | right; now right].
      * intros v [Hv | Hv]; [injection Hv as <-; lra | now apply Hall].
Qed.

Lemma min_of_fin (data : list number) :
  Forall is_fin data -> data <> [] ->
  exists lo, min_of data = Fin lo /\ In (Fin lo) data /\
             (forall v, In (Fin v) data -> lo <= v).
Proof.
  intros Hfin Hne. destruct data as [| x data]; [contradiction |].
  inversion Hfin as [| ? ? Hx Hrest]; subst.
  destruct (is_fin_inv x Hx) as [a ->]. unfold min_of. simpl.
  destruct (fold_min_fin data a Hrest) as [lo [Hlo [Hle [Hin Hall]]]].
  exists lo. repeat split; [exact Hlo | |].
  - destruct Hin as [-> | Hin]; [now left | now right].
  - intros v [Hv | Hv]; [injection Hv as <-; exact Hle | now apply Hall].
Qed.

Lemma max_of_fin (data : list number) :
  Forall is_fin data -> data <> [] ->
  exists hi, max_of data = Fin hi /\ In (Fin hi) data /\
             (forall v, In (Fin v) data -> v <= hi).
Proof.
  intros Hfin Hne. destruct data as [| x data]; [contradiction |].
  inversion Hfin as [| ? ? Hx Hrest]; subst.
  destruct (is_fin_inv x Hx) as [a ->]. unfold max_of. simpl.
  destruct (fold_max_fin data a Hrest) as [hi [Hhi [Hle [Hin Hall]]]].
  exists hi. repeat split; [exact Hhi | |].
  - destruct Hin as [-> | Hin]; [now left | now right].
  - intros v [Hv | Hv]; [injection Hv as <-; exact Hle | now apply Hall].
Qed.

(* ================================================================= *)
(** ** Normalization *)

(** The rescaling of one finite value between finite bounds [lo < hi]. *)
Lemma rescale_fin (v lo hi : Q) :
  lo < hi ->
  ((Fin v - Fin lo) / (Fin hi - Fin lo) * num 80 + num 10)%js
  = Fin ((v + - lo) / (hi + - lo) * inject_Z 80 + inject_Z 10).
Proof.
  intro H. simpl.
  replace (Qis0 (hi + - lo)) with false; [reflexivity |].
  symmetry. apply Qis0_neq. lra.
Qed.

Lemma rescale_range (v lo hi : Q) :
  lo < hi -> lo <= v <= hi ->
  10 <= (v + - lo) / (hi + - lo) * inject_Z 80 + inject_Z 10 <= 90.
Proof.
  intros H [Hl Hh]. change (inject_Z 80) with 80. change (inject_Z 10) with 10.
  assert (0 <= (v + - lo) / (hi + - lo)) by (apply Qle_shift_div_l; lra).
  assert ((v + - lo) / (hi + - lo) <= 1) by (apply Qle_shift_div_r; lra).
  lra.
Qed.

Lemma rescale_lo (lo hi : Q) :
  lo < hi -> (lo + - lo) / (hi + - lo) * inject_Z 80 + inject_Z 10 == 10.
Proof.
  intro H. field. lra.
Qed.

Lemma rescale_hi (lo hi : Q) :
  lo < hi -> (hi + - lo) / (hi + - lo) * inject_Z 80 + inject_Z 10 == 90.
Proof.
  intro H. field. lra.
Qed.

Lemma normalizeSignal_length (data : list number) :
  length (normalizeSignal data) = length data.
Proof.
  unfold normalizeSignal. destruct data as [| x data]; [reflexivity |].
  destruct (_ === _)%js; apply length_map.
Qed.

Lemma normalizeSignal_constant (data : list number) :
  Forall is_fin data -> data <> [] -> constant data ->
  normalizeSignal data = map (fun _ => num 50) data.
Proof.
  intros Hfin Hne Hconst.
  destruct (min_of_fin data Hfin Hne) as [lo [Hlo [Hinlo _]]].
  destruct (max_of_fin data Hfin Hne) as [hi [Hhi [Hinhi _]]].
  unfold normalizeSignal. destruct data as [| x data]; [contradiction |].
  rewrite Hlo, Hhi. simpl JS.seq.
  replace (Qeq_bool hi lo) with true; [reflexivity |].
  symmetry. apply Qeq_bool_iff. exact (Hconst _ _ Hinhi Hinlo).
Qed.

Lemma normalizeSignal_spread (data : list number) :
  Forall is_fin data -> ~ constant data ->
  exists lo hi,
    lo < hi /\ In (Fin lo) data /\ In (Fin hi) data /\
    (forall v, In (Fin v) data -> lo <= v <= hi) /\
    normalizeSignal data =
    map (fun val => ((val - Fin lo) / (Fin hi - Fin lo) * num 80 + num 10)%js) data.
Proof.
  intros Hfin Hvar.
  assert (data <> []) as Hne.
  { intro E. apply Hvar. subst. intros x y []. }
  destruct (min_of_fin data Hfin Hne) as [lo [Hlo [Hinlo Hmin]]].
  destruct (max_of_fin data Hfin Hne) as [hi [Hhi [Hinhi Hmax]]].
  assert (lo < hi) as Hlt.
  { destruct (Qlt_le_dec lo hi) as [H | H]; [exact H | exfalso].
    apply Hvar. intros x y Hx Hy. rewrite Forall_forall in Hfin.
    destruct (is_fin_inv x (Hfin x Hx)) as [a ->].
    destruct (is_fin_inv y (Hfin y Hy)) as [b ->]. simpl.
    pose proof (Hmin a Hx). pose proof (Hmax a Hx).
    pose proof (Hmin b Hy). pose proof (Hmax b Hy). lra. }
  exists lo, hi. repeat split; auto.
  unfold normalizeSignal. destruct data as [| x data]; [contradiction |].
  rewrite Hlo, Hhi. simpl JS.seq.
  replace (Qeq_bool hi lo) with false; [reflexivity |].
  symmetry. destruct (Qeq_bool hi lo) eqn:E; [| reflexivity].
  apply Qeq_bool_iff in E. lra.
Qed.

Lemma normalizeSignal_min_max (data : list number) :
  Forall is_fin data -> ~ constant data ->
  min_of (normalizeSignal data) ≈ num 10 /\
  max_of (normalizeSignal data) ≈ num 90.
Proof.
  intros Hfin Hvar.
  destruct (normalizeSignal_spread data Hfin Hvar)
    as [lo [hi [Hlt [Hinlo [Hinhi [Hbounds Heq]]]]]].
  rewrite Heq. clear Heq.
  set (f := fun val => ((val - Fin lo) / (Fin hi - Fin lo) * num 80 + num 10)%js).
  assert (forall y, In y (map f data) ->
          exists v, In (Fin v) data /\
                    y = Fin ((v + - lo) / (hi + - lo) * inject_Z 80 + inject_Z 10))
    as Hout.
  { intros y Hy. apply in_map_iff in Hy. destruct Hy as [x [Hfx Hx]].
    rewrite Forall_forall in Hfin.
    destruct (is_fin_inv x (Hfin x Hx)) as [v ->].
    exists v. split; [exact Hx |]. rewrite <- Hfx. unfold f.
    now apply rescale_fin. }
  assert (Forall is_fin (map f data)) as Hfin'.
  { apply Forall_forall. intros y Hy. destruct (Hout y Hy) as [v [_ ->]]. exact I. }
  assert (map f data <> []) as Hne'.
  { destruct data; [contradiction | discriminate]. }
  assert (In (f (Fin lo)) (map f data)) as Hflo by now apply in_map.
  assert (In (f (Fin hi)) (map f data)) as Hfhi by now apply in_map.
  unfold f in Hflo, Hfhi. rewrite rescale_fin in Hflo, Hfhi by exact Hlt.
  split.
  - destruct (min_of_fin _ Hfin' Hne') as [m [Hm [Hinm Hminm]]].
    rewrite Hm. simpl. destruct (Hout _ Hinm) as [v [Hv Hmv]].
    injection Hmv as Hmv.
    pose proof (rescale_range v lo hi Hlt (Hbounds v Hv)) as Hr.
    pose proof (Hminm _ Hflo) as Hle. rewrite rescale_lo in Hle by exact Hlt.
    rewrite <- Hmv in Hr. change (inject_Z 10) with 10. lra.
  - destruct (max_of_fin _ Hfin' Hne') as [m [Hm [Hinm Hmaxm]]].
    rewrite Hm. simpl. destruct (Hout _ Hinm) as [v [Hv Hmv]].
    injection Hmv as Hmv.
    pose proof (rescale_range v lo hi Hlt (Hbounds v Hv)) as Hr.
    pose proof (Hmaxm _ Hfhi) as Hle. rewrite rescale_hi in Hle by exact Hlt.
    rewrite <- Hmv in Hr. change (inject_Z 90) with 90. lra.
Qed.

(** Values of magnitude at most 2^1022 are no further apart than the
    largest double. *)
Lemma small_spread (bound : Q) (data : list number) :
  bounded bound data -> bound <= inject_Z (2 ^ 1022) -> spread data.
Proof.
  intros Hb Hbound a b Ha Hb'. unfold bounded in Hb. rewrite Forall_forall in Hb.
  destruct (Hb _ Ha) as [qa [Ea Hqa]]. destruct (Hb _ Hb') as [qb [Eb Hqb]].
  injection Ea as <-. injection Eb as <-.
  assert (a <= bound) by (pose proof (Qle_Qabs a); lra).
  assert (- b <= bound).
  { pose proof (Qle_Qabs (- b)) as Hn. rewrite Qabs_opp in Hn. lra. }
  assert (inject_Z (2 ^ 1022) + inject_Z (2 ^ 1022) <= MAX_VALUE) as Hmax.
  { unfold MAX_VALUE. rewrite <- inject_Z_plus, <- Zle_Qle.
    vm_compute. discriminate. }
  lra.
Qed.

(** C4 (as amended): for every non-empty input of finite values that are
    not all equal and no further apart than the largest double, normalization
    gives an output of the same length whose minimum is 10 and maximum is
    90; for a non-empty constant input of finite values every output value
    is 50.  (The bound on the spread keeps [max - min] finite in double
    precision; the exact arithmetic of the model does not need it.) *)
Theorem normalizeSignal_range (data : list number) :
  Forall is_fin data -> data <> [] -> spread data ->
  length (normalizeSignal data) = length data /\
  (~ constant data ->
   min_of (normalizeSignal data) ≈ num 10 /\
   max_of (normalizeSignal data) ≈ num 90) /\
  (constant data -> Forall (fun v => v = num 50) (normalizeSignal data)).
Proof.
  intros Hfin Hne _. split; [apply normalizeSignal_length |]. split.
  - intro Hvar. now apply normalizeSignal_min_max.
  - intro Hconst. rewrite normalizeSignal_constant by assumption.
    apply Forall_forall. intros y Hy. apply in_map_iff in Hy.
    destruct Hy as [x [<- _]]. reflexivity.
Qed.

Lemma normalizeSignal_range_witness :
  (min_of (normalizeSignal (map num [1; 2; 3]%Z)) ≈ num 10 /\
   max_of (normalizeSignal (map num [1; 2; 3]%Z)) ≈ num 90) /\
  Forall (fun v => v = num 50) (normalizeSignal (map num [5; 5]%Z)).
Proof.
  split.
  - apply (normalizeSignal_range (map num [1; 2; 3]%Z)).
    + repeat constructor.
    + discriminate.
    + apply small_spread with (bound := 3); [| vm_compute; discriminate]. unfold bounded. cbn [map].
      repeat (apply Forall_cons;
              [eexists; split; [reflexivity | vm_compute; discriminate] |]).
      apply Forall_nil.
    + intro H. specialize (H (num 1) (num 2)). simpl in H.
      assert (1 == 2) as E by (apply H; auto). discriminate E.
  - apply (normalizeSignal_range (map num [5; 5]%Z)).
    + repeat constructor.
    + discriminate.
    + apply small_spread with (bound := 5); [| vm_compute; discriminate]. unfold bounded. cbn [map].
      repeat (apply Forall_cons;
              [eexists; split; [reflexivity | vm_compute; discriminate] |]).
      apply Forall_nil.
    + intros x y [<- | [<- | []]] [<- | [<- | []]]; reflexivity.
Defined.

(** C4 as stated fails: a signal holding [NaN] is not constant, and its
    normalization is [NaN] throughout, so the minimum is not 10. *)
Lemma normalizeSignal_not_a_number :
  [NaN; num 1] <> [] /\ ~ constant [NaN; num 1] /\
  normalizeSignal [NaN; num 1] = [NaN; NaN] /\
  ~ min_of (normalizeSignal [NaN; num 1]) ≈ num 10.
Proof.
  split; [discriminate |]. split; [| split; [reflexivity | intros []]].
  intro H. apply (H NaN (num 1)); simpl; auto.
Qed.

(* ================================================================= *)
(** ** Kalman filter *)

Lemma gainQ_bounds (c : Q) : 0 <= c <= 100 -> (1 # 2) < gainQ c /\ gainQ c <= 1.
Proof.
  intros [H0 H1]. unfold gainQ.
  change (inject_Z 100) with 100. change (inject_Z 1) with 1. split.
  - apply Qlt_shift_div_l; lra.
  - apply Qle_shift_div_r; lra.
Qed.

Lemma gain_denominator (c : Q) :
  0 <= c <= 100 -> Qis0 (inject_Z 100 + inject_Z 1 + (inject_Z 100 + - c)) = false.
Proof.
  intros [H0 H1]. apply Qis0_neq.
  change (inject_Z 100) with 100. change (inject_Z 1) with 1. lra.
Qed.

Lemma kalmanUpdate_finite (p m c : Q) :
  0 <= c <= 100 ->
  kalmanUpdate (mkFilterState (Fin p) (num 100)) (Fin m) (Fin c) =
  mkFilterState (Fin (p + gainQ c * (m + - p)))
                (Fin ((inject_Z 1 + - gainQ c) * (inject_Z 100 + inject_Z 1))).
Proof.
  intro Hc. unfold kalmanUpdate, processNoise. cbn [estimate errorCovariance].
  unfold num, ofZ. cbn [add sub neg mul div].
  rewrite (gain_denominator c Hc). reflexivity.
Qed.

Lemma kalmanFilterHeartRate_finite (h : option number) (p m c : Q) :
  0 <= c <= 100 -> or_default h (num 75) = Fin p ->
  kalmanFilterHeartRate h (Fin m) (Fin c) = ofZ (smooth c m p).
Proof.
  intros Hc Hp. unfold kalmanFilterHeartRate, kalmanState. rewrite Hp.
  rewrite kalmanUpdate_finite by exact Hc. reflexivity.
Qed.

Lemma or_default_ofZ (z : Z) :
  or_default (Some (ofZ z)) (num 75) = Fin (inject_Z (priorZ z)).
Proof.
  unfold or_default, or_else, truthy, priorZ, ofZ, Qis0. simpl.
  destruct (z =? 0)%Z; reflexivity.
Qed.

Lemma kalmanFilterHeartRate_ofZ (z m : Z) (c : Q) :
  0 <= c <= 100 ->
  kalmanFilterHeartRate (Some (ofZ z)) (ofZ m) (Fin c) = ofZ (stepZ c m z).
Proof.
  intro Hc. apply kalmanFilterHeartRate_finite; [exact Hc | apply or_default_ofZ].
Qed.

Lemma inject_Z_le (a b : Z) : (a <= b)%Z -> inject_Z a <= inject_Z b.
Proof. intro H. now rewrite <- Zle_Qle. Qed.

Lemma inject_Z_pos (n : Z) : (0 < n)%Z -> 0 < inject_Z n.
Proof. intro H. change 0 with (inject_Z 0). now rewrite <- Zlt_Qlt. Qed.

Lemma inject_Z_lt_inv (a b : Z) : inject_Z a < inject_Z b -> (a < b)%Z.
Proof. intro H. now rewrite Zlt_Qlt. Qed.

Lemma inject_Z_succ_le (a b : Z) : (a + 1 <= b)%Z -> inject_Z a + 1 <= inject_Z b.
Proof.
  intro H. apply inject_Z_le in H. now rewrite inject_Z_plus in H.
Qed.

(** An integer below a rational bound. *)
Lemma Zle_of_Qle_half (a b : Z) : inject_Z a <= inject_Z b + (1 # 2) -> (a <= b)%Z.
Proof.
  intro H. destruct (Z.le_gt_cases a b) as [L | L]; [exact L | exfalso].
  assert (b + 1 <= a)%Z as L' by lia. apply inject_Z_succ_le in L'. lra.
Qed.

Lemma scale_nonneg (K d : Q) :
  (1 # 2) < K -> K <= 1 -> 0 <= d -> (1 # 2) * d <= K * d /\ K * d <= d.
Proof.
  intros K0 K1 Hd. split.
  - apply Qmult_le_compat_r; lra.
  - setoid_replace d with (1 * d) at 2 by ring. apply Qmult_le_compat_r; lra.
Qed.

Lemma scale_nonpos (K d : Q) :
  (1 # 2) < K -> K <= 1 -> d <= 0 -> d <= K * d /\ K * d <= (1 # 2) * d.
Proof.
  intros K0 K1 Hd.
  destruct (scale_nonneg K (- d) K0 K1) as [A B]; [lra |].
  setoid_replace (K * - d) with (- (K * d)) in A by ring.
  setoid_replace (K * - d) with (- (K * d)) in B by ring.
  split; lra.
Qed.

(** The smoothed value lies between the prior and the measurement, and
    moves off the prior whenever the two differ by at least 1. *)
Lemma smooth_between (c m p : Q) :
  0 <= c <= 100 ->
  (p <= m -> p <= inject_Z (smooth c m p) + (1 # 2) /\
             inject_Z (smooth c m p) <= m + (1 # 2)) /\
  (m <= p -> m < inject_Z (smooth c m p) + (1 # 2) /\
             inject_Z (smooth c m p) <= p + (1 # 2)) /\
  (p + 1 <= m -> p + 1 < inject_Z (smooth c m p) + 1) /\
  (m + 1 <= p -> inject_Z (smooth c m p) < p).
Proof.
  intro Hc. destruct (gainQ_bounds c Hc) as [K0 K1].
  unfold smooth. set (x := p + gainQ c * (m + - p) + (1 # 2)).
  pose proof (Qfloor_le x) as Hlo. pose proof (Qlt_floor x) as Hhi.
  rewrite inject_Z_plus in Hhi. change (inject_Z 1) with 1 in Hhi.
  set (f := inject_Z (Qfloor x)) in *. clearbody f.
  unfold x in Hlo, Hhi. clear x. set (K := gainQ c) in *. clearbody K.
  pose proof (scale_nonneg K (m + - p) K0 K1) as Hpos.
  pose proof (scale_nonpos K (m + - p) K0 K1) as Hneg.
  pose proof (scale_nonpos K (m + - p + 1) K0 K1) as Hneg1.
  setoid_replace (K * (m + - p + 1)) with (K * (m + - p) + K) in Hneg1 by ring.
  set (y := K * (m + - p)) in *. clearbody y.
  split; [intro H; destruct Hpos; [lra |]; split; lra |].
  split; [intro H; destruct Hneg; [lra |]; split; lra |].
  split; intro H; [destruct Hpos | destruct Hneg1]; lra.
Qed.

Lemma smooth_int_between (c : Q) (m p : Z) :
  0 <= c <= 100 ->
  ((p < m)%Z -> (p < smooth c (inject_Z m) (inject_Z p) <= m)%Z) /\
  ((m < p)%Z -> (m <= smooth c (inject_Z m) (inject_Z p) < p)%Z) /\
  (p = m -> smooth c (inject_Z m) (inject_Z p) = m).
Proof.
  intro Hc.
  destruct (smooth_between c (inject_Z m) (inject_Z p) Hc) as [Hle [Hge [Hup Hdn]]].
  set (s := smooth c (inject_Z m) (inject_Z p)) in *.
  repeat split.
  - apply inject_Z_lt_inv. assert (p + 1 <= m)%Z as L by lia.
    apply inject_Z_succ_le in L. specialize (Hup L). lra.
  - apply Zle_of_Qle_half. assert (p <= m)%Z as L by lia. apply inject_Z_le in L.
    destruct (Hle L). lra.
  - assert (m <= p)%Z as L by lia. apply inject_Z_le in L. destruct (Hge L) as [G _].
    destruct (Z.le_gt_cases m s) as [O | O]; [exact O | exfalso].
    assert (s + 1 <= m)%Z as L' by lia. apply inject_Z_succ_le in L'. lra.
  - apply inject_Z_lt_inv. assert (m + 1 <= p)%Z as L by lia.
    apply inject_Z_succ_le in L. exact (Hdn L).
  - intros ->. assert (inject_Z m <= inject_Z m) as L by lra.
    destruct (Hle L) as [A B]. destruct (Hge L) as [C D].
    apply Z.le_antisymm.
    + apply Zle_of_Qle_half. lra.
    + destruct (Z.le_gt_cases m s) as [O | O]; [exact O | exfalso].
      assert (s + 1 <= m)%Z as L' by lia. apply inject_Z_succ_le in L'. lra.
Qed.

Section Convergence.

Variable c : Q.
Variable m : Z.
Hypothesis confidence_range : 0 <= c <= 100.
Hypothesis positive_measurement : (0 < m)%Z.

Lemma stepZ_fixed : stepZ c m m = m.
Proof.
  unfold stepZ, priorZ. replace (m =? 0)%Z with false by (symmetry; apply Z.eqb_neq; lia).
  now apply smooth_int_between.
Qed.

Lemma iter_fixed (n : nat) : Nat.iter n (stepZ c m) m = m.
Proof.
  induction n as [| n IH]; [reflexivity |]. simpl. rewrite IH. apply stepZ_fixed.
Qed.

Lemma stepZ_positive (z : Z) :
  (0 < z)%Z -> (0 < stepZ c m z)%Z /\ (z <> m -> (Z.abs (m - stepZ c m z) < Z.abs (m - z))%Z).
Proof.
  intro Hz. unfold stepZ, priorZ.
  replace (z =? 0)%Z with false by (symmetry; apply Z.eqb_neq; lia).
  destruct (smooth_int_between c m z confidence_range) as [Hup [Hdn Heq]].
  destruct (Z.lt_trichotomy z m) as [L | [E | G]].
  - specialize (Hup L). lia.
  - rewrite (Heq E). lia.
  - specialize (Hdn G). lia.
Qed.

Lemma converge_from_positive (k : nat) :
  forall z, (0 < z)%Z -> (Z.abs_nat (m - z) <= k)%nat ->
  forall n, (k <= n)%nat -> Nat.iter n (stepZ c m) z = m.
Proof.
  induction k as [| k IH]; intros z Hz Hk n Hn.
  - replace z with m by lia. apply iter_fixed.
  - destruct (Z.eq_dec z m) as [-> | Hne]; [apply iter_fixed |].
    destruct n as [| n]; [lia |]. rewrite Nat.iter_succ_r.
    destruct (stepZ_positive z Hz) as [Hpos Hdec]. specialize (Hdec Hne).
    apply IH; [exact Hpos | lia | lia].
Qed.

Lemma stepZ_nonpositive (z : Z) :
  (z <= 0)%Z -> (0 < stepZ c m z)%Z \/ (z < stepZ c m z <= 0)%Z.
Proof.
  intro Hz. unfold stepZ, priorZ. destruct (z =? 0)%Z eqn:E.
  - left. destruct (smooth_int_between c m 75 confidence_range) as [Hup [Hdn Heq]].
    destruct (Z.lt_trichotomy 75 m) as [L | [E' | G]].
    + specialize (Hup L). lia.
    + rewrite (Heq E'). lia.
    + specialize (Hdn G). lia.
  - apply Z.eqb_neq in E.
    destruct (smooth_int_between c m z confidence_range) as [Hup _].
    assert (z < m)%Z as L by lia. specialize (Hup L). lia.
Qed.

Lemma reach_positive (k : nat) :
  forall z, (z <= 0)%Z -> (Z.abs_nat z <= k)%nat ->
  exists j, (0 < Nat.iter j (stepZ c m) z)%Z.
Proof.
  induction k as [| k IH]; intros z Hz Hk.
  - exists 1%nat. simpl. destruct (stepZ_nonpositive z Hz); lia.
  - destruct (stepZ_nonpositive z Hz) as [Hpos | Hneg].
    + exists 1%nat. exact Hpos.
    + destruct (IH (stepZ c m z)) as [j Hj]; [lia | lia |].
      exists (S j). rewrite Nat.iter_succ_r. exact Hj.
Qed.

Lemma converge_from_integer (z : Z) :
  exists N, forall n, (N <= n)%nat -> Nat.iter n (stepZ c m) z = m.
Proof.
  destruct (Z.lt_ge_cases 0 z) as [Hz | Hz].
  - exists (Z.abs_nat (m - z)). intros n Hn.
    now apply (converge_from_positive (Z.abs_nat (m - z))).
  - destruct (reach_positive (Z.abs_nat z) z Hz (le_n _)) as [j Hj].
    set (z' := Nat.iter j (stepZ c m) z) in *.
    exists (Z.abs_nat (m - z') + j)%nat. intros n Hn.
    replace n with ((n - j) + j)%nat by lia. rewrite Nat.iter_add. fold z'.
    apply (converge_from_positive (Z.abs_nat (m - z'))); [exact Hj | lia | lia].
Qed.

Lemma feedSame_integer (n : nat) (z : Z) :
  feedSame n (Some (ofZ z)) (ofZ m) (Fin c) = Some (ofZ (Nat.iter n (stepZ c m) z)).
Proof.
  induction n as [| n IH]; [reflexivity |]. simpl. rewrite IH.
  now rewrite kalmanFilterHeartRate_ofZ.
Qed.

Lemma feedSame_add (n k : nat) (h : option number) (x u : number) :
  feedSame (n + k) h x u = feedSame n (feedSame k h x u) x u.
Proof.
  induction n as [| n IH]; [reflexivity |]. simpl. now rewrite IH.
Qed.

(** After one or two calls the stored heart rate is an integer, whatever
    it was before. *)
Lemma feedSame_becomes_integer (h : option number) :
  exists k z, feedSame k h (ofZ m) (Fin c) = Some (ofZ z).
Proof.
  assert (forall p, or_default h (num 75) = Fin p ->
          exists k z, feedSame k h (ofZ m) (Fin c) = Some (ofZ z)) as Hfin.
  { intros p Hp. exists 1%nat, (smooth c (inject_Z m) p). simpl.
    f_equal. now apply kalmanFilterHeartRate_finite. }
  assert (forall x, or_default h (num 75) = x -> x = PInf \/ x = NInf ->
          exists k z, feedSame k h (ofZ m) (Fin c) = Some (ofZ z)) as Hinf.
  { intros x Hx Hcase. exists 2%nat, (stepZ c m 75). simpl.
    assert (kalmanFilterHeartRate h (ofZ m) (Fin c) = NaN) as ->.
    { unfold kalmanFilterHeartRate, kalmanState, kalmanUpdate, processNoise.
      cbn [estimate errorCovariance]. rewrite Hx.
      unfold num, ofZ. cbn [add sub neg mul div].
      rewrite (gain_denominator c confidence_range).
      destruct (gainQ_bounds c confidence_range) as [K0 _]. unfold gainQ in K0.
      set (K := _ / _) in *.
      assert (Qis0 K = false) as Z0 by (apply Qis0_neq; lra).
      assert (Qpos K = true) as P0 by (apply Qpos_lt; lra).
      destruct Hcase as [-> | ->]; simpl; rewrite Z0, P0; reflexivity. }
    f_equal. apply kalmanFilterHeartRate_finite; [exact confidence_range |].
    reflexivity. }
  destruct (or_default h (num 75)) as [p | | |] eqn:E.
  - now apply (Hfin p).
  - apply (Hinf PInf); auto.
  - apply (Hinf NInf); auto.
  - exfalso. destruct h as [[q | | |] |]; simpl in E; try discriminate.
    unfold or_else in E. destruct (truthy (Fin q)); discriminate.
Qed.

Lemma feedSame_converges (h : option number) :
  exists N, forall n, (N <= n)%nat ->
  feedSame n h (ofZ m) (Fin c) = Some (ofZ m).
Proof.
  destruct (feedSame_becomes_integer h) as [k [z Hz]].
  destruct (converge_from_integer z) as [N HN].
  exists (N + k)%nat. intros n Hn.
  replace n with ((n - k) + k)%nat by lia.
  rewrite feedSame_add, Hz, feedSame_integer. rewrite HN by lia. reflexivity.
Qed.

End Convergence.

(** C5: feeding the filter the same integer measurement m again and again,
    with a constant confidence in [0,100] and each rounded output becoming
    the next prior, leads after finitely many iterations to the output m,
    which then stays m, whatever heart rate the first call reads.  A
    measurement is a value the filter is called with: the timer callback
    passes on a rate only after the test
    [MIN_HEARTRATE <= rate <= MAX_HEARTRATE]. *)
Theorem kalmanFilterHeartRate_converges (m : Z) (c : Q) (h : option number) :
  inRange (num m) = true -> 0 <= c <= 100 ->
  exists N, forall n, (N <= n)%nat ->
  feedSame n h (num m) (Fin c) = Some (num m).
Proof.
  intros Hm Hc. apply (feedSame_converges c m Hc).
  unfold inRange, MIN_HEARTRATE, num, ofZ in Hm.
  apply andb_prop in Hm. destruct Hm as [Hlo _].
  cbn [ge le] in Hlo. apply Qle_bool_iff in Hlo.
  rewrite <- Zle_Qle in Hlo. lia.
Qed.

Lemma kalmanFilterHeartRate_converges_witness :
  exists N, forall n, (N <= n)%nat ->
  feedSame n None (num 72) (Fin 50) = Some (num 72).
Proof.
  apply (kalmanFilterHeartRate_converges 72 50 None).
  - reflexivity.
  - split; discriminate.
Defined.

(** Outside that range the value 0 is special: an output of 0 is read back
    as "no heart rate yet" by [heartRate || 75], so for the measurement 0
    the estimate restarts from 75 and never settles. *)
Lemma kalmanFilterHeartRate_zero_cycles :
  ~ exists N, forall n, (N <= n)%nat ->
    feedSame n None (num 0) (Fin 0) = Some (num 0).
Proof.
  intros [N H].
  assert (forall k, feedSame (7 * k + 1) None (num 0) (Fin 0) = Some (num 37)) as Hcycle.
  { induction k as [| k IH]; [vm_compute; reflexivity |].
    replace (7 * S k + 1)%nat with (7 + (7 * k + 1))%nat by lia.
    rewrite feedSame_add, IH. vm_compute. reflexivity. }
  specialize (H (7 * N + 1)%nat). rewrite Hcycle in H.
  assert (Some (num 37) = Some (num 0)) as E by (apply H; lia).
  discriminate E.
Qed.

(** C6: the filter state is meant to persist from one accepted measurement
    to the next.  The code rebuilds it at every call: the prior error
    covariance is 100 each time, whatever the previous call computed.  From
    a heart rate of 60, two measurements of 100 at confidence 0 give 80 and
    then 90, where a filter that keeps its state gives 87 for the second. *)
Theorem kalmanFilterHeartRate_state_rebuilt :
  (forall h, errorCovariance (kalmanState h) = num 100) /\
  estimate (kalmanState None) = num 75 /\
  canon (errorCovariance
           (kalmanUpdate (kalmanState (Some (num 60))) (num 100) (num 0)))
  = dec 10100 201 /\
  kalmanFilterHeartRate (Some (num 60)) (num 100) (num 0) = num 80 /\
  kalmanFilterHeartRate (Some (num 80)) (num 100) (num 0) = num 90 /\
  snd (persistentFilterStep
         (fst (persistentFilterStep (kalmanState (Some (num 60)))
                                    (num 100) (num 0)))
         (num 100) (num 0)) = num 87.
Proof.
  split; [reflexivity |]. repeat split; vm_compute; reflexivity.
Qed.

(* ================================================================= *)
(** ** End of the session *)

Lemma slice_last_lastFive (l : list number) : slice_last 5 l = lastFive l.
Proof.
  unfold slice_last, lastFive. destruct (length l <=? 5)%nat eqn:E.
  - apply Nat.leb_le in E. replace (length l - 5)%nat with O by lia. reflexivity.
  - reflexivity.
Qed.

Lemma floor_scaled (u : Q) (n : Z) :
  (0 < n)%Z -> 0 <= u < 1 -> (0 <= Qfloor (u * inject_Z n) < n)%Z.
Proof.
  intros Hn [H0 H1].
  assert (0 < inject_Z n) as Hq by now apply inject_Z_pos.
  split.
  - change 0%Z with (Qfloor 0). apply Qfloor_resp_le.
    apply Qmult_le_0_compat; lra.
  - apply inject_Z_lt_inv. apply Qle_lt_trans with (u * inject_Z n).
    + apply Qfloor_le.
    + setoid_replace (inject_Z n) with (1 * inject_Z n) at 2 by ring.
      apply Qmult_lt_compat_r; assumption.
Qed.

(** The integer part of [u * n] is [j] exactly on [j/n <= u < (j+1)/n]. *)
Lemma floor_scaled_bucket (u : Q) (n j : Z) :
  (0 < n)%Z ->
  Qfloor (u * inject_Z n) = j <->
  inject_Z j / inject_Z n <= u /\ u < inject_Z (j + 1) / inject_Z n.
Proof.
  intro Hn.
  assert (0 < inject_Z n) as Hq by now apply inject_Z_pos.
  split.
  - intros <-. split.
    + apply Qle_shift_div_r; [exact Hq |]. apply Qfloor_le.
    + apply Qlt_shift_div_l; [exact Hq |]. apply Qlt_floor.
  - intros [Hlo Hhi].
    assert (inject_Z j <= u * inject_Z n) as A.
    { apply (Qmult_le_compat_r _ _ (inject_Z n)) in Hlo; [| lra].
      setoid_replace (inject_Z j / inject_Z n * inject_Z n) with (inject_Z j) in Hlo
        by (field; lra).
      exact Hlo. }
    assert (u * inject_Z n < inject_Z (j + 1)) as B.
    { apply (Qmult_lt_compat_r _ _ (inject_Z n)) in Hhi; [| exact Hq].
      setoid_replace (inject_Z (j + 1) / inject_Z n * inject_Z n)
        with (inject_Z (j + 1)) in Hhi by (field; lra).
      exact Hhi. }
    pose proof (Qfloor_le (u * inject_Z n)) as C.
    pose proof (Qlt_floor (u * inject_Z n)) as D.
    set (f := Qfloor (u * inject_Z n)) in *.
    assert (inject_Z f < inject_Z (j + 1)) as E by lra.
    assert (inject_Z j < inject_Z (f + 1)) as F by lra.
    apply inject_Z_lt_inv in E. apply inject_Z_lt_inv in F. lia.
Qed.

Lemma simulatedHR_value (u : Q) :
  simulatedHR u = num (65 + Qfloor (u * inject_Z 20)).
Proof.
  unfold simulatedHR, num, ofZ. simpl. unfold Qplus, inject_Z. simpl.
  rewrite Z.mul_1_r. reflexivity.
Qed.

Lemma simulatedO2_value (u : Q) :
  simulatedO2 u = num (96 + Qfloor (u * inject_Z 3)).
Proof.
  unfold simulatedO2, num, ofZ. simpl. unfold Qplus, inject_Z. simpl.
  rewrite Z.mul_1_r. reflexivity.
Qed.

(** What [finishMeasurement] does with the list it reads: with at least 2
    entries the reported heart rate is the rounded average of the last 5
    (all of them if fewer); with fewer than 2 the controller reports a
    synthesized result: a heart rate 65 + j with j the twentieth of [0,1)
    that the random draw falls in (so uniform over 65..84), and an oxygen
    level 96 + j with j the third it falls in (uniform over 96..98). *)
Lemma finishMeasurement_result (cl s : AppState) (u1 u2 : Q) :
  unit_interval u1 -> unit_interval u2 ->
  ((2 <= len (measurements cl))%Z ->
   heartRate (finishMeasurement cl u1 u2 s)
   = Some (roundedAverage (lastFive (measurements cl))) /\
   showingResults (finishMeasurement cl u1 u2 s) = true) /\
  ((len (measurements cl) < 2)%Z ->
   exists hr o2 : Z,
     heartRate (finishMeasurement cl u1 u2 s) = Some (num hr) /\
     oxygenLevel (finishMeasurement cl u1 u2 s) = Some (num o2) /\
     measurements (finishMeasurement cl u1 u2 s) = [num hr] /\
     showingResults (finishMeasurement cl u1 u2 s) = true /\
     (65 <= hr < 85)%Z /\ (96 <= o2 < 99)%Z /\
     (forall j, hr = (65 + j)%Z <->
                inject_Z j / 20 <= u1 /\ u1 < inject_Z (j + 1) / 20) /\
     (forall j, o2 = (96 + j)%Z <->
                inject_Z j / 3 <= u2 /\ u2 < inject_Z (j + 1) / 3)).
Proof.
  intros Hu1 Hu2. unfold finishMeasurement. split; intro Hlen.
  - settle_test.
    split.
    + unfold averageHR. rewrite slice_last_lastFive.
      destruct (falsy (oxygenLevel cl)); reflexivity.
    + destruct (falsy (oxygenLevel cl)); reflexivity.
  - settle_test.
    exists (65 + Qfloor (u1 * inject_Z 20))%Z, (96 + Qfloor (u2 * inject_Z 3))%Z.
    unfold generateSimulatedResult.
    cbn [heartRate oxygenLevel measurements showingResults setHeartRate
         setOxygenLevel setMeasurements setShowingResults setPhase].
    rewrite simulatedHR_value, simulatedO2_value.
    pose proof (floor_scaled u1 20 eq_refl Hu1) as B1.
    pose proof (floor_scaled u2 3 eq_refl Hu2) as B2.
    do 4 (split; [reflexivity |]). split; [lia |]. split; [lia |].
    split; intro j.
    + change 20 with (inject_Z 20).
      rewrite <- (floor_scaled_bucket u1 20 j eq_refl). split; lia.
    + change 3 with (inject_Z 3).
      rewrite <- (floor_scaled_bucket u2 3 j eq_refl). split; lia.
Qed.

Lemma finishMeasurement_result_witness :
  let two := setMeasurements (fun _ => [num 70; num 80]) initialState in
  (heartRate (finishMeasurement two (1 # 2) (1 # 2) initialState)
   = Some (roundedAverage (lastFive [num 70; num 80])) /\
   showingResults (finishMeasurement two (1 # 2) (1 # 2) initialState) = true) /\
  exists hr o2 : Z,
    heartRate (finishMeasurement initialState (1 # 2) (1 # 2) initialState)
    = Some (num hr) /\ (65 <= hr < 85)%Z /\ (96 <= o2 < 99)%Z.
Proof.
  intro two.
  assert (unit_interval (1 # 2)) as Hu by (split; [discriminate | reflexivity]).
  split.
  - apply (finishMeasurement_result two initialState (1 # 2) (1 # 2) Hu Hu).
    vm_compute. intro E. discriminate E.
  - destruct (finishMeasurement_result initialState initialState (1 # 2) (1 # 2) Hu Hu)
      as [_ H].
    destruct H as [hr [o2 [Hh [_ [_ [_ [Hr [Ho _]]]]]]]]; [reflexivity |].
    exists hr, o2. repeat split; try assumption; lia.
Defined.

(** The run of the timer callback that ends a session decides by the list
    of the render that started the session, not by the estimates accepted
    since. *)
Lemma tick_finishes (sqrtQ : Q -> Q) (cl s : AppState)
    (r g b elapsed : number) (u1 u2 : Q) :
  (elapsed >= MEASUREMENT_TIME)%js = true ->
  exists s', tick sqrtQ cl r g b elapsed u1 u2 s = finishMeasurement cl u1 u2 s'.
Proof.
  intro H. unfold tick. rewrite H. eexists. reflexivity.
Qed.

(** C9: the code breaks the claim.  The timer callback is created once, by
    [startMeasurement], and keeps reading the [measurements] of the render
    that started the session; [finishMeasurement] is called from it.  So a
    session started in a state with fewer than 2 measurements ends with the
    synthesized heart rate 65 + floor(20 u1), whatever estimates were
    accepted while it ran. *)
Theorem session_ends_synthesized (sqrtQ : Q -> Q) (s0 : AppState)
    (frames : list Frame) (last : Frame) (u1 u2 : Q) :
  (len (measurements s0) < 2)%Z ->
  (frameAt last >= MEASUREMENT_TIME)%js = true ->
  heartRate (session sqrtQ s0 (frames ++ [last]) u1 u2) = Some (simulatedHR u1) /\
  measurements (session sqrtQ s0 (frames ++ [last]) u1 u2) = [simulatedHR u1].
Proof.
  intros Hlen Hlast. unfold session. rewrite fold_left_app. cbn [fold_left].
  destruct (tick_finishes sqrtQ s0
              (fold_left
                 (fun s f => tick sqrtQ s0 (frameR f) (frameG f) (frameB f)
                                  (frameAt f) u1 u2 s)
                 frames (startMeasurement true u1 u2 s0))
              (frameR last) (frameG last) (frameB last) (frameAt last) u1 u2 Hlast)
    as [s' ->].
  unfold finishMeasurement. settle_test. split; reflexivity.
Qed.

(** A second session.  The first one, started in the initial state, is
    stopped after 17 frames; its signal holds two beats 10 samples apart.
    The second one reads that signal at every frame: each accepted frame
    yields the rate 180 and the estimate 128, so three estimates are stored
    when the closing frame comes, and the heart rate reported is 75. *)
Lemma session_ends_synthesized_witness :
  let s0 := stopMeasurement
              (session Qsqrt initialState (fingerFrames twoBeats) (1 # 2) (1 # 2)) in
  let accepted := fingerFrames [100; 100; 100]%Z in
  map canon (measurements (session Qsqrt s0 accepted (1 # 2) (1 # 2)))
  = [num 128; num 128; num 128] /\
  (heartRate (session Qsqrt s0 (accepted ++ [closingFrame]) (1 # 2) (1 # 2))
   = Some (simulatedHR (1 # 2)) /\
   measurements (session Qsqrt s0 (accepted ++ [closingFrame]) (1 # 2) (1 # 2))
   = [simulatedHR (1 # 2)]) /\
  canon (simulatedHR (1 # 2)) = num 75.
Proof.
  intros s0 accepted. split; [vm_compute; reflexivity |]. split.
  - apply (session_ends_synthesized Qsqrt s0 accepted closingFrame (1 # 2) (1 # 2)).
    + vm_compute. reflexivity.
    + vm_compute. reflexivity.
  - vm_compute. reflexivity.
Defined.


(* ================================================================= *)
(** ** Sums of numbers *)

Lemma add_fin_inv (x y : number) (s : Q) :
  (x + y)%js = Fin s -> is_fin x /\ is_fin y.
Proof.
  destruct x, y; simpl; intro H; try discriminate; split; exact I.
Qed.

Lemma fold_add_fin_inv (data : list number) (acc : number) (s : Q) :
  fold_left add data acc = Fin s -> is_fin acc /\ Forall is_fin data.
Proof.
  revert acc. induction data as [| x data IH]; intros acc H; simpl in H.
  - rewrite H. split; [exact I | constructor].
  - destruct (IH _ H) as [Hacc Hall].
    destruct (is_fin_inv _ Hacc) as [a Ha].
    destruct (add_fin_inv _ _ _ Ha) as [H1 H2].
    split; [exact H1 | now constructor].
Qed.

Lemma fold_add_NInf_inv (data : list number) (acc : number) :
  fold_left add data acc = NInf -> acc = NInf \/ In NInf data.
Proof.
  revert acc. induction data as [| x data IH]; intros acc H; simpl in H.
  - now left.
  - destruct (IH _ H) as [Hacc | Hin]; [| right; now right].
    destruct acc, x; simpl in Hacc; try discriminate; auto.
    right. now left.
Qed.

(** A [NaN] term makes an accumulated sum [NaN]. *)
Lemma fold_acc_NaN {A : Type} (g : A -> number) (data : list A) :
  fold_left (fun acc x => (acc + g x)%js) data NaN = NaN.
Proof.
  induction data as [| x data IH]; [reflexivity | exact IH].
Qed.

Lemma fold_term_NaN {A : Type} (g : A -> number) (data : list A)
    (acc : number) (x : A) :
  In x data -> g x = NaN ->
  fold_left (fun acc x => (acc + g x)%js) data acc = NaN.
Proof.
  revert acc. induction data as [| y data IH]; intros acc Hin Hg; [contradiction |].
  simpl. destruct Hin as [-> | Hin].
  - rewrite Hg. replace (acc + NaN)%js with NaN by (destruct acc; reflexivity).
    apply fold_acc_NaN.
  - now apply IH.
Qed.

(** A sum of finite terms bounded below and above. *)
Lemma fold_add_bounds (g : number -> number) (lo hi : Q) (data : list number) :
  (forall x, In x data -> exists q, g x = Fin q /\ lo <= q <= hi) ->
  forall a, exists s,
    fold_left (fun acc x => (acc + g x)%js) data (Fin a) = Fin s /\
    a + lo * inject_Z (len data) <= s <= a + hi * inject_Z (len data).
Proof.
  unfold len. induction data as [| x data IH]; intros Hg a.
  - exists a. simpl. split; [reflexivity |]. change (inject_Z 0) with 0. lra.
  - destruct (Hg x (or_introl eq_refl)) as [q [Hq Hb]].
    destruct (IH (fun y Hy => Hg y (or_intror Hy)) (a + q)) as [s [Hs Hsb]].
    exists s. simpl fold_left. rewrite Hq. split; [exact Hs |].
    replace (Z.of_nat (length (x :: data))) with (Z.of_nat (length data) + 1)%Z
      by (simpl length; lia).
    rewrite inject_Z_plus. change (inject_Z 1) with 1.
    set (n := inject_Z (Z.of_nat (length data))) in *. clearbody n. lra.
Qed.


Lemma sum_bounds (lo hi : Q) (data : list number) :
  Forall (fun x => exists q, x = Fin q /\ lo <= q <= hi) data ->
  exists s, sum data = Fin s /\
            lo * inject_Z (len data) <= s <= hi * inject_Z (len data).
Proof.
  intro H. rewrite Forall_forall in H.
  destruct (fold_add_bounds (fun x => x) lo hi data H 0) as [s [Hs Hb]].
  exists s. split; [exact Hs | lra].
Qed.

Lemma len_pos (data : list number) : data <> [] -> 0 < inject_Z (len data).
Proof.
  intro H. apply inject_Z_pos. unfold len. destruct data; [contradiction |].
  simpl length. lia.
Qed.

Lemma div_fin (a b : Q) : ~ b == 0 -> (Fin a / Fin b)%js = Fin (a / b).
Proof.
  intro H. simpl. apply Qis0_neq in H. rewrite H. reflexivity.
Qed.

(** The mean of a non-empty list of finite values within bounds. *)
Lemma mean_bounds (lo hi : Q) (data : list number) :
  data <> [] ->
  Forall (fun x => exists q, x = Fin q /\ lo <= q <= hi) data ->
  exists mu, mean_of data = Fin mu /\ lo <= mu <= hi.
Proof.
  intros Hne H. destruct (sum_bounds lo hi data H) as [s [Hs Hb]].
  pose proof (len_pos data Hne) as Hn.
  exists (s / inject_Z (len data)). unfold mean_of, num, ofZ. rewrite Hs.
  split; [apply div_fin; lra |]. split.
  - apply Qle_shift_div_l; [exact Hn | lra].
  - apply Qle_shift_div_r; [exact Hn | lra].
Qed.


Lemma Qsquare_nonneg (a : Q) : 0 <= a * a.
Proof.
  destruct (Qlt_le_dec a 0) as [H | H].
  - setoid_replace (a * a) with ((- a) * (- a)) by ring.
    apply Qmult_le_0_compat; lra.
  - apply Qmult_le_0_compat; lra.
Qed.

(** The variance of a non-empty list of finite values about a finite mean
    is finite and not negative. *)
Lemma variance_fin (data : list number) (mu : Q) :
  data <> [] -> Forall is_fin data ->
  exists v, variance_of data (Fin mu) = Fin v /\ 0 <= v.
Proof.
  intros Hne Hfin. unfold variance_of.
  set (g := fun val => sqr (val - Fin mu)%js).
  assert (forall lim, exists s,
            fold_left (fun acc x => (acc + g x)%js) data (Fin lim) = Fin s /\ lim <= s)
    as Hsum.
  { clear Hne. induction data as [| x data IH]; intro lim.
    - exists lim. split; [reflexivity | lra].
    - inversion Hfin as [| ? ? Hx Hrest]; subst.
      destruct (is_fin_inv x Hx) as [a ->].
      destruct (IH Hrest (lim + (a + - mu) * (a + - mu))) as [s [Hs Hle]].
      exists s. split; [exact Hs |].
      pose proof (Qsquare_nonneg (a + - mu)). lra. }
  destruct (Hsum 0) as [s [Hs Hle]]. pose proof (len_pos data Hne) as Hn.
  exists (s / inject_Z (len data)).
  change (num 0) with (Fin 0).
  change (fold_left (fun sum val => (sum + sqr (val - Fin mu))%js) data (Fin 0))
    with (fold_left (fun acc x => (acc + g x)%js) data (Fin 0)).
  rewrite Hs. unfold num, ofZ. split; [apply div_fin; lra |].
  apply Qle_shift_div_l; [exact Hn | lra].
Qed.

(* ================================================================= *)
(** ** The adaptive threshold and the data it accepts *)



Lemma gt_above_PInf (x y : number) : (x > PInf + y)%js = false.
Proof. destruct x, y; reflexivity. Qed.

Lemma get_fin_in (data : list number) (i : Z) (a : Q) :
  get data i = Fin a -> In (Fin a) data.
Proof.
  unfold get. destruct (i <? 0)%Z; [discriminate |]. intro H.
  destruct (nth_in_or_default (Z.to_nat i) data NaN) as [Hin | Hd].
  - now rewrite H in Hin.
  - rewrite H in Hd. discriminate.
Qed.

Section Threshold.

Variable sqrtQ : Q -> Q.


(** Nothing exceeds the threshold of a signal that holds a value that is
    not finite. *)
Lemma threshold_needs_finite (data : list number) (x : number) :
  (x > adaptiveThreshold sqrtQ data)%js = true -> Forall is_fin data.
Proof.
  unfold adaptiveThreshold, mean_of. intro H.
  destruct (sum data) as [s | | |] eqn:Es.
  - apply (fold_add_fin_inv data (Fin 0) s Es).
  - exfalso.
    assert ((PInf / num (len data))%js = PInf) as Hm.
    { unfold num, ofZ, div, len. simpl.
      destruct (length data); reflexivity. }
    rewrite Hm in H.
    rewrite gt_above_PInf in H. discriminate.
  - exfalso.
    assert ((NInf / num (len data))%js = NInf) as Hm.
    { unfold num, ofZ, div, len. simpl.
      destruct (length data); reflexivity. }
    rewrite Hm in H.
    assert (In NInf data) as Hin.
    { destruct (fold_add_NInf_inv data (Fin 0) Es); [discriminate | assumption]. }
    assert (variance_of data NInf = NaN) as Hv.
    { unfold variance_of.
      rewrite (fold_term_NaN (fun val => sqr (val - NInf)%js) data (num 0) NInf Hin eq_refl).
      reflexivity. }
    rewrite Hv in H. simpl in H. discriminate.
  - exfalso. simpl in H. discriminate.
Qed.

Lemma isCandidate_finite (data : list number) (i : Z) :
  isCandidate data (adaptiveThreshold sqrtQ data) i = true -> Forall is_fin data.
Proof.
  unfold isCandidate. intro H. repeat (apply andb_prop in H; destruct H as [H ?]).
  now apply (threshold_needs_finite data (get data i)).
Qed.

(** A candidate is a value of the signal above one of its neighbours. *)
Lemma isCandidate_spread (data : list number) (thr : number) (i : Z) :
  isCandidate data thr i = true ->
  exists a b, In (Fin a) data /\ In (Fin b) data /\ b < a \/
              ~ Forall is_fin data.
Proof.
  unfold isCandidate. intro H. repeat (apply andb_prop in H; destruct H as [H ?]).
  destruct (get data i) as [a | | |] eqn:Ea;
    destruct (get data (i - 1)) as [b | | |] eqn:Eb;
    try discriminate.
  - exists a, b. left. repeat split; eauto using get_fin_in. now apply gt_fin_fin.
  - exists 0, 0. right. intro Hf. rewrite Forall_forall in Hf.
    unfold get in Eb. destruct (i - 1 <? 0)%Z; [discriminate |].
    destruct (nth_in_or_default (Z.to_nat (i - 1)) data NaN) as [Hin | Hd].
    + rewrite Eb in Hin. apply (Hf _ Hin).
    + rewrite Eb in Hd. discriminate.
  - exists 0, 0. right. intro Hf. rewrite Forall_forall in Hf.
    unfold get in Ea. destruct (i <? 0)%Z; [discriminate |].
    destruct (nth_in_or_default (Z.to_nat i) data NaN) as [Hin | Hd].
    + rewrite Ea in Hin. apply (Hf _ Hin).
    + rewrite Ea in Hd. discriminate.
  - exists 0, 0. right. intro Hf. rewrite Forall_forall in Hf.
    unfold get in Ea. destruct (i <? 0)%Z; [discriminate |].
    destruct (nth_in_or_default (Z.to_nat i) data NaN) as [Hin | Hd].
    + rewrite Ea in Hin. apply (Hf _ Hin).
    + rewrite Ea in Hd. discriminate.
Qed.

(** The scanning loop without candidates accepts nothing. *)
Lemma scan_without_candidates (data : list number) (thr : number)
    (l : list Z) (peaks : list number) :
  (forall i, In i l -> isCandidate data thr i = false) ->
  fold_left (peakStep data thr) l peaks = peaks.
Proof.
  revert peaks. induction l as [| i l IH]; intros peaks H; [reflexivity |].
  simpl. unfold peakStep at 2. rewrite (H i (or_introl eq_refl)).
  apply IH. intros j Hj. apply H. now right.
Qed.

Lemma peaks_have_candidate (data : list number) :
  enhancedPeakDetection sqrtQ data <> [] ->
  exists i, isCandidate data (adaptiveThreshold sqrtQ data) i = true.
Proof.
  unfold enhancedPeakDetection. destruct (len data <? 10)%Z; [congruence |].
  intro H.
  destruct (existsb (isCandidate data (adaptiveThreshold sqrtQ data))
                    (zrange 2 (len data - 2))) eqn:E.
  - apply existsb_exists in E. destruct E as [i [_ Hi]]. now exists i.
  - exfalso. apply H. apply scan_without_candidates. intros i Hi.
    destruct (isCandidate data (adaptiveThreshold sqrtQ data) i) eqn:F;
      [| reflexivity].
    assert (existsb (isCandidate data (adaptiveThreshold sqrtQ data))
                    (zrange 2 (len data - 2)) = true)
      by (apply existsb_exists; eauto).
    congruence.
Qed.

(** A signal with a peak is finite throughout and is not flat. *)
Lemma peaks_need_spread (data : list number) :
  enhancedPeakDetection sqrtQ data <> [] ->
  Forall is_fin data /\
  exists lo hi, min_of data = Fin lo /\ max_of data = Fin hi /\ lo < hi.
Proof.
  intro H. destruct (peaks_have_candidate data H) as [i Hi].
  pose proof (isCandidate_finite data i Hi) as Hfin. split; [exact Hfin |].
  destruct (isCandidate_spread data _ i Hi) as [a [b [[Ha [Hb Hlt]] | Hno]]];
    [| contradiction].
  assert (data <> []) as Hne by (intros ->; contradiction).
  destruct (min_of_fin data Hfin Hne) as [lo [Hlo [_ Hmin]]].
  destruct (max_of_fin data Hfin Hne) as [hi [Hhi [_ Hmax]]].
  exists lo, hi. repeat split; [exact Hlo | exact Hhi |].
  pose proof (Hmin b Hb). pose proof (Hmax a Ha). lra.
Qed.

End Threshold.

(* ================================================================= *)
(** ** Signal quality *)

Lemma intervals_of_length (peaks : list number) :
  length (intervals_of peaks) = (length peaks - 1)%nat.
Proof.
  induction peaks as [| p [| p' rest] IH]; try reflexivity.
  change (intervals_of (p :: p' :: rest))
    with ((p' - p)%js :: intervals_of (p' :: rest)).
  simpl length in *. rewrite IH. lia.
Qed.

Lemma intervals_of_spaced (gap : Q) (peaks : list number) :
  StronglySorted (later gap) peaks ->
  Forall (fun x => exists q, x = Fin q /\ gap <= q) (intervals_of peaks).
Proof.
  induction peaks as [| p [| p' rest] IH]; intro Hs; try constructor.
  - inversion Hs as [| ? ? _ Hall]; subst. inversion Hall as [| ? ? Hpp _]; subst.
    destruct p as [a | | |], p' as [b | | |]; simpl in Hpp; try contradiction.
    exists (b + - a). split; [reflexivity | lra].
  - apply IH. now inversion Hs.
Qed.

Lemma bounded_above (lo : Q) (l : list number) :
  Forall (fun x => exists q, x = Fin q /\ lo <= q) l ->
  exists hi, Forall (fun x => exists q, x = Fin q /\ lo <= q <= hi) l.
Proof.
  induction 1 as [| x l [q [-> Hq]] _ [hi IH]].
  - exists lo. constructor.
  - destruct (Qlt_le_dec hi q) as [H | H].
    + exists q. constructor; [exists q; split; [reflexivity | lra] |].
      eapply Forall_impl; [| exact IH]. intros y [r [-> Hr]].
      exists r. split; [reflexivity | lra].
    + exists hi. constructor; [exists q; split; [reflexivity | lra] | exact IH].
Qed.

Lemma min_one_fin (q : Q) :
  min (num 1) (Fin q) = if Qltb q 1 then Fin q else num 1.
Proof. reflexivity. Qed.

Lemma clamp_unit_fin (q : Q) :
  exists r, clamp (Fin q) (num 0) (num 1) = Fin r /\ 0 <= r <= 1.
Proof.
  unfold clamp. rewrite min_one_fin. destruct (Qltb q 1) eqn:E.
  - apply Qltb_lt in E. simpl. destruct (Qltb (inject_Z 0) q) eqn:F.
    + apply Qltb_lt in F. exists q. change (inject_Z 0) with 0 in F.
      split; [reflexivity | lra].
    + exists 0. split; [reflexivity | lra].
  - exists 1. split; [reflexivity | lra].
Qed.

Lemma clamp_unit_positive (q : Q) :
  0 < q ->
  clamp (Fin q) (num 0) (num 1) = min (num 1) (Fin q) /\
  exists a, min (num 1) (Fin q) = Fin a /\ 0 < a <= 1.
Proof.
  intro H. unfold clamp. rewrite min_one_fin. destruct (Qltb q 1) eqn:E.
  - apply Qltb_lt in E. simpl.
    replace (Qltb (inject_Z 0) q) with true by (symmetry; now apply Qltb_lt).
    split; [reflexivity |]. exists q. split; [reflexivity | lra].
  - split; [reflexivity |]. exists 1. split; [reflexivity | lra].
Qed.

Section Quality.

Variable sqrtQ : Q -> Q.

(** The coefficient of variation of the intervals between at least two
    detected peaks is a finite number. *)
Lemma intervals_cv_finite (data : list number) :
  (2 <= len (enhancedPeakDetection sqrtQ data))%Z ->
  exists cv, coefficientOfVariation sqrtQ
               (intervals_of (enhancedPeakDetection sqrtQ data)) = Fin cv.
Proof.
  intro Hlen. set (peaks := enhancedPeakDetection sqrtQ data) in *.
  pose proof (enhancedPeakDetection_sorted sqrtQ data) as Hs. fold peaks in Hs.
  pose proof (intervals_of_spaced 7 peaks Hs) as Hiv.
  assert (intervals_of peaks <> []) as Hne.
  { intro E. pose proof (intervals_of_length peaks) as L. rewrite E in L.
    unfold len in Hlen. simpl in L. lia. }
  destruct (bounded_above 7 _ Hiv) as [hi Hb].
  destruct (mean_bounds 7 hi _ Hne Hb) as [mu [Hmu Hmub]].
  assert (Forall is_fin (intervals_of peaks)) as Hfin.
  { eapply Forall_impl; [| exact Hiv]. intros x [q [-> _]]. exact I. }
  destruct (variance_fin _ mu Hne Hfin) as [v [Hv Hv0]].
  unfold coefficientOfVariation. rewrite Hmu, Hv. simpl Math_sqrt.
  replace (Qltb v 0) with false by (symmetry; now apply Qltb_ge).
  exists (sqrtQ v / mu). apply div_fin. lra.
Qed.

Lemma calculateSignalQuality_formula (data : list number) :
  calculateSignalQuality sqrtQ data =
  if (len data <? 20)%Z then num 0
  else if (len (enhancedPeakDetection sqrtQ data) <? 2)%Z then dec 2 10
       else qualityFormula sqrtQ data.
Proof.
  unfold calculateSignalQuality. destruct (len data <? 20)%Z; [reflexivity |].
  destruct (len (enhancedPeakDetection sqrtQ data) <? 2)%Z eqn:E; [reflexivity |].
  apply Z.ltb_ge in E.
  assert (enhancedPeakDetection sqrtQ data <> []) as Hne.
  { intro F. rewrite F in E. unfold len in E. simpl in E. lia. }
  destruct (peaks_need_spread sqrtQ data Hne) as [_ [lo [hi [Hlo [Hhi Hlt]]]]].
  unfold qualityFormula. fold (coefficientOfVariation sqrtQ
    (intervals_of (enhancedPeakDetection sqrtQ data))).
  rewrite Hlo, Hhi.
  assert ((Fin hi - Fin lo) / num 50 = Fin ((hi + - lo) / inject_Z 50))%js as ->
    by reflexivity.
  assert (0 < (hi + - lo) / inject_Z 50) as Hpos
    by (apply Qlt_shift_div_l; [reflexivity | lra]).
  destruct (clamp_unit_positive _ Hpos) as [-> _]. reflexivity.
Qed.

Lemma qualityFormula_range (data : list number) :
  (2 <= len (enhancedPeakDetection sqrtQ data))%Z ->
  exists q, qualityFormula sqrtQ data = Fin q /\ 0 <= q <= 1.
Proof.
  intro Hlen.
  assert (enhancedPeakDetection sqrtQ data <> []) as Hne.
  { intro F. rewrite F in Hlen. unfold len in Hlen. simpl in Hlen. lia. }
  destruct (peaks_need_spread sqrtQ data Hne) as [_ [lo [hi [Hlo [Hhi Hlt]]]]].
  destruct (intervals_cv_finite data Hlen) as [cv Hcv].
  unfold qualityFormula. rewrite Hcv, Hlo, Hhi.
  assert ((num 1 - Fin cv)%js = Fin (inject_Z 1 + - cv)) as -> by reflexivity.
  assert ((Fin hi - Fin lo) / num 50 = Fin ((hi + - lo) / inject_Z 50))%js as ->
    by reflexivity.
  destruct (clamp_unit_fin (inject_Z 1 + - cv)) as [r [-> Hr]].
  destruct (clamp_unit_fin ((hi + - lo) / inject_Z 50)) as [a [-> Ha]].
  exists ((7 # 10) * r + (3 # 10) * a). split; [reflexivity | lra].
Qed.

Lemma calculateSignalQuality_unit (data : list number) :
  exists q, calculateSignalQuality sqrtQ data = Fin q /\ 0 <= q <= 1.
Proof.
  rewrite calculateSignalQuality_formula.
  destruct (len data <? 20)%Z; [exists 0; split; [reflexivity | lra] |].
  destruct (len (enhancedPeakDetection sqrtQ data) <? 2)%Z eqn:E.
  - exists (2 # 10). split; [reflexivity | lra].
  - apply Z.ltb_ge in E. now apply qualityFormula_range.
Qed.

End Quality.

(** C8: the signal quality is 0 for fewer than 20 samples, 0.2 when fewer
    than 2 peaks are found, and otherwise
    0.7*clamp(1 - CV, 0, 1) + 0.3*clamp((max-min)/50, 0, 1) with CV the
    coefficient of variation of the inter-peak intervals; in every case it
    lies in [0,1]. *)
Theorem calculateSignalQuality_score (sqrtQ : Q -> Q) (data : list number) :
  calculateSignalQuality sqrtQ data =
    (if (len data <? 20)%Z then num 0
     else if (len (enhancedPeakDetection sqrtQ data) <? 2)%Z then dec 2 10
          else qualityFormula sqrtQ data) /\
  exists q, calculateSignalQuality sqrtQ data = Fin q /\ 0 <= q <= 1.
Proof.
  split; [apply calculateSignalQuality_formula | apply calculateSignalQuality_unit].
Qed.

(* ================================================================= *)
(** ** Stored heart rates *)

Lemma inRange_plausible (x : number) : inRange x = true -> plausible x.
Proof.
  unfold inRange. intro H. apply andb_prop in H. destruct H as [Hlo Hhi].
  destruct x as [q | | |]; try discriminate.
  exists q. split; [reflexivity |].
  simpl in Hlo, Hhi. apply Qle_bool_iff in Hlo. apply Qle_bool_iff in Hhi.
  change (inject_Z 40) with 40 in Hlo. change (inject_Z 220) with 220 in Hhi.
  split; assumption.
Qed.

Lemma plausible_prior (h : option number) :
  plausibleRate h -> exists p, or_default h (num 75) = Fin p /\ 40 <= p <= 220.
Proof.
  destruct h as [x |]; simpl.
  - intros [q [-> Hq]]. exists q. split; [| exact Hq].
    unfold or_else, truthy.
    replace (Qis0 q) with false; [reflexivity |].
    symmetry. apply Qis0_neq. lra.
  - intros _. exists (inject_Z 75). split; [reflexivity |].
    change (inject_Z 75) with 75. lra.
Qed.

Lemma plausible_integer (z : Z) :
  40 <= inject_Z z + (1 # 2) -> inject_Z z <= 220 + (1 # 2) -> plausible (ofZ z).
Proof.
  intros Hlo Hhi. exists (inject_Z z). split; [reflexivity |]. split.
  - change 40 with (inject_Z 40). apply inject_Z_le.
    apply Zle_of_Qle_half. exact Hlo.
  - change 220 with (inject_Z 220). apply inject_Z_le.
    apply Zle_of_Qle_half. exact Hhi.
Qed.

Lemma kalmanFilterHeartRate_plausible (h : option number) (m c : number) :
  plausibleRate h -> plausible m -> percent c ->
  plausible (kalmanFilterHeartRate h m c).
Proof.
  intros Hh [qm [-> Hm]] [qc [-> Hc]].
  destruct (plausible_prior h Hh) as [p [Hp Hpr]].
  rewrite (kalmanFilterHeartRate_finite h p qm qc Hc Hp).
  destruct (smooth_between qc qm p Hc) as [Hup [Hdn _]].
  apply plausible_integer.
  - destruct (Qlt_le_dec qm p) as [L | L].
    + destruct Hdn; lra.
    + destruct Hup; lra.
  - destruct (Qlt_le_dec qm p) as [L | L].
    + destruct Hdn; lra.
    + destruct Hup; lra.
Qed.

Lemma round_plausible (mu : Q) : 40 <= mu <= 220 -> plausible (round (Fin mu)).
Proof.
  intros [Hlo Hhi]. unfold round. apply plausible_integer.
  - pose proof (Qlt_floor (mu + (1 # 2))) as H.
    rewrite inject_Z_plus in H. change (inject_Z 1) with 1 in H. lra.
  - pose proof (Qfloor_le (mu + (1 # 2))). lra.
Qed.

Lemma Forall_skipn_keep {A : Type} (P : A -> Prop) (n : nat) (l : list A) :
  Forall P l -> Forall P (skipn n l).
Proof.
  intro H. rewrite <- (firstn_skipn n l) in H.
  apply Forall_app in H. tauto.
Qed.

Lemma averageHR_plausible (l : list number) :
  (2 <= len l)%Z -> Forall plausible l -> plausible (averageHR l).
Proof.
  intros Hlen Hall. unfold averageHR.
  assert (slice_last 5 l <> []) as Hne.
  { intro E. apply (f_equal (@length number)) in E.
    unfold slice_last in E. rewrite length_skipn in E.
    unfold len in Hlen. simpl in E. lia. }
  assert (Forall plausible (slice_last 5 l)) as Hs
    by now apply Forall_skipn_keep.
  destruct (mean_bounds 40 220 _ Hne Hs) as [mu [Hmu Hb]].
  unfold mean_of in Hmu. rewrite Hmu. now apply round_plausible.
Qed.

Lemma simulatedHR_plausible (u : Q) : unit_interval u -> plausible (simulatedHR u).
Proof.
  intro Hu. rewrite simulatedHR_value.
  pose proof (floor_scaled u 20 eq_refl Hu) as H.
  exists (inject_Z (65 + Qfloor (u * inject_Z 20))). split; [reflexivity |].
  split.
  - change 40 with (inject_Z 40). apply inject_Z_le. lia.
  - change 220 with (inject_Z 220). apply inject_Z_le. lia.
Qed.

Lemma generateSimulatedResult_sound (u1 u2 : Q) (s : AppState) :
  unit_interval u1 -> sound s -> sound (generateSimulatedResult u1 u2 s).
Proof.
  intros Hu [_ [Hc _]]. pose proof (simulatedHR_plausible u1 Hu) as Hp.
  repeat split; simpl; [exact Hp | exact Hc | now constructor].
Qed.

Lemma finishMeasurement_sound (cl s : AppState) (u1 u2 : Q) :
  unit_interval u1 -> sound cl -> sound s -> sound (finishMeasurement cl u1 u2 s).
Proof.
  intros Hu [_ [_ Hcl]] [Hh [Hc Hm]]. unfold finishMeasurement.
  destruct (2 <=? len (measurements cl))%Z eqn:E.
  - apply Z.leb_le in E. pose proof (averageHR_plausible _ E Hcl) as Hp.
    destruct (falsy (oxygenLevel cl)); repeat split; simpl; assumption.
  - apply generateSimulatedResult_sound; [exact Hu |].
    repeat split; simpl; assumption.
Qed.

Lemma startMeasurement_sound (camera : bool) (u1 u2 : Q) (s : AppState) :
  unit_interval u1 -> sound s -> sound (startMeasurement camera u1 u2 s).
Proof.
  intros Hu Hs. unfold startMeasurement. destruct camera; simpl.
  - destruct Hs as [Hh [Hc _]]. repeat split; simpl; try assumption. constructor.
  - now apply generateSimulatedResult_sound.
Qed.

Section StoredRates.

Variable sqrtQ : Q -> Q.

(** What [rateUpdate] does to the stored rates: nothing, or one plausible
    value appended to [measurements] and set as [heartRate]. *)
Lemma rateUpdate_stores (cl s : AppState) (processed peaks : list number) :
  sound cl ->
  (inRange (calculatedHR peaks) = false /\ rateUpdate sqrtQ cl processed peaks s = s) \/
  (inRange (calculatedHR peaks) = true /\
   exists v, plausible v /\
     measurements (rateUpdate sqrtQ cl processed peaks s) = measurements s ++ [v] /\
     heartRate (rateUpdate sqrtQ cl processed peaks s) = Some v /\
     percent (confidence (rateUpdate sqrtQ cl processed peaks s))).
Proof.
  intros [Hh [Hc _]]. unfold rateUpdate. fold (inRange (calculatedHR peaks)).
  destruct (inRange (calculatedHR peaks)) eqn:E; [right | left; now split].
  split; [reflexivity |].
  exists (kalmanFilterHeartRate (heartRate cl) (calculatedHR peaks) (confidence cl)).
  split.
  { apply kalmanFilterHeartRate_plausible; auto using inRange_plausible. }
  destruct (calculateSignalQuality_unit sqrtQ processed) as [q [Hq Hqb]].
  assert (percent (calculateSignalQuality sqrtQ processed * num 100)%js) as Hp.
  { rewrite Hq. exists (q * inject_Z 100). split; [reflexivity |].
    change (inject_Z 100) with 100. lra. }
  destruct (enhancedOxygenEstimation sqrtQ (redData cl) (greenData cl) (blueData cl));
    simpl; repeat split; exact Hp.
Qed.

Lemma rateUpdate_sound (cl s : AppState) (processed peaks : list number) :
  sound cl -> sound s -> sound (rateUpdate sqrtQ cl processed peaks s).
Proof.
  intros Hcl [Hh [Hc Hm]].
  destruct (rateUpdate_stores cl s processed peaks Hcl)
    as [[_ ->] | [_ [v [Hv [Hms [Hhr Hcf]]]]]].
  - repeat split; assumption.
  - repeat split.
    + rewrite Hhr. exact Hv.
    + exact Hcf.
    + rewrite Hms. apply Forall_app. split; [exact Hm | now constructor].
Qed.

Lemma tick_sound (cl s : AppState) (r g b elapsed : number) (u1 u2 : Q) :
  unit_interval u1 -> sound cl -> sound s ->
  sound (tick sqrtQ cl r g b elapsed u1 u2 s).
Proof.
  intros Hu Hcl Hs. unfold tick.
  set (s1 := if verifyHumanFingerprint r g b then _ else _).
  assert (sound s1) as H1.
  { unfold s1. destruct (verifyHumanFingerprint r g b).
    - destruct (10 <? len (signal cl))%Z.
      + destruct (2 <=? len _)%Z.
        * apply rateUpdate_sound; [exact Hcl |]. exact Hs.
        * exact Hs.
      + exact Hs.
    - exact Hs. }
  set (s2 := if calibrating cl && _ then _ else s1).
  assert (sound s2) as H2.
  { unfold s2. destruct (calibrating cl && _); [exact H1 | exact H1]. }
  destruct (elapsed >= MEASUREMENT_TIME)%js; [| exact H2].
  now apply finishMeasurement_sound.
Qed.

Lemma reachable_sound (s : AppState) : reachable sqrtQ s -> sound s.
Proof.
  induction 1.
  - repeat split; simpl; [exists 0; split; [reflexivity | lra] | constructor].
  - now apply startMeasurement_sound.
  - now apply tick_sound.
  - exact IHreachable.
  - now apply finishMeasurement_sound.
Qed.

End StoredRates.

(** C1: in every state the component can reach, each stored heart rate (the
    entries of [measurements] and the displayed [heartRate]) lies in
    [40,220]; a value the rate estimator accepts is appended to
    [measurements] and set as [heartRate] and lies in that range; a computed
    BPM outside [40,220] leaves the state as it was. *)
Theorem stored_rates_plausible (sqrtQ : Q -> Q) :
  (forall s, reachable sqrtQ s ->
     Forall plausible (measurements s) /\ plausibleRate (heartRate s)) /\
  (forall cl s processed peaks, reachable sqrtQ cl ->
     inRange (calculatedHR peaks) = true ->
     exists v, plausible v /\
       measurements (rateUpdate sqrtQ cl processed peaks s) = measurements s ++ [v] /\
       heartRate (rateUpdate sqrtQ cl processed peaks s) = Some v) /\
  (forall cl s processed peaks,
     inRange (calculatedHR peaks) = false ->
     rateUpdate sqrtQ cl processed peaks s = s).
Proof.
  split; [| split].
  - intros s Hs. destruct (reachable_sound sqrtQ s Hs) as [Hh [_ Hm]]. now split.
  - intros cl s processed peaks Hcl Hin.
    destruct (rateUpdate_stores sqrtQ cl s processed peaks (reachable_sound sqrtQ cl Hcl))
      as [[E _] | [_ [v [Hv [Hms [Hhr _]]]]]]; [congruence |].
    exists v. repeat split; assumption.
  - intros cl s processed peaks Hout. unfold rateUpdate.
    fold (inRange (calculatedHR peaks)). now rewrite Hout.
Qed.

Lemma stored_rates_plausible_witness :
  let s := finishMeasurement initialState (1 # 2) (1 # 2) initialState in
  (reachable Qsqrt s /\ Forall plausible (measurements s) /\
   plausibleRate (heartRate s)) /\
  (inRange (calculatedHR [num 0; num 25]) = true /\
   exists v, plausible v /\
     measurements (rateUpdate Qsqrt initialState [] [num 0; num 25] initialState)
     = measurements initialState ++ [v] /\
     heartRate (rateUpdate Qsqrt initialState [] [num 0; num 25] initialState)
     = Some v) /\
  (inRange (calculatedHR [num 0; num 100]) = false /\
   rateUpdate Qsqrt initialState [] [num 0; num 100] initialState = initialState).
Proof.
  intro s.
  assert (unit_interval (1 # 2)) as Hu by (split; [discriminate | reflexivity]).
  assert (reachable Qsqrt s) as Hs
    by (apply reach_finish; auto using reach_initial).
  destruct (stored_rates_plausible Qsqrt) as [Hall [Hin Hout]].
  split; [| split].
  - split; [exact Hs | exact (Hall s Hs)].
  - split; [reflexivity |].
    apply (Hin initialState initialState [] [num 0; num 25] (reach_initial Qsqrt)).
    reflexivity.
  - split; [reflexivity |].
    apply (Hout initialState initialState [] [num 0; num 100]). reflexivity.
Defined.


(* ================================================================= *)
(** ** Conditioning a window of 100 samples *)

Lemma zrange_in (lo hi i : Z) : In i (zrange lo hi) -> (lo <= i < hi)%Z.
Proof.
  unfold zrange. intro H. apply in_map_iff in H. destruct H as [k [<- Hk]].
  apply in_seq in Hk. lia.
Qed.

Lemma applySavitzkyGolayFilter_length (data : list number) (w o : Z) :
  length (applySavitzkyGolayFilter data w o) = length data.
Proof.
  unfold applySavitzkyGolayFilter. rewrite length_map, zrange_length.
  unfold len. lia.
Qed.

Lemma slice_last_length (n : nat) (data : list number) :
  (n <= length data)%nat -> length (slice_last n data) = n.
Proof.
  intro H. unfold slice_last. rewrite length_skipn. lia.
Qed.

Lemma update_length (l : list number) (i : nat) (v : number) :
  length (update l i v) = length l.
Proof.
  revert i. induction l as [| x l IH]; intros [| i]; simpl; auto.
Qed.

Lemma update_nth_same (l : list number) (i : nat) (v : number) :
  (i < length l)%nat -> nth i (update l i v) NaN = v.
Proof.
  revert i. induction l as [| x l IH]; intros [| i] H; simpl in *; try lia.
  - reflexivity.
  - apply IH. lia.
Qed.

Lemma update_nth_other (l : list number) (i j : nat) (v : number) :
  i <> j -> nth j (update l i v) NaN = nth j l NaN.
Proof.
  revert i j. induction l as [| x l IH]; intros [| i] [| j] H; simpl; auto.
  contradiction.
Qed.

(** A loop of array writes that never writes position [k]. *)
Lemma writes_elsewhere (F : Z -> number) (k : nat) (idxs : list Z)
    (l : list number) :
  (forall i, In i idxs -> Z.to_nat i <> k) ->
  nth k (fold_left (fun result i => update result (Z.to_nat i) (F i)) idxs l) NaN
  = nth k l NaN /\
  length (fold_left (fun result i => update result (Z.to_nat i) (F i)) idxs l)
  = length l.
Proof.
  revert l. induction idxs as [| i idxs IH]; intros l H; [now split |].
  simpl. destruct (IH (update l (Z.to_nat i) (F i))) as [Hn Hl].
  - intros j Hj. apply H. now right.
  - rewrite Hn, Hl, update_length. split; [| reflexivity].
    apply update_nth_other. apply H. now left.
Qed.

(** With a window of 25 the second flanking loop starts at [i + 25/3]. *)
Lemma baselineAt_fractional (data : list number) :
  baselineAt data 25 25 = NaN.
Proof.
  unfold baselineAt.
  match goal with
  | |- (fold_left ?f ?l ?acc / _)%js = _ =>
      assert (fold_left f l acc = NaN) as ->; [| reflexivity]
  end.
  apply (fold_term_NaN (getq data) _ _ (inject_Z 25 + inject_Z 25 / 3 + inject_Z 0)).
  - left. reflexivity.
  - reflexivity.
Qed.

Lemma sub_NaN_add (x y : number) : (x - NaN + y)%js = NaN.
Proof. destruct x; reflexivity. Qed.

Lemma removeBaselineWander_100 (data : list number) :
  length data = 100%nat ->
  In NaN (removeBaselineWander data) /\
  length (removeBaselineWander data) = 100%nat.
Proof.
  intro Hlen. unfold removeBaselineWander, len. rewrite Hlen.
  change (Z.min 50 (Z.of_nat 100 / 4)) with 25%Z.
  change (25 <? 3)%Z with false. cbv iota.
  change (Z.of_nat 100 - 25)%Z with 75%Z.
  rewrite zrange_cons by lia. cbn [fold_left].
  rewrite baselineAt_fractional, sub_NaN_add.
  change (Z.to_nat 25) with 25%nat. change (25 + 1)%Z with 26%Z.
  match goal with
  | |- In NaN (fold_left ?f ?idxs ?l) /\ _ =>
      destruct (writes_elsewhere
                  (fun i => (get data i - baselineAt data 25 i + num 50)%js)
                  25 idxs l) as [Hn Hl]
  end.
  - intros i Hi. apply zrange_in in Hi. lia.
  - rewrite update_length, Hlen in Hl. split; [| exact Hl].
    rewrite update_nth_same in Hn by lia.
    match goal with
    | |- In NaN ?X => pose proof (nth_In X NaN (n := 25)) as Hin
    end.
    rewrite Hn in Hin. apply Hin. rewrite Hl. lia.
Qed.

Lemma fold_min_NaN (data : list number) : fold_left min data NaN = NaN.
Proof.
  induction data as [| x data IH]; [reflexivity | exact IH].
Qed.

Lemma min_of_NaN (data : list number) : In NaN data -> min_of data = NaN.
Proof.
  unfold min_of. generalize PInf.
  induction data as [| x data IH]; intros acc Hin; [contradiction |].
  simpl. destruct Hin as [-> | Hin].
  - replace (min acc NaN) with NaN by (destruct acc; reflexivity).
    apply fold_min_NaN.
  - now apply IH.
Qed.

(** Normalizing a signal that holds [NaN] gives [NaN] throughout. *)
Lemma normalizeSignal_NaN (data : list number) :
  In NaN data -> normalizeSignal data = repeat NaN (length data).
Proof.
  intro Hin. unfold normalizeSignal. destruct data as [| x data]; [contradiction |].
  rewrite (min_of_NaN _ Hin).
  replace (max_of (x :: data) === NaN)%js with false
    by (destruct (max_of (x :: data)); reflexivity).
  rewrite <- map_const. apply map_ext. intro val. destruct val; reflexivity.
Qed.

Lemma applyAdvancedSignalProcessing_100 (data : list number) :
  length data = 100%nat ->
  applyAdvancedSignalProcessing data = repeat NaN 100.
Proof.
  intro Hlen. unfold applyAdvancedSignalProcessing, len. rewrite Hlen.
  change (Z.of_nat 100 <? 20)%Z with false. cbv iota.
  destruct (removeBaselineWander_100 (applySavitzkyGolayFilter data 5 3))
    as [Hin Hl].
  - now rewrite applySavitzkyGolayFilter_length.
  - rewrite (normalizeSignal_NaN _ Hin), Hl. reflexivity.
Qed.

(** C7: the estimate is meant to be a value clamped to [85,100] (or 97).
    For histories of at least 100 samples per channel the baseline removal
    reads the signal at the fractional index i + 25/3; the conditioned
    signals are [NaN] throughout and the estimate returned is [NaN]. *)
Theorem enhancedOxygenEstimation_not_a_number (sqrtQ : Q -> Q)
    (redData greenData blueData : list number) :
  (100 <= length redData)%nat -> (100 <= length greenData)%nat ->
  (100 <= length blueData)%nat ->
  enhancedOxygenEstimation sqrtQ redData greenData blueData = Some NaN.
Proof.
  intros Hr Hg Hb. unfold enhancedOxygenEstimation, len.
  do 3 settle_test.
  rewrite !applyAdvancedSignalProcessing_100 by now apply slice_last_length.
  vm_compute. reflexivity.
Qed.

Lemma enhancedOxygenEstimation_not_a_number_witness :
  enhancedOxygenEstimation Qsqrt (steady 200 100) (steady 100 100) (steady 50 100)
  = Some NaN.
Proof.
  apply (enhancedOxygenEstimation_not_a_number Qsqrt
           (steady 200 100) (steady 100 100) (steady 50 100));
    vm_compute; lia.
Defined.


(* ================================================================= *)
(** ** Baseline removal *)

Lemma qrange_head (start stop : Q) :
  start < stop -> exists rest, qrange start stop = (start + inject_Z 0) :: rest.
Proof.
  intro H. unfold qrange.
  assert (0 < Qceiling (stop - start))%Z as Hc.
  { apply inject_Z_lt_inv. apply Qlt_le_trans with (stop - start).
    - change (inject_Z 0) with 0. lra.
    - apply Qle_ceiling. }
  destruct (Z.to_nat (Qceiling (stop - start))) as [| n] eqn:E; [lia |].
  simpl. eexists. reflexivity.
Qed.

Lemma getq_fractional (data : list number) (j : Q) :
  (forall k, ~ j == inject_Z k) -> getq data j = NaN.
Proof.
  intro H. unfold getq. destruct (Qeq_bool j (inject_Z (Qfloor j))) eqn:E.
  - apply Qeq_bool_iff in E. exfalso. exact (H _ E).
  - reflexivity.
Qed.

(** With a window that is not a multiple of 3 the second flanking loop
    starts between two samples, and the baseline is [NaN]. *)
Lemma baselineAt_NaN (data : list number) (w i : Z) :
  (0 < w)%Z -> (w mod 3 <> 0)%Z -> baselineAt data w i = NaN.
Proof.
  intros Hw H3. unfold baselineAt.
  pose proof (inject_Z_pos w Hw) as Hq.
  destruct (qrange_head (inject_Z i + inject_Z w / 3) (inject_Z i + inject_Z w))
    as [rest Hr].
  { assert (inject_Z w / 3 < inject_Z w) as Hthird.
    { apply Qlt_shift_div_r; [reflexivity |].
      set (q := inject_Z w) in *. clearbody q. lra. }
    set (q3 := inject_Z w / 3) in *. clearbody q3.
    set (q := inject_Z w) in *. clearbody q.
    set (qi := inject_Z i). clearbody qi. lra. }
  rewrite Hr. cbn [fold_left].
  rewrite getq_fractional.
  - match goal with
    | |- (fold_left ?f ?l (?a + NaN)%js / _)%js = _ =>
        replace (a + NaN)%js with NaN by (destruct a; reflexivity)
    end.
    rewrite fold_acc_NaN. reflexivity.
  - intros k Hk.
    assert (w = (k - i) * 3)%Z as E
      by (unfold Qeq in Hk; simpl in Hk; lia).
    apply H3. rewrite E. apply Z_mod_mult.
Qed.

(** The array after the writes [result[i] = F i] for [lo <= i < hi]. *)
Lemma writes_range (F : Z -> number) (hi : Z) (n : nat) :
  forall lo l, Z.to_nat (hi - lo) = n -> (0 <= lo)%Z -> (hi <= len l)%Z ->
  forall k : Z, (0 <= k)%Z ->
  nth (Z.to_nat k)
      (fold_left (fun result i => update result (Z.to_nat i) (F i)) (zrange lo hi) l)
      NaN
  = if ((lo <=? k) && (k <? hi))%Z then F k else nth (Z.to_nat k) l NaN.
Proof.
  induction n as [| n IH]; intros lo l Hn Hlo Hhi k Hk.
  - rewrite zrange_nil by lia. simpl.
    replace ((lo <=? k) && (k <? hi))%Z with false; [reflexivity |].
    symmetry. apply andb_false_iff.
    destruct (Z.le_gt_cases lo k); [right; apply Z.ltb_ge | left; apply Z.leb_gt]; lia.
  - rewrite zrange_cons by lia. cbn [fold_left].
    rewrite IH; [| lia | lia | unfold len in *; rewrite update_length; lia | lia].
    destruct (Z.eq_dec k lo) as [-> | Hne].
    + replace ((lo + 1 <=? lo) && (lo <? hi))%Z with false
        by (symmetry; apply andb_false_iff; left; apply Z.leb_gt; lia).
      replace ((lo <=? lo) && (lo <? hi))%Z with true
        by (symmetry; apply andb_true_iff; split;
            [apply Z.leb_le | apply Z.ltb_lt]; lia).
      apply update_nth_same. unfold len in Hhi. lia.
    + rewrite update_nth_other by lia.
      replace (lo + 1 <=? k)%Z with (lo <=? k)%Z; [reflexivity |].
      destruct (Z.le_gt_cases lo k).
      * transitivity true; [apply Z.leb_le; lia | symmetry; apply Z.leb_le; lia].
      * transitivity false; [apply Z.leb_gt; lia | symmetry; apply Z.leb_gt; lia].
Qed.

Lemma writes_length (F : Z -> number) (idxs : list Z) (l : list number) :
  length (fold_left (fun result i => update result (Z.to_nat i) (F i)) idxs l)
  = length l.
Proof.
  revert l. induction idxs as [| i idxs IH]; intro l; [reflexivity |].
  simpl. rewrite IH. apply update_length.
Qed.

Lemma removeBaselineWander_length (data : list number) :
  length (removeBaselineWander data) = length data.
Proof.
  unfold removeBaselineWander. destruct (_ <? 3)%Z; [reflexivity |].
  apply (writes_length
           (fun i => (get data i - baselineAt data (Z.min 50 (len data / 4)) i
                      + num 50)%js)).
Qed.

(** Entry [k] of the result: the corrected value inside the loop range, the
    input value on both borders. *)
Lemma removeBaselineWander_entry (data : list number) (k : Z) :
  (0 <= k)%Z ->
  let w := baselineWindow (len data) in
  nth (Z.to_nat k) (removeBaselineWander data) NaN =
  if ((3 <=? w) && (w <=? k) && (k <? len data - w))%Z
  then (get data k - baselineAt data w k + num 50)%js
  else nth (Z.to_nat k) data NaN.
Proof.
  intros Hk w. unfold removeBaselineWander. fold (baselineWindow (len data)). fold w.
  destruct (w <? 3)%Z eqn:E.
  - apply Z.ltb_lt in E.
    replace (3 <=? w)%Z with false by (symmetry; apply Z.leb_gt; lia). reflexivity.
  - apply Z.ltb_ge in E.
    replace (3 <=? w)%Z with true by (symmetry; apply Z.leb_le; lia).
    assert (w <= len data / 4)%Z as Hw by (unfold w, baselineWindow; lia).
    assert (4 * (len data / 4) <= len data)%Z as Hd
      by (apply Z.mul_div_le; lia).
    rewrite (writes_range
               (fun i => (get data i - baselineAt data w i + num 50)%js)
               (len data - w) (Z.to_nat (len data - w - w)) w data);
      try lia.
    reflexivity.
Qed.

(** X1: baseline removal keeps the length of the signal and leaves its two
    borders as they are: an entry is rewritten only at the positions from
    the window size up to the length minus the window size, and never when
    the window is smaller than 3 (fewer than 12 samples). *)
Theorem removeBaselineWander_borders (data : list number) (k : Z) :
  (0 <= k)%Z ->
  (k < baselineWindow (len data) \/ len data - baselineWindow (len data) <= k \/
   len data < 12)%Z ->
  length (removeBaselineWander data) = length data /\
  nth (Z.to_nat k) (removeBaselineWander data) NaN = nth (Z.to_nat k) data NaN.
Proof.
  intros Hk Hcase. split; [apply removeBaselineWander_length |].
  rewrite removeBaselineWander_entry by exact Hk.
  set (w := baselineWindow (len data)) in *.
  replace ((3 <=? w) && (w <=? k) && (k <? len data - w))%Z with false;
    [reflexivity |].
  symmetry. destruct Hcase as [H | [H | H]].
  - replace (w <=? k)%Z with false by (symmetry; apply Z.leb_gt; lia).
    now rewrite andb_false_r.
  - replace (k <? len data - w)%Z with false by (symmetry; apply Z.ltb_ge; lia).
    now rewrite andb_false_r.
  - replace (3 <=? w)%Z with false; [reflexivity |].
    symmetry. apply Z.leb_gt. unfold w, baselineWindow.
    assert (len data / 4 < 3)%Z by (apply Z.div_lt_upper_bound; lia). lia.
Qed.

Lemma removeBaselineWander_borders_witness :
  nth 1 (removeBaselineWander (steady 7 24)) NaN = nth 1 (steady 7 24) NaN.
Proof.
  apply (removeBaselineWander_borders (steady 7 24) 1).
  - lia.
  - left. vm_compute. reflexivity.
Defined.

(** The entries the second flanking loop spoils. *)
Lemma removeBaselineWander_spoiled (data : list number) (k : Z) :
  let w := baselineWindow (len data) in
  (3 <= w)%Z -> (w mod 3 <> 0)%Z -> (w <= k < len data - w)%Z ->
  nth (Z.to_nat k) (removeBaselineWander data) NaN = NaN.
Proof.
  intros w Hw H3 Hk. rewrite removeBaselineWander_entry by lia. fold w.
  replace ((3 <=? w) && (w <=? k) && (k <? len data - w))%Z with true.
  - rewrite baselineAt_NaN by (lia || assumption). apply sub_NaN_add.
  - symmetry. repeat (apply andb_true_iff; split);
      [apply Z.leb_le | apply Z.leb_le | apply Z.ltb_lt]; lia.
Qed.

(** X2: when the window of a signal is at least 3 and not a multiple of 3,
    baseline removal turns every entry between the borders into [NaN]: the
    second flanking loop reads the signal at the fractional index
    i + windowSize/3. *)
Theorem removeBaselineWander_fractional (data : list number) (k : Z) :
  let w := baselineWindow (len data) in
  (3 <= w)%Z -> (w mod 3 <> 0)%Z -> (w <= k < len data - w)%Z ->
  nth (Z.to_nat k) (removeBaselineWander data) NaN = NaN.
Proof. apply removeBaselineWander_spoiled. Qed.

Lemma removeBaselineWander_fractional_witness :
  nth 7 (removeBaselineWander (steady 7 20)) NaN = NaN.
Proof.
  apply (removeBaselineWander_fractional (steady 7 20) 7); vm_compute;
    try discriminate; split; reflexivity || discriminate.
Defined.

(* ================================================================= *)
(** ** Normalization and the whole conditioner *)

(** X3: normalization maps a signal of finite values that are no further
    apart than the largest double into the range from 10 to 90, every value
    of it.  (The bound on the spread keeps [max - min] finite in double
    precision; the exact arithmetic of the model does not need it.) *)
Theorem normalizeSignal_within (data : list number) :
  Forall is_fin data -> spread data ->
  Forall (within 10 90) (normalizeSignal data).
Proof.
  intros Hfin _. destruct data as [| x data]; [constructor |].
  assert (x :: data <> []) as Hne by discriminate.
  destruct (min_of_fin _ Hfin Hne) as [lo [Hlo [Hinlo Hmin]]].
  destruct (max_of_fin _ Hfin Hne) as [hi [Hhi [Hinhi Hmax]]].
  unfold normalizeSignal. rewrite Hlo, Hhi. simpl JS.seq.
  apply Forall_forall. intros y Hy.
  destruct (Qeq_bool hi lo) eqn:E.
  - apply in_map_iff in Hy. destruct Hy as [_ [<- _]].
    exists (inject_Z 50). split; [reflexivity |]. split; discriminate.
  - apply Qeq_bool_neq in E.
    assert (lo < hi) as Hlt.
    { pose proof (Hmax lo Hinlo). destruct (Qlt_le_dec lo hi); [assumption |].
      exfalso. apply E. lra. }
    apply in_map_iff in Hy. destruct Hy as [v [<- Hv]].
    rewrite Forall_forall in Hfin.
    destruct (is_fin_inv v (Hfin v Hv)) as [a ->].
    rewrite rescale_fin by exact Hlt. eexists. split; [reflexivity |].
    apply rescale_range; [exact Hlt |]. split; [now apply Hmin | now apply Hmax].
Qed.

Lemma normalizeSignal_within_witness :
  Forall (within 10 90) (normalizeSignal (map num [3; 1; 2]%Z)).
Proof.
  apply (normalizeSignal_within (map num [3; 1; 2]%Z)); [repeat constructor |].
  apply small_spread with (bound := 3); [| vm_compute; discriminate].
  unfold bounded. cbn [map].
  repeat (apply Forall_cons;
          [eexists; split; [reflexivity | vm_compute; discriminate] |]).
  apply Forall_nil.
Defined.

Lemma applyAdvancedSignalProcessing_length (data : list number) :
  length (applyAdvancedSignalProcessing data) = length data.
Proof.
  unfold applyAdvancedSignalProcessing. destruct (len data <? 20)%Z; [reflexivity |].
  now rewrite normalizeSignal_length, removeBaselineWander_length,
    applySavitzkyGolayFilter_length.
Qed.

(** A conditioned window whose baseline window is not a multiple of 3. *)
Lemma applyAdvancedSignalProcessing_NaN (data : list number) :
  (20 <= len data)%Z -> (baselineWindow (len data) mod 3 <> 0)%Z ->
  applyAdvancedSignalProcessing data = repeat NaN (length data).
Proof.
  intros Hlen H3. unfold applyAdvancedSignalProcessing.
  replace (len data <? 20)%Z with false by (symmetry; apply Z.ltb_ge; lia).
  set (smoothed := applySavitzkyGolayFilter data 5 3).
  assert (len smoothed = len data) as Hl
    by (unfold len, smoothed; now rewrite applySavitzkyGolayFilter_length).
  set (w := baselineWindow (len data)) in *.
  assert (5 <= w)%Z as Hw5.
  { unfold w, baselineWindow.
    assert (5 <= len data / 4)%Z by (apply Z.div_le_lower_bound; lia). lia. }
  assert (4 * w <= len data)%Z as Hw4.
  { unfold w, baselineWindow.
    assert (4 * (len data / 4) <= len data)%Z by (apply Z.mul_div_le; lia). lia. }
  assert (In NaN (removeBaselineWander smoothed)) as Hin.
  { rewrite <- (removeBaselineWander_spoiled smoothed w); rewrite ?Hl; fold w;
      try lia; try assumption.
    apply nth_In. rewrite removeBaselineWander_length.
    unfold len in Hl, Hw4. lia. }
  rewrite (normalizeSignal_NaN _ Hin), removeBaselineWander_length.
  unfold smoothed. now rewrite applySavitzkyGolayFilter_length.
Qed.

Lemma processPPG_NaN (data : list number) :
  (20 <= len data)%Z -> (baselineWindow (len data) mod 3 <> 0)%Z ->
  processPPG data = repeat NaN (length data).
Proof.
  intros H H3. unfold processPPG.
  replace (len data <=? 10)%Z with false by (symmetry; apply Z.leb_gt; lia).
  now apply applyAdvancedSignalProcessing_NaN.
Qed.

(** X4: [processPPG] keeps the length of its input; it returns a signal of
    fewer than 20 samples as it is; and from 20 samples on, whenever the
    baseline window min(50, floor(n/4)) is not a multiple of 3, the
    conditioned signal is [NaN] at every position. *)
Theorem processPPG_shape (data : list number) :
  length (processPPG data) = length data /\
  ((len data < 20)%Z -> processPPG data = data) /\
  ((20 <= len data)%Z -> (baselineWindow (len data) mod 3 <> 0)%Z ->
   processPPG data = repeat NaN (length data)).
Proof.
  unfold processPPG. split; [| split].
  - destruct (len data <=? 10)%Z; [reflexivity |].
    apply applyAdvancedSignalProcessing_length.
  - intro H. destruct (len data <=? 10)%Z; [reflexivity |].
    unfold applyAdvancedSignalProcessing.
    now replace (len data <? 20)%Z with true by (symmetry; apply Z.ltb_lt; lia).
  - apply processPPG_NaN.
Qed.

Lemma processPPG_shape_witness :
  processPPG (steady 7 12) = steady 7 12 /\
  processPPG (steady 7 20) = repeat NaN 20.
Proof.
  destruct (processPPG_shape (steady 7 12)) as [_ [Hshort _]].
  destruct (processPPG_shape (steady 7 20)) as [_ [_ Hnan]].
  split.
  - apply Hshort. vm_compute. reflexivity.
  - apply Hnan; vm_compute; discriminate.
Defined.

(* ================================================================= *)
(** ** Smoothing *)

Lemma get_within (lo hi : Q) (data : list number) (j : Z) :
  Forall (within lo hi) data -> (0 <= j < len data)%Z -> within lo hi (get data j).
Proof.
  intros Hall Hj. unfold get.
  replace (j <? 0)%Z with false by (symmetry; apply Z.ltb_ge; lia).
  rewrite Forall_forall in Hall. apply Hall. apply nth_In. unfold len in Hj. lia.
Qed.

(** The weight of a sample at distance [d]. *)
Lemma weight_fin (d : Z) :
  exists wt, (num 1 / (num 1 + num d * num d))%js = Fin wt /\ 0 < wt.
Proof.
  assert (0 < inject_Z 1 + inject_Z d * inject_Z d) as Hpos.
  { pose proof (Qsquare_nonneg (inject_Z d)). change (inject_Z 1) with 1. lra. }
  exists (inject_Z 1 / (inject_Z 1 + inject_Z d * inject_Z d)). split.
  - unfold num, ofZ. cbn [mul add]. apply div_fin. lra.
  - apply Qlt_shift_div_l; [exact Hpos |]. rewrite Qmult_0_l. reflexivity.
Qed.

(** The two running sums over the samples of a window: the weighted sum
    stays between [lo] and [hi] times the sum of the weights. *)
Lemma window_sums (lo hi : Q) (data : list number) (i : Z) (js : list Z) :
  Forall (within lo hi) data ->
  (forall j, In j js -> (0 <= j < len data)%Z) ->
  forall S W, 0 <= W -> lo * W <= S <= hi * W ->
  exists S' W',
    fold_left
      (fun '(sum, weightSum) j =>
         let distance := Z.abs (i - j) in
         let weight := (num 1 / (num 1 + num distance * num distance))%js in
         ((sum + get data j * weight)%js, (weightSum + weight)%js))
      js (Fin S, Fin W) = (Fin S', Fin W') /\
    W <= W' /\ (js <> [] -> 0 < W') /\ lo * W' <= S' <= hi * W'.
Proof.
  intros Hdata. induction js as [| j js IH]; intros Hjs S W HW HS.
  - exists S, W. repeat split; try lra. congruence.
  - cbn [fold_left].
    destruct (weight_fin (Z.abs (i - j))) as [wt [Hwt Hpos]].
    destruct (get_within lo hi data j Hdata (Hjs j (or_introl eq_refl)))
      as [v [Hv Hvb]].
    cbv zeta. rewrite Hwt, Hv. cbn [mul add].
    assert (lo * wt <= v * wt <= hi * wt) as Hterm.
    { split; apply Qmult_le_compat_r; lra. }
    destruct (IH (fun k Hk => Hjs k (or_intror Hk)) (S + v * wt) (W + wt))
      as [S' [W' [Heq [HWW [_ HSS]]]]]; [lra | |].
    { setoid_replace (lo * (W + wt)) with (lo * W + lo * wt) by ring.
      setoid_replace (hi * (W + wt)) with (hi * W + hi * wt) by ring. lra. }
    exists S', W'. repeat split; try lra; exact Heq.
Qed.

Lemma applySavitzkyGolayFilter_within (lo hi : Q) (data : list number)
    (windowSize polynomialOrder : Z) :
  (0 <= windowSize)%Z -> Forall (within lo hi) data ->
  Forall (within lo hi) (applySavitzkyGolayFilter data windowSize polynomialOrder).
Proof.
  intros Hw Hdata. unfold applySavitzkyGolayFilter.
  apply Forall_forall. intros y Hy. apply in_map_iff in Hy.
  destruct Hy as [i [<- Hi]]. apply zrange_in in Hi.
  assert (0 <= windowSize / 2)%Z as Hh by (apply Z.div_pos; lia).
  set (js := zrange _ _).
  assert (forall j, In j js -> (0 <= j < len data)%Z) as Hjs.
  { intros j Hj. apply zrange_in in Hj. lia. }
  assert (js <> []) as Hne.
  { unfold js. rewrite zrange_cons by lia. discriminate. }
  destruct (window_sums lo hi data i js Hdata Hjs 0 0) as [S [W [Heq [_ [HW HS]]]]];
    [lra | lra |].
  match type of Heq with
  | ?L = _ =>
      match goal with
      | |- context [fold_left ?f js ?init] => change (fold_left f js init) with L
      end
  end.
  rewrite Heq. specialize (HW Hne).
  exists (S / W). split; [apply div_fin; lra |]. split.
  - apply Qle_shift_div_l; [exact HW | lra].
  - apply Qle_shift_div_r; [exact HW | lra].
Qed.

(** A window size below 0 leaves every window empty. *)
Lemma applySavitzkyGolayFilter_negative (data : list number)
    (windowSize polynomialOrder : Z) :
  (windowSize < 0)%Z ->
  Forall (fun v => v = NaN) (applySavitzkyGolayFilter data windowSize polynomialOrder).
Proof.
  intro Hw. unfold applySavitzkyGolayFilter.
  apply Forall_forall. intros y Hy. apply in_map_iff in Hy.
  destruct Hy as [i [<- Hi]]. apply zrange_in in Hi.
  assert (windowSize / 2 < 0)%Z as Hh by (apply Z.div_lt_upper_bound; lia).
  rewrite zrange_nil by lia. reflexivity.
Qed.

Lemma bounded_within (bound : Q) (data : list number) :
  bounded bound data -> Forall (within (- bound) bound) data.
Proof.
  apply Forall_impl. intros x [q [-> Hq]]. exists q. split; [reflexivity |].
  now apply Qabs_Qle_condition.
Qed.

(** X5: the smoothing filter keeps the length of the signal.  For a window
    size that is not negative it turns finite values of magnitude at most
    2^1000 into finite values: the window of a sample always holds the
    sample itself, so the weights never sum to 0.  For a negative window
    size every window is empty and every smoothed value is [NaN]. *)
Theorem applySavitzkyGolayFilter_finite (data : list number)
    (windowSize polynomialOrder : Z) :
  length (applySavitzkyGolayFilter data windowSize polynomialOrder) = length data /\
  ((0 <= windowSize)%Z -> bounded (inject_Z (2 ^ 1000)) data ->
   Forall is_fin (applySavitzkyGolayFilter data windowSize polynomialOrder)) /\
  ((windowSize < 0)%Z ->
   Forall (fun v => v = NaN)
          (applySavitzkyGolayFilter data windowSize polynomialOrder)).
Proof.
  split; [apply applySavitzkyGolayFilter_length |]. split.
  - intros Hw Hdata.
    eapply Forall_impl;
      [| apply (applySavitzkyGolayFilter_within _ _ data windowSize polynomialOrder Hw
                  (bounded_within _ data Hdata))].
    intros x [q [-> _]]. exact I.
  - apply applySavitzkyGolayFilter_negative.
Qed.

Lemma applySavitzkyGolayFilter_finite_witness :
  Forall is_fin (applySavitzkyGolayFilter (map num [1; 9; 4]%Z) 5 3) /\
  Forall (fun v => v = NaN) (applySavitzkyGolayFilter (map num [1; 9; 4]%Z) (-1) 3).
Proof.
  destruct (applySavitzkyGolayFilter_finite (map num [1; 9; 4]%Z) 5 3) as [_ [H1 _]].
  destruct (applySavitzkyGolayFilter_finite (map num [1; 9; 4]%Z) (-1) 3) as [_ [_ H2]].
  split.
  - apply H1; [lia |]. unfold bounded. cbn [map].
    repeat (apply Forall_cons;
            [eexists; split; [reflexivity | vm_compute; discriminate] |]).
    apply Forall_nil.
  - apply H2. lia.
Defined.

(* ================================================================= *)
(** ** Peak detector: what is and is not reported *)

Lemma scan_sources (data : list number) (thr : number) (l : list Z)
    (peaks : list number) (p : number) :
  In p (fold_left (peakStep data thr) l peaks) ->
  In p peaks \/
  exists i, In i l /\ isCandidate data thr i = true /\ p = refinePeakLocation data i.
Proof.
  revert peaks. induction l as [| i l IH]; intros peaks H; [now left |].
  simpl in H. destruct (IH _ H) as [Hin | [j [Hj [Hc Hp]]]].
  - unfold peakStep in Hin. destruct (isCandidate data thr i) eqn:E; [| now left].
    destruct (negb (tooClose peaks i)); [| now left].
    apply in_app_or in Hin. destruct Hin as [Hin | [<- | []]]; [now left |].
    right. exists i. repeat split; [now left | exact E].
  - right. exists j. repeat split; [now right | exact Hc | exact Hp].
Qed.

Section PeakReports.

Variable sqrtQ : Q -> Q.

Lemma enhancedPeakDetection_source (data : list number) (p : number) :
  In p (enhancedPeakDetection sqrtQ data) ->
  exists i, (2 <= i < len data - 2)%Z /\
            isCandidate data (adaptiveThreshold sqrtQ data) i = true /\
            p = refinePeakLocation data i.
Proof.
  unfold enhancedPeakDetection. destruct (len data <? 10)%Z; [contradiction |].
  intro H. destruct (scan_sources _ _ _ _ _ H) as [[] | [i [Hi [Hc Hp]]]].
  exists i. repeat split; try assumption; apply zrange_in in Hi; lia.
Qed.

Lemma enhancedPeakDetection_empty (data : list number) :
  (forall i, isCandidate data (adaptiveThreshold sqrtQ data) i = false) ->
  enhancedPeakDetection sqrtQ data = [].
Proof.
  intro H. destruct (enhancedPeakDetection sqrtQ data) as [| p l] eqn:E;
    [reflexivity | exfalso].
  destruct (peaks_have_candidate sqrtQ data) as [i Hi]; [rewrite E; discriminate |].
  rewrite H in Hi. discriminate.
Qed.

Lemma enhancedPeakDetection_not_finite (data : list number) :
  (exists x, In x data /\ ~ is_fin x) -> enhancedPeakDetection sqrtQ data = [].
Proof.
  intros [x [Hx Hnf]]. apply enhancedPeakDetection_empty. intro i.
  destruct (isCandidate data (adaptiveThreshold sqrtQ data) i) eqn:E;
    [exfalso | reflexivity].
  pose proof (isCandidate_finite sqrtQ data i E) as Hfin.
  rewrite Forall_forall in Hfin. exact (Hnf (Hfin x Hx)).
Qed.

End PeakReports.

(** X6: the peak detector reports nothing for a signal of fewer than 10
    samples, for a signal holding a value that is not finite ([NaN] or an
    infinity), and for a signal whose values are all equal. *)
Theorem enhancedPeakDetection_nothing (sqrtQ : Q -> Q) (data : list number) :
  (len data < 10)%Z \/ (exists x, In x data /\ ~ is_fin x) \/ constant data ->
  enhancedPeakDetection sqrtQ data = [].
Proof.
  intros [H | [[x [Hx Hnf]] | H]].
  - unfold enhancedPeakDetection.
    now replace (len data <? 10)%Z with true by (symmetry; apply Z.ltb_lt; lia).
  - apply enhancedPeakDetection_not_finite. now exists x.
  - apply enhancedPeakDetection_empty. intro i.
    destruct (isCandidate data (adaptiveThreshold sqrtQ data) i) eqn:E;
      [exfalso | reflexivity].
    pose proof (isCandidate_finite sqrtQ data i E) as Hfin.
    destruct (isCandidate_spread data _ i E) as [a [b [[Ha [Hb Hlt]] | Hno]]];
      [| contradiction].
    pose proof (H _ _ Ha Hb) as Heq. simpl in Heq. lra.
Qed.

Lemma enhancedPeakDetection_nothing_witness :
  enhancedPeakDetection Qsqrt (steady 50 30) = [] /\
  enhancedPeakDetection Qsqrt (NaN :: steady 50 30) = [].
Proof.
  split.
  - apply (enhancedPeakDetection_nothing Qsqrt (steady 50 30)). right. right.
    intros x y Hx Hy. unfold steady in *.
    apply in_map_iff in Hx. destruct Hx as [a [<- Ha]]. apply repeat_spec in Ha.
    apply in_map_iff in Hy. destruct Hy as [b [<- Hb]]. apply repeat_spec in Hb.
    subst. reflexivity.
  - apply (enhancedPeakDetection_nothing Qsqrt (NaN :: steady 50 30)). right. left.
    exists NaN. split; [now left | intros []].
Defined.

(** X7: every position the peak detector reports is the refinement of an
    index i, 2 <= i < length - 2, whose sample exceeds the adaptive
    threshold and its two neighbours on each side; the position is finite
    and less than one sample away from i. *)
Theorem enhancedPeakDetection_reports_maxima (sqrtQ : Q -> Q)
    (data : list number) (p : number) :
  In p (enhancedPeakDetection sqrtQ data) ->
  exists i q,
    (2 <= i < len data - 2)%Z /\
    isCandidate data (adaptiveThreshold sqrtQ data) i = true /\
    p = Fin q /\ Qabs (q - inject_Z i) < 1.
Proof.
  intro H. destruct (enhancedPeakDetection_source sqrtQ data p H) as [i [Hi [Hc ->]]].
  destruct (refinePeakLocation_near data i) as [q [Hq Hnear]].
  exists i, q. repeat split; try assumption; lia.
Qed.

Lemma enhancedPeakDetection_reports_maxima_witness :
  exists i q,
    (2 <= i < len leaningSignal - 2)%Z /\
    isCandidate leaningSignal (adaptiveThreshold Qsqrt leaningSignal) i = true /\
    Fin (107 # 10) = Fin q /\ Qabs (q - inject_Z i) < 1.
Proof.
  apply (enhancedPeakDetection_reports_maxima Qsqrt leaningSignal (Fin (107 # 10))).
  vm_compute. right. left. reflexivity.
Defined.

(* ================================================================= *)
(** ** The instantaneous rate *)

Lemma round_fin_bounds (x : Q) (lo hi : Z) :
  inject_Z lo <= x -> x < inject_Z hi + (1 # 2) ->
  exists z, round (Fin x) = ofZ z /\ (lo <= z <= hi)%Z.
Proof.
  intros Hlo Hhi. exists (Qfloor (x + (1 # 2))). split; [reflexivity |].
  pose proof (Qfloor_le (x + (1 # 2))) as A.
  pose proof (Qlt_floor (x + (1 # 2))) as B.
  rewrite inject_Z_plus in B. change (inject_Z 1) with 1 in B.
  set (f := Qfloor (x + (1 # 2))) in *. split.
  - apply Zle_of_Qle_half. lra.
  - assert (inject_Z f < inject_Z (hi + 1)) as C.
    { rewrite inject_Z_plus. change (inject_Z 1) with 1. lra. }
    apply inject_Z_lt_inv in C. lia.
Qed.

(** X8: the rate computed from at least two detected peaks is an integer
    between 0 and 257 beats per minute: detected peaks are more than 7
    samples apart, so 60 * 30 / interval stays below 257.2. *)
Theorem calculatedHR_bounded (sqrtQ : Q -> Q) (data : list number) :
  (2 <= len (enhancedPeakDetection sqrtQ data))%Z ->
  exists z, calculatedHR (enhancedPeakDetection sqrtQ data) = ofZ z /\
            (0 <= z <= 257)%Z.
Proof.
  intro Hlen. set (peaks := enhancedPeakDetection sqrtQ data) in *.
  pose proof (enhancedPeakDetection_sorted sqrtQ data) as Hs. fold peaks in Hs.
  pose proof (intervals_of_spaced 7 peaks Hs) as Hiv.
  assert (intervals_of peaks <> []) as Hne.
  { intro E. pose proof (intervals_of_length peaks) as L. rewrite E in L.
    unfold len in Hlen. simpl in L. lia. }
  destruct (bounded_above 7 _ Hiv) as [hi Hb].
  destruct (mean_bounds 7 hi _ Hne Hb) as [mu [Hmu Hmub]].
  unfold calculatedHR. unfold mean_of in Hmu. rewrite Hmu.
  assert ((num 60 * num 30 / Fin mu)%js = Fin (inject_Z 60 * inject_Z 30 / mu)) as ->.
  { unfold num, ofZ. cbn [mul]. apply div_fin. lra. }
  apply round_fin_bounds.
  - change (inject_Z 0) with 0. apply Qle_shift_div_l; [lra |].
    rewrite Qmult_0_l. discriminate.
  - apply Qle_lt_trans with (inject_Z 60 * inject_Z 30 / 7).
    + apply Qle_shift_div_r; [lra |].
      setoid_replace (inject_Z 60 * inject_Z 30 / 7 * mu)
        with (inject_Z 60 * inject_Z 30 * (mu / 7)) by (field).
      change (inject_Z 60 * inject_Z 30) with 1800.
      assert (1 <= mu / 7) by (apply Qle_shift_div_l; lra). lra.
    + reflexivity.
Qed.

Lemma calculatedHR_bounded_witness :
  exists z, calculatedHR (enhancedPeakDetection Qsqrt leaningSignal) = ofZ z /\
            (0 <= z <= 257)%Z.
Proof.
  apply (calculatedHR_bounded Qsqrt leaningSignal). vm_compute. discriminate.
Defined.

(* ================================================================= *)
(** ** Kalman filter: where the output lies *)

Lemma gainQ_full : gainQ 100 == 1.
Proof. reflexivity. Qed.

Lemma Qfloor_half (m : Z) : Qfloor (inject_Z m + (1 # 2)) = m.
Proof.
  pose proof (Qfloor_le (inject_Z m + (1 # 2))) as A.
  pose proof (Qlt_floor (inject_Z m + (1 # 2))) as B.
  rewrite inject_Z_plus in B. change (inject_Z 1) with 1 in B.
  set (f := Qfloor (inject_Z m + (1 # 2))) in *.
  assert (f <= m)%Z by (apply Zle_of_Qle_half; exact A).
  assert (inject_Z m < inject_Z (f + 1)) as C
    by (rewrite inject_Z_plus; change (inject_Z 1) with 1; lra).
  apply inject_Z_lt_inv in C. lia.
Qed.

(** X9: for an integer prior p (the heart rate read, or 75) and an integer
    measurement m, both of magnitude at most 2^31, and a confidence in
    [0,100], the filter returns an integer between p and m; at confidence
    100 it returns m, whatever the prior. *)
Theorem kalmanFilterHeartRate_between (h : option number) (p m : Z) (c : Q) :
  or_default h (num 75) = ofZ p -> 0 <= c <= 100 ->
  (Z.abs p <= 2 ^ 31)%Z -> (Z.abs m <= 2 ^ 31)%Z ->
  exists z, kalmanFilterHeartRate h (ofZ m) (Fin c) = ofZ z /\
    (Z.min p m <= z <= Z.max p m)%Z /\
    (c == 100 -> z = m).
Proof.
  intros Hp Hc _ _. exists (smooth c (inject_Z m) (inject_Z p)).
  unfold ofZ at 1.
  rewrite (kalmanFilterHeartRate_finite h (inject_Z p) (inject_Z m) c Hc Hp).
  split; [reflexivity |].
  destruct (smooth_int_between c m p Hc) as [Hup [Hdn Heq]].
  split.
  - destruct (Z.lt_total p m) as [L | [L | L]].
    + specialize (Hup L). lia.
    + specialize (Heq L). lia.
    + specialize (Hdn L). lia.
  - intro E. unfold smooth. rewrite <- (Qfloor_half m) at 2. apply Qfloor_comp.
    unfold gainQ. rewrite E. field.
Qed.

Lemma kalmanFilterHeartRate_between_witness :
  exists z, kalmanFilterHeartRate None (ofZ 100) (Fin 100) = ofZ z /\
            (Z.min 75 100 <= z <= Z.max 75 100)%Z /\ z = 100%Z.
Proof.
  destruct (kalmanFilterHeartRate_between None 75 100 100) as [z [Hz [Hb Hr]]].
  - reflexivity.
  - split; discriminate.
  - vm_compute. intro E. discriminate E.
  - vm_compute. intro E. discriminate E.
  - exists z. split; [exact Hz |]. split; [exact Hb | apply Hr; reflexivity].
Defined.

(* ================================================================= *)
(** ** Oxygen estimate: the values it can take *)

Lemma clamp_round_values (x : number) :
  min (num 100) (max (num 85) (round x)) = NaN \/
  exists z, min (num 100) (max (num 85) (round x)) = ofZ z /\ (85 <= z <= 100)%Z.
Proof.
  destruct x as [a | | |]; [| right; exists 100%Z | right; exists 85%Z | left];
    try (split; [reflexivity | lia]); try reflexivity.
  right. unfold round. set (f := Qfloor (a + (1 # 2))).
  unfold max, min, num, ofZ, lt.
  destruct (Qltb (inject_Z 85) (inject_Z f)) eqn:E1.
  - apply Qltb_lt in E1. apply inject_Z_lt_inv in E1.
    destruct (Qltb (inject_Z f) (inject_Z 100)) eqn:E2.
    + apply Qltb_lt in E2. apply inject_Z_lt_inv in E2.
      exists f. split; [reflexivity | lia].
    + exists 100%Z. split; [reflexivity | lia].
  - replace (Qltb (inject_Z 85) (inject_Z 100)) with true by reflexivity.
    exists 85%Z. split; [reflexivity | lia].
Qed.

(** X10: the oxygen estimator returns null exactly when one of the three
    histories has fewer than 30 samples; any other result is [NaN] or an
    integer from 85 to 100. *)
Theorem enhancedOxygenEstimation_values (sqrtQ : Q -> Q)
    (redData greenData blueData : list number) :
  (enhancedOxygenEstimation sqrtQ redData greenData blueData = None <->
   (len redData < 30 \/ len greenData < 30 \/ len blueData < 30)%Z) /\
  (forall x, enhancedOxygenEstimation sqrtQ redData greenData blueData = Some x ->
     x = NaN \/ exists z, x = ofZ z /\ (85 <= z <= 100)%Z).
Proof.
  unfold enhancedOxygenEstimation.
  destruct (len redData <? 30)%Z eqn:Er; [| destruct (len greenData <? 30)%Z eqn:Eg;
    [| destruct (len blueData <? 30)%Z eqn:Eb]]; cbn [orb].
  - apply Z.ltb_lt in Er. split; [split; [intros _; lia | reflexivity] | discriminate].
  - apply Z.ltb_lt in Eg. split; [split; [intros _; lia | reflexivity] | discriminate].
  - apply Z.ltb_lt in Eb. split; [split; [intros _; lia | reflexivity] | discriminate].
  - apply Z.ltb_ge in Er. apply Z.ltb_ge in Eg. apply Z.ltb_ge in Eb.
    match goal with
    | |- context [if ?t then _ else _] => destruct t
    end.
    + split; [split; [discriminate | lia] |].
      intros x Hx. injection Hx as <-. apply clamp_round_values.
    + split; [split; [discriminate | lia] |].
      intros x Hx. injection Hx as <-. right. exists 97%Z. split; [reflexivity | lia].
Qed.

(* ================================================================= *)
(** ** Signal quality of a signal of 20 samples or more *)

Section QualityZero.

Variable sqrtQ : Q -> Q.

Lemma qualityFormula_positive (data : list number) :
  (2 <= len (enhancedPeakDetection sqrtQ data))%Z ->
  exists q, qualityFormula sqrtQ data = Fin q /\ 0 < q <= 1.
Proof.
  intro Hlen.
  assert (enhancedPeakDetection sqrtQ data <> []) as Hne.
  { intro F. rewrite F in Hlen. unfold len in Hlen. simpl in Hlen. lia. }
  destruct (peaks_need_spread sqrtQ data Hne) as [_ [lo [hi [Hlo [Hhi Hlt]]]]].
  destruct (intervals_cv_finite sqrtQ data Hlen) as [cv Hcv].
  unfold qualityFormula. rewrite Hcv, Hlo, Hhi.
  assert ((num 1 - Fin cv)%js = Fin (inject_Z 1 + - cv)) as -> by reflexivity.
  assert ((Fin hi - Fin lo) / num 50 = Fin ((hi + - lo) / inject_Z 50))%js as ->
    by reflexivity.
  assert (0 < (hi + - lo) / inject_Z 50) as Hpos
    by (apply Qlt_shift_div_l; [reflexivity | lra]).
  destruct (clamp_unit_fin (inject_Z 1 + - cv)) as [r [-> Hr]].
  destruct (clamp_unit_positive _ Hpos) as [-> [a [-> Ha]]].
  exists ((7 # 10) * r + (3 # 10) * a). split; [reflexivity | lra].
Qed.

Lemma calculateSignalQuality_positive (data : list number) :
  (20 <= len data)%Z ->
  exists q, calculateSignalQuality sqrtQ data = Fin q /\ 0 < q <= 1.
Proof.
  intro Hlen. rewrite calculateSignalQuality_formula.
  replace (len data <? 20)%Z with false by (symmetry; apply Z.ltb_ge; lia).
  destruct (len (enhancedPeakDetection sqrtQ data) <? 2)%Z eqn:E.
  - exists (2 # 10). split; [reflexivity | lra].
  - apply Z.ltb_ge in E. now apply qualityFormula_positive.
Qed.

End QualityZero.

(* ================================================================= *)
(** ** Pulsatility index *)

Lemma sum_NaN (data : list number) : In NaN data -> sum data = NaN.
Proof.
  intro H. apply (fold_term_NaN (fun x => x) data (Fin 0) NaN H eq_refl).
Qed.

Lemma fold_max_NaN (data : list number) : fold_left max data NaN = NaN.
Proof.
  induction data as [| x data IH]; [reflexivity | exact IH].
Qed.

Lemma max_of_NaN (data : list number) : In NaN data -> max_of data = NaN.
Proof.
  unfold max_of. generalize NInf.
  induction data as [| x data IH]; intros acc Hin; [contradiction |].
  simpl. destruct Hin as [-> | Hin].
  - replace (max acc NaN) with NaN by (destruct acc; reflexivity).
    apply fold_max_NaN.
  - now apply IH.
Qed.

Lemma calculatePulsatilityIndex_NaN (data : list number) :
  (5 <= len data)%Z -> In NaN data -> calculatePulsatilityIndex data = NaN.
Proof.
  intros Hlen Hin. unfold calculatePulsatilityIndex, mean_of.
  replace (len data <? 5)%Z with false by (symmetry; apply Z.ltb_ge; lia).
  rewrite (sum_NaN _ Hin), (max_of_NaN _ Hin), (min_of_NaN _ Hin). reflexivity.
Qed.

(** With exact sums and quotients: at least 5 finite samples between lo
    and hi, lo positive, give an index from 0 to (hi - lo) / lo. *)
Lemma calculatePulsatilityIndex_ratio (lo hi : Q) (data : list number) :
  (5 <= len data)%Z -> 0 < lo -> Forall (within lo hi) data ->
  within 0 ((hi - lo) / lo) (calculatePulsatilityIndex data).
Proof.
  intros Hlen Hlo Hall.
  assert (data <> []) as Hne.
  { intros ->. unfold len in Hlen. simpl in Hlen. lia. }
  assert (Forall is_fin data) as Hfin.
  { eapply Forall_impl; [| exact Hall]. intros x [q [-> _]]. exact I. }
  destruct (min_of_fin data Hfin Hne) as [mn [Hmn [Hinmn _]]].
  destruct (max_of_fin data Hfin Hne) as [mx [Hmx [Hinmx Hmax]]].
  destruct (mean_bounds lo hi data Hne Hall) as [mu [Hmu Hmub]].
  rewrite Forall_forall in Hall.
  destruct (Hall _ Hinmn) as [a [Ea Ha]]. injection Ea as <-.
  destruct (Hall _ Hinmx) as [b [Eb Hb]]. injection Eb as <-.
  pose proof (Hmax mn Hinmn) as Hle.
  unfold calculatePulsatilityIndex.
  replace (len data <? 5)%Z with false by (symmetry; apply Z.ltb_ge; lia).
  rewrite Hmu, Hmn, Hmx. simpl JS.seq. rewrite Qeq_bool_0.
  replace (Qis0 mu) with false by (symmetry; apply Qis0_neq; lra).
  exists ((mx + - mn) / mu). split; [apply div_fin; lra |]. split.
  + apply Qle_shift_div_l; [lra |]. lra.
  + apply Qle_shift_div_r; [lra |].
    setoid_replace ((hi - lo) / lo * mu) with ((hi - lo) * (mu / lo)) by (field; lra).
    assert (1 <= mu / lo) by (apply Qle_shift_div_l; lra).
    assert ((hi - lo) * 1 <= (hi - lo) * (mu / lo)); [| lra].
    rewrite (Qmult_comm (hi - lo) 1), (Qmult_comm (hi - lo) (mu / lo)).
    apply Qmult_le_compat_r; lra.
Qed.

(** X12: the pulsatility index is 0 for fewer than 5 samples and [NaN] for
    a longer signal that holds [NaN]; for a conditioned window, 5 to 100
    samples between 10 and 90, it is a number from 0 to 8. *)
Theorem calculatePulsatilityIndex_range (data : list number) :
  ((len data < 5)%Z -> calculatePulsatilityIndex data = num 0) /\
  ((5 <= len data)%Z -> In NaN data -> calculatePulsatilityIndex data = NaN) /\
  ((5 <= len data <= 100)%Z -> Forall (within 10 90) data ->
   within 0 8 (calculatePulsatilityIndex data)).
Proof.
  split; [| split].
  - intro H. unfold calculatePulsatilityIndex.
    now replace (len data <? 5)%Z with true by (symmetry; apply Z.ltb_lt; lia).
  - apply calculatePulsatilityIndex_NaN.
  - intros [Hlen _] Hall.
    destruct (calculatePulsatilityIndex_ratio 10 90 data Hlen eq_refl Hall)
      as [q [Hq Hb]].
    exists q. split; [exact Hq |].
    setoid_replace ((90 - 10) / 10) with 8 in Hb by reflexivity. exact Hb.
Qed.

Lemma calculatePulsatilityIndex_range_witness :
  calculatePulsatilityIndex (steady 7 3) = num 0 /\
  calculatePulsatilityIndex (NaN :: steady 7 5) = NaN /\
  within 0 8 (calculatePulsatilityIndex (map num [10; 90; 50; 50; 50]%Z)).
Proof.
  destruct (calculatePulsatilityIndex_range (steady 7 3)) as [H1 _].
  destruct (calculatePulsatilityIndex_range (NaN :: steady 7 5)) as [_ [H2 _]].
  destruct (calculatePulsatilityIndex_range (map num [10; 90; 50; 50; 50]%Z))
    as [_ [_ H3]].
  split; [| split].
  - apply H1. vm_compute. reflexivity.
  - apply H2; [vm_compute; discriminate | now left].
  - apply H3; [vm_compute; split; discriminate |].
    repeat constructor; eexists; (split; [reflexivity | split; discriminate]).
Defined.

(* ================================================================= *)
(** ** Oxygen estimate: windows that are not a multiple of 3 *)

Lemma slice_last_len (n : nat) (data : list number) :
  len (slice_last n data) = Z.min (len data) (Z.of_nat n).
Proof.
  unfold len, slice_last. rewrite length_skipn. lia.
Qed.

Lemma add_NaN_r (x : number) : (x + NaN)%js = NaN.
Proof. destruct x; reflexivity. Qed.

Lemma div_NaN_r (x : number) : (x / NaN)%js = NaN.
Proof. destruct x; reflexivity. Qed.

(** The clamped estimate when one of the three pulsatility indices is
    [NaN]. *)
Lemma estimate_NaN (redPI greenPI bluePI w1 w2 totalWeight : number) :
  redPI = NaN \/ greenPI = NaN \/ bluePI = NaN ->
  min (num 100)
      (max (num 85)
           (round (((num 110 - num 25 * (redPI / greenPI)) * w1
                    + (num 104 - num 17 * (redPI / bluePI)) * w2)
                   / totalWeight)%js)) = NaN.
Proof.
  intros [-> | [-> | ->]].
  - reflexivity.
  - rewrite div_NaN_r. reflexivity.
  - rewrite div_NaN_r.
    replace ((num 104 - num 17 * NaN) * w2)%js with NaN by reflexivity.
    rewrite add_NaN_r. reflexivity.
Qed.

(** X13: when every history has at least 30 samples and, for one of the
    channels, the baseline window of the conditioned samples (the last 100
    at most) is not a multiple of 3, the oxygen estimator returns [NaN]. *)
Theorem enhancedOxygenEstimation_fractional_window (sqrtQ : Q -> Q)
    (redData greenData blueData : list number) :
  (30 <= len redData)%Z -> (30 <= len greenData)%Z -> (30 <= len blueData)%Z ->
  (baselineWindow (Z.min (len redData) 100) mod 3 <> 0 \/
   baselineWindow (Z.min (len greenData) 100) mod 3 <> 0 \/
   baselineWindow (Z.min (len blueData) 100) mod 3 <> 0)%Z ->
  enhancedOxygenEstimation sqrtQ redData greenData blueData = Some NaN.
Proof.
  intros Hr Hg Hb Hbad. unfold enhancedOxygenEstimation.
  replace (len redData <? 30)%Z with false by (symmetry; apply Z.ltb_ge; lia).
  replace (len greenData <? 30)%Z with false by (symmetry; apply Z.ltb_ge; lia).
  replace (len blueData <? 30)%Z with false by (symmetry; apply Z.ltb_ge; lia).
  cbn [orb].
  set (pr := applyAdvancedSignalProcessing (slice_last 100 redData)).
  set (pg := applyAdvancedSignalProcessing (slice_last 100 greenData)).
  set (pb := applyAdvancedSignalProcessing (slice_last 100 blueData)).
  assert (forall c, (30 <= len c)%Z ->
            (30 <= len (applyAdvancedSignalProcessing (slice_last 100 c)))%Z) as Hlen.
  { intros c Hc. pose proof (slice_last_len 100 c) as Hs.
    pose proof (applyAdvancedSignalProcessing_length (slice_last 100 c)) as Ha.
    unfold len in *. lia. }
  assert (forall c, (30 <= len c)%Z ->
            (baselineWindow (Z.min (len c) 100) mod 3 <> 0)%Z ->
            calculatePulsatilityIndex
              (applyAdvancedSignalProcessing (slice_last 100 c)) = NaN) as Hnan.
  { intros c Hc H3. pose proof (slice_last_len 100 c) as Hs.
    change (Z.of_nat 100) with 100%Z in Hs.
    rewrite applyAdvancedSignalProcessing_NaN; rewrite ?Hs; try lia; try assumption.
    apply calculatePulsatilityIndex_NaN.
    - unfold len. rewrite repeat_length. fold (len (slice_last 100 c)). lia.
    - assert (0 < length (slice_last 100 c))%nat as Hpos
        by (unfold len in *; lia).
      destruct (length (slice_last 100 c)); [lia | now left]. }
  destruct (calculateSignalQuality_positive sqrtQ pr) as [qr [-> Hqr]];
    [unfold pr; apply Hlen in Hr; lia |].
  destruct (calculateSignalQuality_positive sqrtQ pg) as [qg [-> Hqg]];
    [unfold pg; apply Hlen in Hg; lia |].
  destruct (calculateSignalQuality_positive sqrtQ pb) as [qb [-> Hqb]];
    [unfold pb; apply Hlen in Hb; lia |].
  cbn [mul add].
  replace (Fin (qr * qg + qr * qb) > num 0)%js with true.
  - f_equal. apply estimate_NaN. unfold pr, pg, pb.
    destruct Hbad as [H | [H | H]]; [left | right; left | right; right];
      now apply Hnan.
  - symmetry. apply Qltb_lt. change (inject_Z 0) with 0.
    assert (0 < qr * qg) by (apply Qmult_lt_0_compat; lra).
    assert (0 < qr * qb) by (apply Qmult_lt_0_compat; lra). lra.
Qed.

Lemma enhancedOxygenEstimation_fractional_window_witness :
  enhancedOxygenEstimation Qsqrt (steady 200 30) (steady 100 30) (steady 50 30)
  = Some NaN.
Proof.
  apply (enhancedOxygenEstimation_fractional_window Qsqrt
           (steady 200 30) (steady 100 30) (steady 50 30));
    try (vm_compute; discriminate).
  left. vm_compute. discriminate.
Defined.

Lemma enhancedOxygenEstimation_values_witness :
  enhancedOxygenEstimation Qsqrt (steady 200 3) (steady 100 30) (steady 50 30) = None /\
  (NaN = NaN \/ exists z, NaN = ofZ z /\ (85 <= z <= 100)%Z).
Proof.
  destruct (enhancedOxygenEstimation_values Qsqrt
              (steady 200 3) (steady 100 30) (steady 50 30)) as [Hnull _].
  destruct (enhancedOxygenEstimation_values Qsqrt
              (steady 200 30) (steady 100 30) (steady 50 30)) as [_ Hval].
  split.
  - apply Hnull. left. vm_compute. reflexivity.
  - apply Hval. vm_compute. reflexivity.
Defined.

(* ================================================================= *)
(** ** The timer callback: buffers and stored results *)

Lemma finishMeasurement_buffers (cl s : AppState) (u1 u2 : Q) :
  buffers (finishMeasurement cl u1 u2 s) = buffers s.
Proof.
  unfold finishMeasurement. destruct (2 <=? len (measurements cl))%Z.
  - destruct (falsy (oxygenLevel cl)); reflexivity.
  - reflexivity.
Qed.

Section TimerCallback.

Variable sqrtQ : Q -> Q.

Lemma rateUpdate_buffers (cl s : AppState) (processed peaks : list number) :
  buffers (rateUpdate sqrtQ cl processed peaks s) = buffers s.
Proof.
  unfold rateUpdate. destruct (_ && _); [| reflexivity].
  destruct (enhancedOxygenEstimation sqrtQ _ _ _); reflexivity.
Qed.

Lemma tick_buffers (cl s : AppState) (r g b elapsed : number) (u1 u2 : Q) :
  buffers (tick sqrtQ cl r g b elapsed u1 u2 s) =
  if verifyHumanFingerprint r g b
  then (redData s ++ [r], greenData s ++ [g], blueData s ++ [b], signal s ++ [g])
  else buffers s.
Proof.
  unfold tick.
  set (s1 := if verifyHumanFingerprint r g b then _ else _).
  assert (buffers s1 =
          if verifyHumanFingerprint r g b
          then (redData s ++ [r], greenData s ++ [g], blueData s ++ [b],
                signal s ++ [g])
          else buffers s) as H1.
  { unfold s1. destruct (verifyHumanFingerprint r g b); [| reflexivity].
    destruct (10 <? len (signal cl))%Z; [| reflexivity].
    destruct (2 <=? len _)%Z; [| reflexivity].
    rewrite rateUpdate_buffers. reflexivity. }
  set (s2 := if calibrating cl && _ then _ else s1).
  assert (buffers s2 = buffers s1) as H2
    by (unfold s2; destruct (calibrating cl && _); reflexivity).
  destruct (elapsed >= MEASUREMENT_TIME)%js.
  - now rewrite finishMeasurement_buffers, H2.
  - now rewrite H2.
Qed.

Lemma tick_aligned (cl s : AppState) (r g b elapsed : number) (u1 u2 : Q) :
  aligned s -> aligned (tick sqrtQ cl r g b elapsed u1 u2 s).
Proof.
  intros [Hr [Hg Hb]].
  pose proof (tick_buffers cl s r g b elapsed u1 u2) as H.
  unfold buffers, aligned in *. destruct (verifyHumanFingerprint r g b);
    injection H as -> -> -> ->; rewrite ?length_app; simpl; lia || auto.
Qed.

Lemma reachable_aligned (s : AppState) : reachable sqrtQ s -> aligned s.
Proof.
  induction 1 as [| camera u1 u2 s _ _ _ IH | cl r g b elapsed u1 u2 s _ _ _ _ _ IH
                  | s _ IH | cl u1 u2 s _ _ _ _ _ IH].
  - repeat split.
  - unfold startMeasurement. destruct camera; [repeat split | exact IH].
  - now apply tick_aligned.
  - exact IH.
  - pose proof (finishMeasurement_buffers cl s u1 u2) as H.
    unfold buffers, aligned in *. injection H as -> -> -> ->. exact IH.
Qed.

(** The snapshots for which the rate stage of the callback is skipped or
    finds no peaks: no finger, at most 10 samples, or a conditioning window
    that is not a multiple of 3. *)
Lemma tick_results (cl s : AppState) (r g b elapsed : number) (u1 u2 : Q) :
  verifyHumanFingerprint r g b = false \/ (len (signal cl) <= 10)%Z \/
  ((20 <= len (signal cl))%Z /\ (baselineWindow (len (signal cl)) mod 3 <> 0)%Z) ->
  (elapsed >= MEASUREMENT_TIME)%js = false ->
  results (tick sqrtQ cl r g b elapsed u1 u2 s) = results s.
Proof.
  intros Hcase Htime. unfold tick. rewrite Htime.
  set (s1 := if verifyHumanFingerprint r g b then _ else _).
  assert (results s1 = results s) as H1.
  { unfold s1. destruct (verifyHumanFingerprint r g b) eqn:Ev; [| reflexivity].
    destruct (10 <? len (signal cl))%Z eqn:El; [| reflexivity].
    apply Z.ltb_lt in El.
    destruct Hcase as [H | [H | [H20 H3]]]; [discriminate | lia |].
    rewrite (processPPG_NaN (signal cl) H20 H3).
    rewrite (enhancedPeakDetection_not_finite sqrtQ (repeat NaN (length (signal cl)))).
    - reflexivity.
    - exists NaN. split; [| intros []].
      unfold len in H20. destruct (length (signal cl)); [lia | now left]. }
  destruct (calibrating cl && _); exact H1.
Qed.

End TimerCallback.

(** X14: a run of the timer callback appends the sample to each of the four
    buffers when the liveness check accepts it (red, green and blue to their
    histories, green to the signal) and leaves the buffers as they are when
    it does not, whatever else the run does. *)
Theorem tick_appends_sample (sqrtQ : Q -> Q) (cl s : AppState)
    (r g b elapsed : number) (u1 u2 : Q) :
  buffers (tick sqrtQ cl r g b elapsed u1 u2 s) =
  if verifyHumanFingerprint r g b
  then (redData s ++ [r], greenData s ++ [g], blueData s ++ [b], signal s ++ [g])
  else buffers s.
Proof. apply tick_buffers. Qed.

(** X15: in every state the component can reach the red, green and blue
    histories and the signal hold the same number of samples. *)
Theorem buffers_aligned (sqrtQ : Q -> Q) (s : AppState) :
  reachable sqrtQ s -> aligned s.
Proof. apply reachable_aligned. Qed.

Lemma buffers_aligned_witness :
  aligned (tick Qsqrt initialState (num 200) (num 100) (num 50) (num 1)
                (1 # 2) (1 # 2) initialState).
Proof.
  apply (buffers_aligned Qsqrt).
  assert (unit_interval (1 # 2)) as Hu by (split; [discriminate | reflexivity]).
  apply reach_tick; auto using reach_initial.
Defined.

(** X16: before the time is up, a run of the timer callback leaves the
    heart rate, the oxygen level, the confidence and the measurements as
    they are whenever the sample is not accepted, or the signal it reads has
    at most 10 samples, or has 20 or more with a conditioning window
    min(50, floor(n/4)) that is not a multiple of 3 (the conditioned signal
    is then [NaN] and has no peaks). *)
Theorem tick_keeps_results (sqrtQ : Q -> Q) (cl s : AppState)
    (r g b elapsed : number) (u1 u2 : Q) :
  verifyHumanFingerprint r g b = false \/ (len (signal cl) <= 10)%Z \/
  ((20 <= len (signal cl))%Z /\ (baselineWindow (len (signal cl)) mod 3 <> 0)%Z) ->
  (elapsed >= MEASUREMENT_TIME)%js = false ->
  results (tick sqrtQ cl r g b elapsed u1 u2 s) = results s.
Proof. apply tick_results. Qed.

Lemma tick_keeps_results_witness :
  let cl := setSignal (fun _ => steady 100 20) initialState in
  results (tick Qsqrt cl (num 200) (num 100) (num 50) (num 1) (1 # 2) (1 # 2)
                initialState) = results initialState.
Proof.
  intro cl.
  apply (tick_keeps_results Qsqrt cl initialState (num 200) (num 100) (num 50)
           (num 1) (1 # 2) (1 # 2)).
  - right. right. split; vm_compute; discriminate.
  - reflexivity.
Defined.

(* ================================================================= *)
(** ** Health score *)

(** Turn the tests on a finite number into inequalities. *)
Ltac tests_to_props :=
  repeat match goal with
    | H : (_ && _)%bool = true |- _ => apply andb_prop in H; destruct H
    | H : (_ && _)%bool = false |- _ => apply andb_false_iff in H; destruct H
    | H : (_ || _)%bool = true |- _ => apply orb_prop in H; destruct H
    | H : (_ || _)%bool = false |- _ => apply orb_false_iff in H; destruct H
    | H : Qle_bool _ _ = true |- _ => apply Qle_bool_iff in H
    | H : Qle_bool ?x ?y = false |- _ =>
        assert (y < x) by (apply Qltb_lt; unfold Qltb; now rewrite H); clear H
    | H : Qltb _ _ = true |- _ => apply Qltb_lt in H
    | H : Qltb _ _ = false |- _ => apply Qltb_ge in H
    end.

Lemma hrScore_values (heartRate : number) :
  exists z, hrScore heartRate = ofZ z /\ (0 <= z <= 50)%Z /\
    (z = 50%Z <-> ((heartRate >= num 60)%js && (heartRate <= num 80)%js) = true) /\
    (z = 0%Z -> heartRate = NaN).
Proof.
  unfold hrScore.
  destruct ((heartRate >= num 60)%js && (heartRate <= num 80)%js) eqn:E1.
  { exists 50%Z. repeat split; try lia; try reflexivity. }
  destruct ((heartRate > num 80)%js && (heartRate <= num 100)%js) eqn:E2.
  { exists 40%Z. repeat split; try lia; discriminate. }
  destruct ((heartRate >= num 40)%js && (heartRate < num 60)%js) eqn:E3.
  { exists 40%Z. repeat split; try lia; discriminate. }
  destruct ((heartRate > num 100)%js && (heartRate <= num 120)%js) eqn:E4.
  { exists 30%Z. repeat split; try lia; discriminate. }
  destruct ((heartRate < num 40)%js || (heartRate > num 120)%js) eqn:E5.
  { exists 20%Z. repeat split; try lia; discriminate. }
  exists 0%Z. repeat split; try lia; try discriminate.
  intros _. destruct heartRate as [a | | |]; try reflexivity; try discriminate.
  exfalso. unfold num, ofZ, ge, gt, le, lt in *. tests_to_props;
    repeat match goal with
      | H : context [inject_Z ?k] |- _ =>
          let v := eval vm_compute in (inject_Z k) in
          change (inject_Z k) with v in H
      end; lra.
Qed.

Lemma o2Score_values (oxygenLevel : number) :
  exists z, o2Score oxygenLevel = ofZ z /\ (0 <= z <= 50)%Z /\
    (z = 50%Z <-> (oxygenLevel >= num 97)%js = true) /\
    (z = 0%Z -> oxygenLevel = NaN).
Proof.
  unfold o2Score.
  destruct (oxygenLevel >= num 97)%js eqn:E1.
  { exists 50%Z. repeat split; try lia; try reflexivity. }
  destruct ((oxygenLevel >= num 95)%js && (oxygenLevel < num 97)%js) eqn:E2.
  { exists 45%Z. repeat split; try lia; discriminate. }
  destruct ((oxygenLevel >= num 92)%js && (oxygenLevel < num 95)%js) eqn:E3.
  { exists 35%Z. repeat split; try lia; discriminate. }
  destruct ((oxygenLevel >= num 90)%js && (oxygenLevel < num 92)%js) eqn:E4.
  { exists 25%Z. repeat split; try lia; discriminate. }
  destruct (oxygenLevel < num 90)%js eqn:E5.
  { exists 15%Z. repeat split; try lia; discriminate. }
  exists 0%Z. repeat split; try lia; try discriminate.
  intros _. destruct oxygenLevel as [a | | |]; try reflexivity; try discriminate.
  exfalso. unfold num, ofZ, ge, gt, le, lt in *. tests_to_props;
    repeat match goal with
      | H : context [inject_Z ?k] |- _ =>
          let v := eval vm_compute in (inject_Z k) in
          change (inject_Z k) with v in H
      end; lra.
Qed.

Lemma ofZ_add (a b : Z) : (ofZ a + ofZ b)%js = ofZ (a + b).
Proof.
  unfold ofZ. simpl. unfold Qplus, inject_Z. simpl.
  rewrite !Z.mul_1_r. reflexivity.
Qed.

(** X17: the health score is an integer from 0 to 100; it is 100 exactly
    for a heart rate from 60 to 80 with an oxygen level of at least 97, and
    it is at least 35 unless the heart rate or the oxygen level is [NaN]
    (a [NaN] reading adds nothing to the score). *)
Theorem calculateHealthScore_range (heartRate oxygenLevel : number) :
  exists z, calculateHealthScore heartRate oxygenLevel = ofZ z /\
    (0 <= z <= 100)%Z /\
    (z = 100%Z <-> optimalReadings heartRate oxygenLevel = true) /\
    (heartRate <> NaN -> oxygenLevel <> NaN -> (35 <= z)%Z).
Proof.
  destruct (hrScore_values heartRate) as [a [Ha [Hra [Ha50 Ha0]]]].
  destruct (o2Score_values oxygenLevel) as [b [Hb [Hrb [Hb50 Hb0]]]].
  exists (a + b)%Z. unfold calculateHealthScore. rewrite Ha, Hb, ofZ_add.
  split; [reflexivity |]. split; [lia |]. split.
  - unfold optimalReadings. rewrite andb_true_iff, <- Ha50, <- Hb50. lia.
  - intros Hh Ho.
    assert (a <> 0)%Z by (intro E; apply Hh, Ha0, E).
    assert (b <> 0)%Z by (intro E; apply Ho, Hb0, E).
    clear Ha50 Hb50 Ha0 Hb0. revert Ha Hb. unfold hrScore, o2Score.
    repeat match goal with
      | |- context [if ?t then _ else _] => destruct t
      end; unfold num, ofZ; intros Ea Eb;
      injection Ea as Ea; injection Eb as Eb; lia.
Qed.

Lemma calculateHealthScore_range_witness :
  exists z, calculateHealthScore (num 72) (num 98) = ofZ z /\ (35 <= z)%Z.
Proof.
  destruct (calculateHealthScore_range (num 72) (num 98)) as [z [Hz [_ [_ H]]]].
  exists z. split; [exact Hz | apply H; discriminate].
Defined.

Lemma o2Score_monotone (a b : Q) :
  a <= b ->
  exists x y, o2Score (Fin a) = ofZ x /\ o2Score (Fin b) = ofZ y /\ (x <= y)%Z.
Proof.
  intro Hab. unfold o2Score, num, ofZ, ge, le, lt, gt.
  repeat match goal with
    | |- context [if ?t then _ else _] =>
        let E := fresh "E" in destruct t eqn:E
    end;
    tests_to_props;
    repeat match goal with
      | H : context [inject_Z ?k] |- _ =>
          let v := eval vm_compute in (inject_Z k) in
          change (inject_Z k) with v in H
      end;
    try (exfalso; lra);
    do 2 eexists; (split; [reflexivity |]); (split; [reflexivity |]); lia.
Qed.

(** X26: for any heart rate, a higher oxygen level never lowers the health
    score. *)
Theorem calculateHealthScore_oxygen (heartRate : number) (a b : Q) :
  a <= b ->
  exists x y, calculateHealthScore heartRate (Fin a) = ofZ x /\
              calculateHealthScore heartRate (Fin b) = ofZ y /\ (x <= y)%Z.
Proof.
  intro Hab.
  destruct (hrScore_values heartRate) as [h [Hh _]].
  destruct (o2Score_monotone a b Hab) as [x [y [Hx [Hy Hxy]]]].
  exists (h + x)%Z, (h + y)%Z. unfold calculateHealthScore.
  rewrite Hh, Hx, Hy, !ofZ_add. repeat split; lia.
Qed.

Lemma calculateHealthScore_oxygen_witness :
  exists x y, calculateHealthScore (num 72) (Fin 93) = ofZ x /\
              calculateHealthScore (num 72) (Fin 96) = ofZ y /\ (x <= y)%Z.
Proof.
  apply (calculateHealthScore_oxygen (num 72) 93 96). discriminate.
Defined.

(* ================================================================= *)
(** ** Heart-rate zone *)

Lemma getHeartRateZone_zoneOf (p : HealthProfile) (a M : Q) :
  profileMaxHR p = Fin M -> ~ M == 0 -> ~ a == 0 ->
  getHeartRateZone p (Some (Fin a)) = zoneOf (Fin (a / M * inject_Z 100)).
Proof.
  intros HM HM0 Ha. unfold getHeartRateZone, truthy.
  replace (Qis0 a) with false by (symmetry; now apply Qis0_neq).
  cbn [negb]. rewrite HM. rewrite (div_fin a M HM0). reflexivity.
Qed.

Lemma zoneOf_monotone (x y : Q) :
  x <= y -> (zoneRank (zoneOf (Fin x)) <= zoneRank (zoneOf (Fin y)))%nat.
Proof.
  intro H. unfold zoneOf, lt, num, ofZ.
  repeat match goal with
    | |- context [Qltb ?u ?v] =>
        let E := fresh "E" in
        destruct (Qltb u v) eqn:E;
        [apply Qltb_lt in E | apply Qltb_ge in E]
    end;
    repeat match goal with
      | H : context [inject_Z ?k] |- _ =>
          let v := eval vm_compute in (inject_Z k) in
          change (inject_Z k) with v in H
      end;
    try (exfalso; lra); vm_compute; lia.
Qed.

Lemma percentage_monotone (a b M : Q) :
  0 < M -> a <= b -> a / M * inject_Z 100 <= b / M * inject_Z 100.
Proof.
  intros HM H. apply Qmult_le_compat_r; [| discriminate].
  unfold Qdiv. apply Qmult_le_compat_r; [exact H |].
  apply Qlt_le_weak. now apply Qinv_lt_0_compat.
Qed.

(** X18: the zone is "Unknown" exactly for a heart rate that is null, 0 or
    [NaN]; for a positive maximum heart rate the zone never falls when the
    heart rate rises (Rest, Very Light, Light, Moderate, Hard, Maximum in
    this order). *)
Theorem getHeartRateZone_order (p : HealthProfile) :
  (forall hr, getHeartRateZone p hr = "Unknown"%string <-> falsy hr = true) /\
  (forall a b M, profileMaxHR p = Fin M -> 0 < M -> 0 < a <= b ->
     (zoneRank (getHeartRateZone p (Some (Fin a)))
      <= zoneRank (getHeartRateZone p (Some (Fin b))))%nat).
Proof.
  split.
  - intros [hr |]; simpl; [| tauto].
    destruct (truthy hr); simpl; [| tauto].
    split; [| discriminate].
    repeat match goal with
      | |- context [if ?t then _ else _] => destruct t
      end; discriminate.
  - intros a b M HM HM0 [Ha Hab].
    rewrite (getHeartRateZone_zoneOf p a M HM) by lra.
    rewrite (getHeartRateZone_zoneOf p b M HM) by lra.
    apply zoneOf_monotone. now apply percentage_monotone.
Qed.

Lemma getHeartRateZone_order_witness :
  (zoneRank (getHeartRateZone initialProfile (Some (Fin 90)))
   <= zoneRank (getHeartRateZone initialProfile (Some (Fin 150))))%nat.
Proof.
  destruct (getHeartRateZone_order initialProfile) as [_ H].
  apply (H 90 150 (inject_Z 190)).
  - reflexivity.
  - reflexivity.
  - split; [reflexivity | discriminate].
Defined.

Lemma zoneOf_ends (x : Q) :
  (zoneOf (Fin x) = "Rest"%string <-> x < 50) /\
  (zoneOf (Fin x) = "Maximum"%string <-> 90 <= x).
Proof.
  unfold zoneOf, lt, num, ofZ.
  repeat match goal with
    | |- context [Qltb ?u ?v] =>
        let E := fresh "E" in
        destruct (Qltb u v) eqn:E;
        [apply Qltb_lt in E | apply Qltb_ge in E]
    end;
    repeat match goal with
      | H : context [inject_Z ?k] |- _ =>
          let v := eval vm_compute in (inject_Z k) in
          change (inject_Z k) with v in H
      end;
    (split; split; intro; try reflexivity; try discriminate; lra).
Qed.

Lemma percentage_below (a M k : Q) :
  0 < M -> (a / M * inject_Z 100 < k <-> a < M * (k / 100)).
Proof.
  intro HM. change (inject_Z 100) with 100.
  assert (0 < 100 / M) as Hpos by (apply Qlt_shift_div_l; lra).
  assert (a / M * 100 == a * (100 / M)) as E1 by (field; lra).
  assert (M * (k / 100) * (100 / M) == k) as E2 by (field; lra).
  rewrite E1, <- E2 at 1. split; intro H.
  - now apply Qmult_lt_r in H.
  - now apply Qmult_lt_r.
Qed.

(** With an exact quotient: the ends of the scale for a positive maximum M
    and a positive heart rate. *)
Lemma getHeartRateZone_ends (p : HealthProfile) (a M : Q) :
  profileMaxHR p = Fin M -> 0 < M -> 0 < a ->
  (getHeartRateZone p (Some (Fin a)) = "Rest"%string <-> a < M / 2) /\
  (getHeartRateZone p (Some (Fin a)) = "Maximum"%string <-> M * (9 # 10) <= a).
Proof.
  intros HM HM0 Ha. rewrite (getHeartRateZone_zoneOf p a M HM) by lra.
  destruct (zoneOf_ends (a / M * inject_Z 100)) as [Hrest Hmax].
  pose proof (percentage_below a M 50 HM0) as H50.
  pose proof (percentage_below a M 90 HM0) as H90.
  assert (M * (50 / 100) == M / 2) as E50 by field.
  assert (M * (90 / 100) == M * (9 # 10)) as E90 by field.
  rewrite E50 in H50. rewrite E90 in H90. split.
  + rewrite Hrest. exact H50.
  + rewrite Hmax. split; intro H.
    * apply Qnot_lt_le. intro L. apply H90 in L. lra.
    * apply Qnot_lt_le. intro L. apply H90 in L. lra.
Qed.

(** X19: a profile without baselines and without an age has the maximum
    heart rate 190 (220 minus the default age 30).  For an integer maximum
    M and an integer heart rate a, both from 1 to 1000000, the zone is
    "Rest" exactly when 2a < M and "Maximum" exactly when 10a >= 9M. *)
Theorem getHeartRateZone_bands (p : HealthProfile) (a M : Z) :
  (baselines p = None -> age p = None -> profileMaxHR p = num 190) /\
  (profileMaxHR p = ofZ M -> (0 < M <= 1000000)%Z -> (0 < a <= 1000000)%Z ->
   (getHeartRateZone p (Some (ofZ a)) = "Rest"%string <-> (2 * a < M)%Z) /\
   (getHeartRateZone p (Some (ofZ a)) = "Maximum"%string <-> (9 * M <= 10 * a)%Z)).
Proof.
  split.
  - intros Hb Ha. unfold profileMaxHR. rewrite Hb, Ha. reflexivity.
  - intros HM [HM0 _] [Ha0 _].
    assert (0 < inject_Z M) as QM by now apply inject_Z_pos.
    assert (0 < inject_Z a) as Qa by now apply inject_Z_pos.
    destruct (getHeartRateZone_ends p (inject_Z a) (inject_Z M) HM QM Qa)
      as [Hrest Hmax].
    unfold ofZ. rewrite Hrest, Hmax.
    assert (inject_Z M / 2 == inject_Z M * (1 # 2)) as E by field.
    rewrite E, Zlt_Qlt, Zle_Qle, !inject_Z_mult.
    change (inject_Z 2) with 2. change (inject_Z 9) with 9.
    change (inject_Z 10) with 10.
    split; split; intro H; lra.
Qed.

Lemma getHeartRateZone_bands_witness :
  profileMaxHR (mkHealthProfile None None) = num 190 /\
  (getHeartRateZone initialProfile (Some (ofZ 171)) = "Maximum"%string
   <-> (9 * 190 <= 10 * 171)%Z).
Proof.
  destruct (getHeartRateZone_bands (mkHealthProfile None None) 171 190) as [H1 _].
  destruct (getHeartRateZone_bands initialProfile 171 190) as [_ H2].
  split.
  - apply H1; reflexivity.
  - apply H2; [reflexivity | lia | lia].
Defined.

(* ================================================================= *)
(** ** Heart-rate variability *)

Lemma intervals_of_finite (l : list number) :
  Forall is_fin l -> Forall is_fin (intervals_of l).
Proof.
  induction l as [| p [| p' rest] IH]; intro H; try constructor.
  - inversion H as [| ? ? Hp Hr]; subst. inversion Hr as [| ? ? Hp' _]; subst.
    destruct p, p'; simpl in *; try contradiction. exact I.
  - apply IH. now inversion H.
Qed.

Lemma squares_finite (l : list number) (a : Q) :
  Forall is_fin l -> 0 <= a ->
  exists s, fold_left (fun acc d => (acc + d * d)%js) l (Fin a) = Fin s /\ 0 <= s.
Proof.
  revert a. induction l as [| x l IH]; intros a H Ha.
  - exists a. split; [reflexivity | exact Ha].
  - inversion H as [| ? ? Hx Hr]; subst. destruct (is_fin_inv x Hx) as [d ->].
    simpl. apply IH; [exact Hr |]. pose proof (Qsquare_nonneg d). lra.
Qed.

(** A sum of squares that has met a term that is not finite. *)
Lemma squares_stay_infinite (l : list number) (acc : number) :
  acc = PInf \/ acc = NaN ->
  let r := fold_left (fun acc d => (acc + d * d)%js) l acc in
  r = PInf \/ r = NaN.
Proof.
  revert acc. induction l as [| x l IH]; intros acc H; [exact H |].
  simpl. apply IH. destruct H as [-> | ->]; [| now right].
  destruct x as [d | | |]; simpl; auto.
Qed.

Lemma squares_infinite (l : list number) (a : Q) :
  (exists d, In d l /\ ~ is_fin d) ->
  let r := fold_left (fun acc d => (acc + d * d)%js) l (Fin a) in
  r = PInf \/ r = NaN.
Proof.
  revert a. induction l as [| x l IH]; intros a [d [Hin Hd]]; [contradiction |].
  simpl. destruct x as [q | | |].
  - apply IH. destruct Hin as [<- | Hin]; [exfalso; apply Hd; exact I |].
    exists d. now split.
  - apply squares_stay_infinite. now left.
  - apply squares_stay_infinite. now left.
  - apply squares_stay_infinite. now right.
Qed.

(** In a list of finite values and [Infinity], of at least two entries, a
    neighbour of an [Infinity] gives a difference that is not finite. *)
Lemma intervals_of_infinite (l : list number) :
  Forall (fun x => is_fin x \/ x = PInf) l -> In PInf l -> (2 <= length l)%nat ->
  exists d, In d (intervals_of l) /\ ~ is_fin d.
Proof.
  induction l as [| p [| p' rest] IH]; intros Hall Hin Hlen;
    simpl in Hlen; try lia.
  inversion Hall as [| ? ? Hp Hr]; subst. inversion Hr as [| ? ? Hp' Hr']; subst.
  change (intervals_of (p :: p' :: rest))
    with ((p' - p)%js :: intervals_of (p' :: rest)).
  destruct Hin as [-> | Hin].
  - exists (p' - PInf)%js. split; [now left |].
    destruct Hp' as [Hf | ->]; [destruct (is_fin_inv _ Hf) as [q ->] |]; intros [].
  - destruct Hin as [-> | Hin].
    + exists (PInf - p)%js. split; [now left |].
      destruct Hp as [Hf | ->]; [destruct (is_fin_inv _ Hf) as [q ->] |]; intros [].
    + destruct rest as [| p'' rest]; [contradiction |].
      destruct IH as [d [Hd Hnf]]; [exact Hr | now right | simpl; lia |].
      exists d. split; [now right | exact Hnf].
Qed.

Section VariabilityFacts.

Variable sqrtQ : Q -> Q.

Lemma calculateHRV_finite (heartRates : list number) :
  (2 <= len heartRates)%Z -> Forall beating heartRates ->
  exists v, calculateHRV sqrtQ heartRates = Fin (sqrtQ v) /\ 0 <= v.
Proof.
  intros Hlen Hall. unfold calculateHRV.
  replace (len heartRates <? 2)%Z with false by (symmetry; apply Z.ltb_ge; lia).
  set (rr := map (fun hr => (num 60000 / hr)%js) heartRates).
  assert (Forall is_fin rr) as Hrr.
  { unfold rr. apply Forall_forall. intros y Hy. apply in_map_iff in Hy.
    destruct Hy as [x [<- Hx]]. rewrite Forall_forall in Hall.
    destruct (Hall x Hx) as [q [-> Hq]]. unfold num, ofZ.
    rewrite div_fin by exact Hq. exact I. }
  destruct (squares_finite (intervals_of rr) 0 (intervals_of_finite rr Hrr))
    as [s [Hs Hs0]]; [lra |].
  change (num 0) with (Fin 0). rewrite Hs.
  assert (len rr = len heartRates) as Hl by (unfold len, rr; now rewrite length_map).
  rewrite Hl.
  assert (0 < inject_Z (len heartRates) + - inject_Z 1) as Hn.
  { assert (inject_Z 2 <= inject_Z (len heartRates)) by now apply inject_Z_le.
    change (inject_Z 2) with 2 in *. change (inject_Z 1) with 1. lra. }
  unfold num, ofZ. cbn [sub add neg]. rewrite div_fin by lra.
  assert (0 <= s / (inject_Z (len heartRates) + - inject_Z 1)) as Hv
    by (apply Qle_shift_div_l; lra).
  exists (s / (inject_Z (len heartRates) + - inject_Z 1)). split; [| exact Hv].
  simpl. now replace (Qltb _ 0) with false by (symmetry; now apply Qltb_ge).
Qed.

Lemma calculateHRV_zero_rate (heartRates : list number) :
  (2 <= len heartRates)%Z -> Forall is_fin heartRates ->
  (exists z, In (Fin z) heartRates /\ z == 0) ->
  calculateHRV sqrtQ heartRates = PInf \/ calculateHRV sqrtQ heartRates = NaN.
Proof.
  intros Hlen Hall [z [Hz Hz0]]. unfold calculateHRV.
  replace (len heartRates <? 2)%Z with false by (symmetry; apply Z.ltb_ge; lia).
  set (rr := map (fun hr => (num 60000 / hr)%js) heartRates).
  assert (Forall (fun x => is_fin x \/ x = PInf) rr) as Hrr.
  { unfold rr. apply Forall_forall. intros y Hy. apply in_map_iff in Hy.
    destruct Hy as [x [<- Hx]]. rewrite Forall_forall in Hall.
    destruct (is_fin_inv x (Hall x Hx)) as [q ->]. unfold num, ofZ. simpl.
    destruct (Qis0 q); [right; reflexivity | left; exact I]. }
  assert (In PInf rr) as Hin.
  { unfold rr. apply in_map_iff. exists (Fin z). split; [| exact Hz].
    unfold num, ofZ. simpl. apply Qis0_eq in Hz0. now rewrite Hz0. }
  assert (len rr = len heartRates) as Hl by (unfold len, rr; now rewrite length_map).
  destruct (intervals_of_infinite rr Hrr Hin) as [d Hd];
    [unfold len in *; lia |].
  pose proof (squares_infinite (intervals_of rr) 0 (ex_intro _ d Hd)) as Hsum.
  cbv zeta in Hsum. change (num 0) with (Fin 0). rewrite Hl.
  assert (0 < inject_Z (len heartRates) + - inject_Z 1) as Hn.
  { assert (inject_Z 2 <= inject_Z (len heartRates)) by now apply inject_Z_le.
    change (inject_Z 2) with 2 in *. change (inject_Z 1) with 1. lra. }
  unfold num, ofZ. cbn [sub add neg].
  destruct Hsum as [-> | ->]; [left | right; reflexivity].
  simpl. replace (Qpos _) with true by (symmetry; now apply Qpos_lt).
  reflexivity.
Qed.

End VariabilityFacts.

(** X20: the heart-rate variability of fewer than 2 rates is 0; for at
    least 2 rates between 1 and 1000 it is the square root of a
    non-negative number, so a finite value. *)
Theorem calculateHRV_defined (sqrtQ : Q -> Q) (heartRates : list number) :
  ((len heartRates < 2)%Z -> calculateHRV sqrtQ heartRates = num 0) /\
  ((2 <= len heartRates)%Z -> Forall (within 1 1000) heartRates ->
   exists v, calculateHRV sqrtQ heartRates = Fin (sqrtQ v) /\ 0 <= v).
Proof.
  split.
  - intro H. unfold calculateHRV.
    now replace (len heartRates <? 2)%Z with true by (symmetry; apply Z.ltb_lt; lia).
  - intros Hlen Hall. apply calculateHRV_finite; [exact Hlen |].
    eapply Forall_impl; [| exact Hall].
    intros x [q [-> Hq]]. exists q. split; [reflexivity | lra].
Qed.

Lemma calculateHRV_defined_witness :
  calculateHRV Qsqrt [num 70] = num 0 /\
  exists v, calculateHRV Qsqrt (map num [60; 75; 60]%Z) = Fin (Qsqrt v) /\ 0 <= v.
Proof.
  destruct (calculateHRV_defined Qsqrt [num 70]) as [H1 _].
  destruct (calculateHRV_defined Qsqrt (map num [60; 75; 60]%Z)) as [_ H2].
  split.
  - apply H1. reflexivity.
  - apply H2; [vm_compute; discriminate |].
    repeat constructor; eexists; (split; [reflexivity | split; discriminate]).
Defined.

(** X21: a heart rate of 0 among at least 2 finite rates makes the
    heart-rate variability [Infinity] or [NaN]: its RR interval 60000/0 is
    infinite. *)
Theorem calculateHRV_division_by_zero (sqrtQ : Q -> Q) (heartRates : list number) :
  (2 <= len heartRates)%Z -> Forall is_fin heartRates ->
  (exists z, In (Fin z) heartRates /\ z == 0) ->
  calculateHRV sqrtQ heartRates = PInf \/ calculateHRV sqrtQ heartRates = NaN.
Proof.
  intros Hlen Hfin Hzero. now apply calculateHRV_zero_rate.
Qed.

Lemma calculateHRV_division_by_zero_witness :
  calculateHRV Qsqrt (map num [70; 0; 72]%Z) = PInf \/
  calculateHRV Qsqrt (map num [70; 0; 72]%Z) = NaN.
Proof.
  apply (calculateHRV_division_by_zero Qsqrt (map num [70; 0; 72]%Z)).
  - vm_compute. discriminate.
  - repeat constructor.
  - exists (inject_Z 0). split; [right; now left | reflexivity].
Defined.

(* ================================================================= *)
(** ** Variation and animation *)

(** X22: for an integer heart rate of magnitude at most 2^50 and a random
    draw in [0,1) the varied heart rate is an integer at most 2 away from
    it. *)
Theorem addNaturalVariation_near (u : Q) (base : Z) :
  0 <= u < 1 -> (Z.abs base <= 2 ^ 50)%Z ->
  exists r, addNaturalVariation u (ofZ base) = ofZ r /\ (base - 2 <= r <= base + 2)%Z.
Proof.
  intros [H0 H1] _. unfold addNaturalVariation.
  assert ((ofZ base + (Fin u * num 4 - num 2))%js
          = Fin (inject_Z base + (u * inject_Z 4 + - inject_Z 2))) as -> by reflexivity.
  apply round_fin_bounds.
  - unfold Z.sub. rewrite inject_Z_plus, inject_Z_opp.
    change (inject_Z 2) with 2. change (inject_Z 4) with 4. lra.
  - rewrite inject_Z_plus. change (inject_Z 2) with 2. change (inject_Z 4) with 4. lra.
Qed.

Lemma addNaturalVariation_near_witness :
  exists r, addNaturalVariation (1 # 4) (ofZ 70) = ofZ r /\ (70 - 2 <= r <= 70 + 2)%Z.
Proof.
  apply (addNaturalVariation_near (1 # 4) 70).
  - split; [discriminate | reflexivity].
  - vm_compute. intro E. discriminate E.
Defined.

(** X23: the pulse animation takes a rate of 0 or [NaN] as 75: the beat
    duration is then the one of the rate 75.  For a rate of at least 1 the
    duration is a positive number, at most 60 seconds, and a faster rate
    never has the longer beat. *)
Theorem enhancedPulseAnimation_duration (bpm : number) (a b : Q) :
  (truthy bpm = false ->
   duration (enhancedPulseAnimation bpm) = duration (enhancedPulseAnimation (num 75))) /\
  (1 <= a <= b ->
   exists qa qb,
     duration (enhancedPulseAnimation (Fin a)) = Fin qa /\
     duration (enhancedPulseAnimation (Fin b)) = Fin qb /\
     0 < qb /\ qb <= qa /\ qa <= 60).
Proof.
  split.
  - intro H. unfold enhancedPulseAnimation, duration, or_else. rewrite H.
    reflexivity.
  - intros [Ha Hab].
    assert (forall x, 1 <= x ->
              duration (enhancedPulseAnimation (Fin x)) = Fin (inject_Z 60 / x)) as Hd.
    { intros x Hx. unfold enhancedPulseAnimation, duration, or_else, truthy.
      replace (Qis0 x) with false by (symmetry; apply Qis0_neq; lra).
      cbn [negb]. apply div_fin. lra. }
    exists (inject_Z 60 / a), (inject_Z 60 / b).
    rewrite (Hd a) by lra. rewrite (Hd b) by lra.
    change (inject_Z 60) with 60.
    split; [reflexivity |]. split; [reflexivity |]. split; [| split].
    + apply Qlt_shift_div_l; lra.
    + apply Qle_shift_div_l; [lra |].
      setoid_replace (60 / b * a) with (60 * (a / b)) by (field; lra).
      assert (a / b <= 1) by (apply Qle_shift_div_r; lra). lra.
    + apply Qle_shift_div_r; lra.
Qed.

Lemma enhancedPulseAnimation_duration_witness :
  duration (enhancedPulseAnimation (num 0)) = duration (enhancedPulseAnimation (num 75)) /\
  exists qa qb,
    duration (enhancedPulseAnimation (Fin 60)) = Fin qa /\
    duration (enhancedPulseAnimation (Fin 120)) = Fin qb /\
    0 < qb /\ qb <= qa /\ qa <= 60.
Proof.
  destruct (enhancedPulseAnimation_duration (num 0) 60 120) as [H1 H2].
  split.
  - apply H1. reflexivity.
  - apply H2. split; discriminate.
Defined.

(* ================================================================= *)
(** ** Frame sampling *)

Lemma fold_left_preserves {A B : Type} (P : A -> Prop) (f : A -> B -> A)
    (l : list B) (a : A) :
  (forall x b, P x -> P (f x b)) -> P a -> P (fold_left f l a).
Proof.
  intro Hf. revert a. induction l as [| b l IH]; intros a Ha; [exact Ha |].
  simpl. apply IH. now apply Hf.
Qed.

Lemma byteAt_byte (data : list Z) (i : Z) :
  Forall (fun v => (0 <= v <= 255)%Z) data ->
  (0 <= i < Z.of_nat (length data))%Z -> (0 <= byteAt data i <= 255)%Z.
Proof.
  intros Hall Hi. rewrite Forall_forall in Hall. apply Hall.
  unfold byteAt. apply nth_In. lia.
Qed.

Lemma addPixel_byteSums (width : Z) (data : list Z) (y x : Z) (acc : ChannelSums) :
  Forall (fun v => (0 <= v <= 255)%Z) data ->
  byteSums acc /\ (1 <= pixelCount acc)%Z ->
  byteSums (addPixel width data y acc x) /\
  (1 <= pixelCount (addPixel width data y acc x))%Z.
Proof.
  intros Hall [[Hc [Hr [Hg Hb]]] H1]. unfold addPixel.
  destruct ((0 <=? (y * width + x) * 4)%Z
            && ((y * width + x) * 4 <? Z.of_nat (length data) - 3)%Z) eqn:E.
  - apply andb_true_iff in E. destruct E as [E1 E2].
    apply Z.leb_le in E1. apply Z.ltb_lt in E2.
    pose proof (byteAt_byte data ((y * width + x) * 4) Hall).
    pose proof (byteAt_byte data ((y * width + x) * 4 + 1) Hall).
    pose proof (byteAt_byte data ((y * width + x) * 4 + 2) Hall).
    unfold byteSums. cbn [sumR sumG sumB pixelCount]. lia.
  - unfold byteSums. lia.
Qed.

Lemma addPixel_first (width : Z) (data : list Z) (y x : Z) :
  Forall (fun v => (0 <= v <= 255)%Z) data ->
  (0 <= (y * width + x) * 4 < Z.of_nat (length data) - 3)%Z ->
  let s := addPixel width data y (mkChannelSums 0 0 0 0) x in
  byteSums s /\ (1 <= pixelCount s)%Z.
Proof.
  intros Hall Hidx. unfold addPixel.
  replace (0 <=? (y * width + x) * 4)%Z with true by (symmetry; apply Z.leb_le; lia).
  replace ((y * width + x) * 4 <? Z.of_nat (length data) - 3)%Z with true
    by (symmetry; apply Z.ltb_lt; lia).
  pose proof (byteAt_byte data ((y * width + x) * 4) Hall).
  pose proof (byteAt_byte data ((y * width + x) * 4 + 1) Hall).
  pose proof (byteAt_byte data ((y * width + x) * 4 + 2) Hall).
  cbn [andb]. unfold byteSums. cbn [sumR sumG sumB pixelCount]. lia.
Qed.

(** On a frame of at least 4 by 4 pixels the sums are those of at least one
    pixel. *)
Lemma sampleRegion_byteSums (width height : Z) (data : list Z) :
  (4 <= width)%Z -> (4 <= height)%Z -> pixels width height data ->
  byteSums (sampleRegion width height data) /\
  (1 <= pixelCount (sampleRegion width height data))%Z.
Proof.
  intros Hw Hh [Hlen Hall]. unfold sampleRegion.
  set (cx := (width / 2)%Z). set (cy := (height / 2)%Z).
  set (rs := (Z.min width height / 4)%Z).
  assert (1 <= rs)%Z as Hrs by (unfold rs; Z.to_euclidean_division_equations; lia).
  assert (0 <= cx - rs /\ cx - rs < width)%Z as Hx
    by (unfold cx, rs; Z.to_euclidean_division_equations; lia).
  assert (0 <= cy - rs /\ cy - rs < height)%Z as Hy
    by (unfold cy, rs; Z.to_euclidean_division_equations; lia).
  assert (forall l y s, byteSums s /\ (1 <= pixelCount s)%Z ->
            byteSums (fold_left (addPixel width data y) l s) /\
            (1 <= pixelCount (fold_left (addPixel width data y) l s))%Z) as Hrow.
  { intros l y s Hs.
    apply (fold_left_preserves (fun s => byteSums s /\ (1 <= pixelCount s)%Z));
      [| exact Hs].
    intros s' x Hs'. now apply addPixel_byteSums. }
  rewrite (zrange_cons (cy - rs) (cy + rs)) by lia.
  cbn [fold_left].
  apply (fold_left_preserves (fun s => byteSums s /\ (1 <= pixelCount s)%Z)).
  - intros s y Hs. now apply Hrow.
  - rewrite (zrange_cons (cx - rs) (cx + rs)) by lia.
    cbn [fold_left]. apply Hrow.
    apply addPixel_first; [exact Hall |].
    rewrite Hlen. destruct Hx as [Hx0 Hx1]. destruct Hy as [Hy0 Hy1].
    generalize dependent (cx - rs)%Z. generalize dependent (cy - rs)%Z.
    intros y Hy0 Hy1 x Hx0 Hx1. nia.
Qed.

Lemma mean_byte (total count : Z) :
  (1 <= count)%Z -> (0 <= total <= 255 * count)%Z ->
  within 0 255 (num total / num count)%js.
Proof.
  intros Hc Ht. unfold num, ofZ.
  assert (0 < inject_Z count) as Hpos by (apply inject_Z_pos; lia).
  rewrite div_fin by lra. exists (inject_Z total / inject_Z count).
  split; [reflexivity |].
  assert (inject_Z 0 <= inject_Z total) as H0 by (apply inject_Z_le; lia).
  assert (inject_Z total <= inject_Z (255 * count)) as H1 by (apply inject_Z_le; lia).
  rewrite inject_Z_mult in H1. change (inject_Z 0) with 0 in H0.
  change (inject_Z 255) with 255 in H1. split.
  - apply Qle_shift_div_l; lra.
  - apply Qle_shift_div_r; lra.
Qed.

(** X24: on a frame of at least 4 by 4 pixels the three colour averages
    handed to the liveness test are finite numbers between 0 and 255. *)
Theorem frameMeans_bytes (width height : Z) (data : list Z) :
  (4 <= width)%Z -> (4 <= height)%Z -> pixels width height data ->
  let '(r, g, b) := frameMeans width height data in
  within 0 255 r /\ within 0 255 g /\ within 0 255 b.
Proof.
  intros Hw Hh Hpx.
  destruct (sampleRegion_byteSums width height data Hw Hh Hpx)
    as [[Hc [Hr [Hg Hb]]] H1].
  unfold frameMeans. repeat split; now apply mean_byte.
Qed.

Lemma frameMeans_bytes_witness :
  let '(r, g, b) := frameMeans 4 4 (repeat 200%Z 64) in
  within 0 255 r /\ within 0 255 g /\ within 0 255 b.
Proof.
  apply (frameMeans_bytes 4 4 (repeat 200%Z 64)); [lia | lia |].
  split; [reflexivity |]. apply Forall_forall. intros v Hv.
  apply repeat_spec in Hv. subst v. lia.
Defined.

(** X25: a frame less than 4 pixels wide or high has an empty centre
    region: the three averages are 0/0, not numbers, and the liveness test
    rejects the frame.  (A frame has at least one pixel: the drawing context
    hands out no pixel array for an empty one.) *)
Theorem frameMeans_small_frame (width height : Z) (data : list Z) :
  (1 <= width)%Z -> (1 <= height)%Z -> (Z.min width height < 4)%Z ->
  frameMeans width height data = (NaN, NaN, NaN) /\
  (let '(r, g, b) := frameMeans width height data in
   verifyHumanFingerprint r g b) = false.
Proof.
  intros Hw Hh Hmin.
  assert (frameMeans width height data = (NaN, NaN, NaN)) as E.
  { unfold frameMeans, sampleRegion.
    replace (Z.min width height / 4)%Z with 0%Z
      by (symmetry; apply Z.div_small; lia).
    rewrite (zrange_nil (height / 2 - 0) (height / 2 + 0)) by lia.
    reflexivity. }
  split; [exact E | now rewrite E].
Qed.

Lemma frameMeans_small_frame_witness :
  frameMeans 3 8 (repeat 200%Z 96) = (NaN, NaN, NaN) /\
  (let '(r, g, b) := frameMeans 3 8 (repeat 200%Z 96) in
   verifyHumanFingerprint r g b) = false.
Proof.
  apply (frameMeans_small_frame 3 8 (repeat 200%Z 96)); lia.
Defined.
